(** * codegen/generate.py: grammar rule extraction and schema/visitor projection

    A shallow embedding of [GrammarParser], [SemanticNodeGenerator] and
    [TreeBuilderGenerator].  Python [str] values are Rocq strings whose
    characters are the code points below 256; the identifier patterns of the
    script accept ASCII letters, digits and [_] only, so every name that
    reaches the case conversions is ASCII. *)

From Stdlib Require Import ZArith Lia List Ascii String Bool Permutation Sorted.
From stdpp Require Import base list strings gmap.
Import ListNotations.
Open Scope string_scope.
Open Scope list_scope.

(** ** Python string primitives *)

Module Py.

(** [str.isspace] on one character: TAB..CR, FS..US, SPACE, NEL, NBSP.
    The pattern class [\s] of [re] is the same set on [str] patterns. *)
Definition isspace (c : ascii) : bool :=
  let n := N_of_ascii c in
  ((9 <=? n) && (n <=? 13) || (28 <=? n) && (n <=? 32)
   || (n =? 133) || (n =? 160))%N.

Definition in_range (lo hi c : ascii) : bool :=
  ((N_of_ascii lo <=? N_of_ascii c) && (N_of_ascii c <=? N_of_ascii hi))%N.

Definition islower_az (c : ascii) : bool := in_range "a" "z" c.
Definition isupper_AZ (c : ascii) : bool := in_range "A" "Z" c.
Definition isdigit_09 (c : ascii) : bool := in_range "0" "9" c.

(** [str.isupper] on one character: the cased upper-case code points
    below 256. *)
Definition isupper (c : ascii) : bool :=
  let n := N_of_ascii c in
  (isupper_AZ c || (192 <=? n) && (n <=? 222) && negb (n =? 215))%N.

(** ASCII case mappings, as [str.upper] and [str.lower] act on the
    characters of identifiers. *)
Definition upper (c : ascii) : ascii :=
  if islower_az c then ascii_of_N (N_of_ascii c - 32) else c.
Definition lower (c : ascii) : ascii :=
  if isupper_AZ c then ascii_of_N (N_of_ascii c + 32) else c.

Fixpoint map_string (f : ascii -> ascii) (s : string) : string :=
  match s with
  | EmptyString => EmptyString
  | String c s' => String (f c) (map_string f s')
  end.

(** [str.capitalize]: first character upper-cased, the rest lower-cased. *)
Definition capitalize (s : string) : string :=
  match s with
  | EmptyString => EmptyString
  | String c s' => String (upper c) (map_string lower s')
  end.

Fixpoint lstrip (s : string) : string :=
  match s with
  | EmptyString => EmptyString
  | String c s' => if isspace c then lstrip s' else s
  end.

Fixpoint rstrip (s : string) : string :=
  match s with
  | EmptyString => EmptyString
  | String c s' =>
      match rstrip s' with
      | EmptyString => if isspace c then EmptyString else String c EmptyString
      | r => String c r
      end
  end.

(** [str.strip()] *)
Definition strip (s : string) : string := lstrip (rstrip s).

(** [''.join(chars)] for a list of one-character strings *)
Definition join_chars (l : list ascii) : string := string_of_list_ascii l.

(** [sep.join(parts)] *)
Fixpoint join (sep : string) (l : list string) : string :=
  match l with
  | [] => EmptyString
  | [x] => x
  | x :: rest => x +:+ sep +:+ join sep rest
  end.

(** [s.split(sep)] for a one-character separator: never the empty list. *)
Fixpoint split (sep : ascii) (s : string) : list string :=
  match s with
  | EmptyString => [EmptyString]
  | String c s' =>
      if Ascii.eqb c sep then EmptyString :: split sep s'
      else match split sep s' with
           | w :: ws => String c w :: ws
           | [] => [String c EmptyString]
           end
  end.

(** [l[-1]] on the result of a split (which is never empty) *)
Definition last_part (l : list string) : string := List.last l EmptyString.

(** [s.rsplit(sep, 1)[0]]: the text before the last separator, the whole
    text when there is none. *)
Definition rsplit1_head (sep : ascii) (s : string) : string :=
  match split sep s with
  | [] | [_] => s
  | ws => join (String sep EmptyString) (removelast ws)
  end.

(** [needle in s] for strings *)
Fixpoint contains (needle s : string) : bool :=
  if String.prefix needle s then true
  else match s with
       | EmptyString => false
       | String _ s' => contains needle s'
       end.

Fixpoint endswith_aux (suffix s : string) : bool :=
  if String.eqb suffix s then true
  else match s with
       | EmptyString => false
       | String _ s' => endswith_aux suffix s'
       end.
Definition endswith (s suffix : string) : bool := endswith_aux suffix s.

End Py.

(** ** Data models *)

Record RuleElement := mkRuleElement {
  name : string;
  is_token : bool;
  cardinality : string;
  is_rule_ref : bool
}.

Definition is_optional (e : RuleElement) : bool :=
  String.eqb (cardinality e) "?" || String.eqb (cardinality e) "*".

Definition is_list (e : RuleElement) : bool :=
  String.eqb (cardinality e) "*" || String.eqb (cardinality e) "+".

Record Alternative := mkAlternative {
  label : option string;
  elements : list RuleElement
}.

Record GrammarRule := mkGrammarRule {
  rule_name : string;
  alternatives : list Alternative
}.

Definition java_class_name (rule : GrammarRule) : string :=
  Py.join EmptyString (map Py.capitalize (Py.split "_" (rule_name rule))).

Definition has_multiple_alternatives (rule : GrammarRule) : bool :=
  (1 <? length (alternatives rule))%nat.

(** ** GrammarParser *)

(** *** [_split_alternatives] *)

Record split_state := mkSplit {
  parts : list string;
  current : list ascii;
  depth : Z
}.

Definition is_open (char : ascii) : bool :=
  Ascii.eqb char "(" || Ascii.eqb char "[".
Definition is_close (char : ascii) : bool :=
  Ascii.eqb char ")" || Ascii.eqb char "]".
Definition is_bar (char : ascii) : bool := Ascii.eqb char "|".

(** One iteration of [for char in rule_body]. *)
Definition split_step (st : split_state) (char : ascii) : split_state :=
  if is_open char then
    mkSplit (parts st) (current st ++ [char]) (depth st + 1)
  else if is_close char then
    mkSplit (parts st) (current st ++ [char]) (depth st - 1)
  else if is_bar char && (depth st =? 0)%Z then
    mkSplit (parts st ++ [Py.strip (Py.join_chars (current st))]) [] (depth st)
  else
    mkSplit (parts st) (current st ++ [char]) (depth st).

Definition split_init : split_state := mkSplit [] [] 0.

Definition split_loop (st : split_state) (text : string) : split_state :=
  fold_left split_step (list_ascii_of_string text) st.

Definition _split_alternatives (rule_body : string) : list string :=
  let st := split_loop split_init rule_body in
  let parts :=
    match current st with
    | [] => parts st
    | _ :: _ => parts st ++ [Py.strip (Py.join_chars (current st))]
    end in
  match parts with
  | [] => [rule_body]
  | _ :: _ => parts
  end.

(** *** The regular expressions of the parser

    Each pattern of the script is written out as the matcher the
    backtracking engine of [re] runs for it: a function from the text at the
    current position to the captured groups and the text after the match, or
    [None] when the pattern does not match there.  Greedy repetitions of a
    character class are [span]; where giving characters back could let the
    rest of the pattern match, the alternatives are tried in the engine's
    order. *)

Module Re.

(** Longest prefix of characters in the class [p], and the rest. *)
Fixpoint span (p : ascii -> bool) (s : string) : string * string :=
  match s with
  | EmptyString => (EmptyString, EmptyString)
  | String c s' =>
      if p c then let (a, b) := span p s' in (String c a, b)
      else (EmptyString, s)
  end.

Definition skip_spaces (s : string) : string := snd (span Py.isspace s).

(** [[a-z_]], [[a-z0-9_]], [[A-Z_]], [[A-Z0-9_]] *)
Definition lower_start (c : ascii) : bool :=
  Py.islower_az c || Ascii.eqb c "_".
Definition lower_cont (c : ascii) : bool :=
  Py.islower_az c || Py.isdigit_09 c || Ascii.eqb c "_".
Definition upper_start (c : ascii) : bool :=
  Py.isupper_AZ c || Ascii.eqb c "_".
Definition upper_cont (c : ascii) : bool :=
  Py.isupper_AZ c || Py.isdigit_09 c || Ascii.eqb c "_".

(** A start character and then the longest run of continuation
    characters: no shorter identifier is ever retried by the
    patterns below, because what follows an identifier in them never
    starts with an identifier character. *)
Definition ident (start cont : ascii -> bool) (s : string)
  : option (string * string) :=
  match s with
  | EmptyString => None
  | String c s' =>
      if start c then let (a, b) := span cont s' in Some (String c a, b)
      else None
  end.

Definition lower_ident := ident lower_start lower_cont.
Definition upper_ident := ident upper_start upper_cont.

(** The label pattern, a hash sign, optional white space and a lower-case
    identifier (group 1): group 1 and the rest. *)
Definition label_pattern (s : string) : option (string * string) :=
  match s with
  | String "#" s' => lower_ident (skip_spaces s')
  | _ => None
  end.

(** A quoted literal for the quote character [q] (the quote, one or more
    other characters, the quote): the whole literal and the rest. *)
Definition quoted (q : ascii) (s : string) : option (string * string) :=
  match s with
  | EmptyString => None
  | String c s' =>
      if Ascii.eqb c q then
        match span (fun x => negb (Ascii.eqb x q)) s' with
        | (String i inner, String _ rest) =>
            Some (String q (String i inner +:+ String q EmptyString), rest)
        | _ => None
        end
      else None
  end.

Definition dquote : ascii := "034"%char.
Definition squote : ascii := "'"%char.

Definition is_suffix_char (c : ascii) : bool :=
  Ascii.eqb c "?" || Ascii.eqb c "*" || Ascii.eqb c "+".

(** The element pattern: group 1 is a lower-case identifier, else an
    upper-case identifier, else a single-quoted literal, else a
    double-quoted literal; group 2 is an optional suffix character.
    Returns group 1, group 2 (the empty string when it did not take part)
    and the rest. *)
Definition element_pattern (s : string)
  : option (string * string * string) :=
  let g1 :=
    match lower_ident s with
    | Some r => Some r
    | None =>
        match upper_ident s with
        | Some r => Some r
        | None =>
            match quoted squote s with
            | Some r => Some r
            | None => quoted dquote s
            end
        end
    end in
  match g1 with
  | None => None
  | Some (element_name, rest) =>
      match rest with
      | String c rest' =>
          if is_suffix_char c
          then Some (element_name, String c EmptyString, rest')
          else Some (element_name, EmptyString, rest)
      | EmptyString => Some (element_name, EmptyString, rest)
      end
  end.

(** Optional white space and the semicolon. *)
Definition terminator (s : string) : option string :=
  match skip_spaces s with
  | String ";" rest => Some rest
  | _ => None
  end.

(** The lazy repetition of any character (DOTALL) followed by the
    terminator: the shortest text after which the terminator matches. *)
Fixpoint lazy_until_terminator (s : string) : option (string * string) :=
  match terminator s with
  | Some rest => Some (EmptyString, rest)
  | None =>
      match s with
      | EmptyString => None
      | String c s' =>
          match lazy_until_terminator s' with
          | Some (b, rest) => Some (String c b, rest)
          | None => None
          end
      end
  end.

(** The lazy group 2 (at least one character) and the terminator. *)
Definition lazy_body (s : string) : option (string * string) :=
  match s with
  | EmptyString => None
  | String c s' =>
      match lazy_until_terminator s' with
      | Some (b, rest) => Some (String c b, rest)
      | None => None
      end
  end.

(** White space, group 2 and the terminator: the leading white space is
    greedy, it takes all of it first and gives it back one character at a
    time. *)
Fixpoint body_pattern (s : string) : option (string * string) :=
  match s with
  | EmptyString => None
  | String c s' =>
      if Py.isspace c then
        match body_pattern s' with
        | Some r => Some r
        | None => lazy_body s
        end
      else lazy_body s
  end.

(** The rule pattern at a line start (identifier, colon, body,
    semicolon): group 1, group 2 and the rest. *)
Definition rule_pattern (s : string) : option (string * string * string) :=
  match lower_ident s with
  | None => None
  | Some (rule_name, r1) =>
      match skip_spaces r1 with
      | String ":" r2 =>
          match body_pattern r2 with
          | Some (rule_body, rest) => Some (rule_name, rule_body, rest)
          | None => None
          end
      | _ => None
      end
  end.

(** The scan shared by [finditer], [search] and [sub]: try the pattern at
    the current position; after a match go on behind it, otherwise pass
    one character.  None of the patterns matches the empty string.  The
    fuel bounds the number of positions visited; [S (length text)] is
    always enough (see [scan_fuel]). *)
Section Scan.
Context {A : Type} (pattern : string -> option (A * string)).

Fixpoint scan (fuel : nat) (s : string) : list (ascii + A) :=
  match fuel with
  | O => []
  | S fuel' =>
      match pattern s with
      | Some (a, rest) => inr a :: scan fuel' rest
      | None =>
          match s with
          | EmptyString => []
          | String c s' => inl c :: scan fuel' s'
          end
      end
  end.

Definition tokens (s : string) : list (ascii + A) :=
  scan (S (String.length s)) s.

Fixpoint matches_of (l : list (ascii + A)) : list A :=
  match l with
  | [] => []
  | inl _ :: l' => matches_of l'
  | inr a :: l' => a :: matches_of l'
  end.

Fixpoint unmatched_of (l : list (ascii + A)) : string :=
  match l with
  | [] => EmptyString
  | inl c :: l' => String c (unmatched_of l')
  | inr _ :: l' => unmatched_of l'
  end.

(** [pattern.finditer(s)] *)
Definition finditer (s : string) : list A := matches_of (tokens s).

(** [re.search(pattern, s)] *)
Definition search (s : string) : option A := head (finditer s).

(** [re.sub(pattern, '', s)] *)
Definition sub_empty (s : string) : string := unmatched_of (tokens s).
End Scan.

(** [finditer] for the rule pattern with MULTILINE: [^] holds at the
    start of the text and behind every newline. *)
Definition newline : ascii := "010"%char.

Fixpoint scan_rules (fuel : nat) (at_line_start : bool) (s : string)
  : list (string * string) :=
  match fuel with
  | O => []
  | S fuel' =>
      match (if at_line_start then rule_pattern s else None) with
      | Some (rule_name, rule_body, rest) =>
          (rule_name, rule_body) :: scan_rules fuel' false rest
      | None =>
          match s with
          | EmptyString => []
          | String c s' => scan_rules fuel' (Ascii.eqb c newline) s'
          end
      end
  end.

Definition finditer_rules (content : string) : list (string * string) :=
  scan_rules (S (String.length content)) true content.

End Re.

(** *** [parse], [_should_skip_rule], [_parse_rule], [_parse_alternative] *)

(** A Python [dict] with [str] keys: the items in insertion order; storing
    under a key already present replaces the value in place. *)
Definition dict (V : Type) : Type := list (string * V).

Fixpoint dict_set {V : Type} (d : dict V) (k : string) (v : V) : dict V :=
  match d with
  | [] => [(k, v)]
  | (k', v') :: d' =>
      if String.eqb k' k then (k', v) :: d' else (k', v') :: dict_set d' k v
  end.

Fixpoint dict_get {V : Type} (d : dict V) (k : string) : option V :=
  match d with
  | [] => None
  | (k', v') :: d' => if String.eqb k' k then Some v' else dict_get d' k
  end.

Definition keys {V : Type} (d : dict V) : list string := map fst d.

Definition skip_rules : gset string :=
  {[ "sql_script"; "unit_statement"; "sql_plus_command";
     "sql_plus_command_no_semicolon" ]}.

Definition _should_skip_rule (rule_name : string) : bool :=
  bool_decide (rule_name ∈ skip_rules).

(** [element_name] starts with a single or a double quote. *)
Definition is_literal (element_name : string) : bool :=
  match element_name with
  | String c _ => Ascii.eqb c Re.squote || Ascii.eqb c Re.dquote
  | EmptyString => false
  end.

(** [element_name[0].isupper()]; group 1 of the element pattern is never
    empty. *)
Definition first_isupper (element_name : string) : bool :=
  match element_name with
  | String c _ => Py.isupper c
  | EmptyString => false
  end.

Fixpoint elements_of_matches (ms : list (string * string))
  : list RuleElement :=
  match ms with
  | [] => []
  | (element_name, cardinality) :: ms' =>
      if is_literal element_name then elements_of_matches ms'
      else
        let is_token := first_isupper element_name in
        mkRuleElement element_name is_token cardinality (negb is_token)
        :: elements_of_matches ms'
  end.

Definition _parse_alternative (alt_text : string) : list RuleElement :=
  elements_of_matches (Re.finditer Re.element_pattern alt_text).

Definition parse_alt_text (alt_text : string) : Alternative :=
  match Re.search Re.label_pattern alt_text with
  | Some label =>
      let alt_text := Re.sub_empty Re.label_pattern alt_text in
      mkAlternative (Some label) (_parse_alternative alt_text)
  | None => mkAlternative None (_parse_alternative alt_text)
  end.

Definition _parse_rule (rule_name rule_body : string) : GrammarRule :=
  mkGrammarRule rule_name (map parse_alt_text (_split_alternatives rule_body)).

Definition parse_step (rules : dict GrammarRule) (m : string * string)
  : dict GrammarRule :=
  let (rule_name, rule_body) := m in
  if _should_skip_rule rule_name then rules
  else dict_set rules rule_name (_parse_rule rule_name rule_body).

Definition parse (content : string) : dict GrammarRule :=
  fold_left parse_step (Re.finditer_rules content) [].

(** ** Code generators *)

(** Exceptions the generators can end in, and the outcome of a call. *)
Inductive exn : Set := RecursionError | IndexError | FileNotFoundError.

Inductive result (A : Type) : Type :=
| Return (a : A)
| Raise (e : exn).
Arguments Return {A} a.
Arguments Raise {A} e.

#[global] Instance result_bind : MBind result := fun A B k r =>
  match r with
  | Return a => k a
  | Raise e => Raise e
  end.

Definition LF : string := String Re.newline EmptyString.
Definition DQ : string := String Re.dquote EmptyString.

(** [_rule_to_class_name]: snake_case to PascalCase. *)
Definition _rule_to_class_name (rule_name : string) : string :=
  Py.join EmptyString (map Py.capitalize (Py.split "_" rule_name)).

(** [_to_camel_case]: snake_case to camelCase. *)
Definition _to_camel_case (snake_str : string) : string :=
  match Py.split "_" snake_str with
  | [] => EmptyString
  | c0 :: components => c0 +:+ Py.join EmptyString (map Py.capitalize components)
  end.

(** Truth value of [alt.label]: [None] and the empty string are false. *)
Definition label_truthy (l : option string) : bool :=
  match l with
  | Some (String _ _) => true
  | _ => false
  end.

(** [rule.alternatives[0] if rule.alternatives else Alternative(None, [])];
    [nth_error] is the list index, [None] standing for its IndexError. *)
Definition first_alternative (rule : GrammarRule) : option Alternative :=
  match alternatives rule with
  | _ :: _ => nth_error (alternatives rule) 0
  | [] => Some (mkAlternative None [])
  end.

Section SemanticNodeGenerator.

Variable base_package : string.

Definition _determine_subdir (rule_name : string) : string :=
  if Py.contains "statement" rule_name then "statement"
  else if Py.contains "expression" rule_name
          || Py.endswith rule_name "_expression" then "expression"
  else if Py.contains "clause" rule_name then "clause"
  else if existsb (fun keyword => Py.contains keyword rule_name)
            ["query"; "subquery"; "select"; "selected"] then "query"
  else if existsb (fun keyword => Py.contains keyword rule_name)
            ["table"; "column"; "index"] then "element"
  else "misc".

Definition _get_field_type (elem : RuleElement) : string :=
  let base_type := _rule_to_class_name (name elem) in
  if is_list elem then "List<" +:+ base_type +:+ ">"
  else if is_optional elem then base_type
  else base_type.

(** One iteration of the loop of [_generate_fields]; the state is
    [(fields, seen_names)]. *)
Definition fields_step (st : list string * gset string) (elem : RuleElement)
  : list string * gset string :=
  let (fields, seen_names) := st in
  if negb (is_rule_ref elem) then st
  else
    let field_name := _to_camel_case (name elem) in
    if bool_decide (field_name ∈ seen_names) then st
    else
      let seen_names := seen_names ∪ {[ field_name ]} in
      let field_type := _get_field_type elem in
      (fields ++ ["    private final " +:+ field_type +:+ " "
                    +:+ field_name +:+ ";"],
       seen_names).

Definition fields_of (alt : Alternative) : list string :=
  fst (fold_left fields_step (elements alt) ([], ∅)).

Definition _generate_fields (alt : Alternative) : string :=
  match fields_of alt with
  | [] => "    // No child nodes"
  | fields => Py.join LF fields
  end.

(** The loop of [_generate_constructor]; the state is
    [(params, assignments, seen_names)]. *)
Definition constructor_step
    (st : list string * list string * gset string) (elem : RuleElement)
  : list string * list string * gset string :=
  let '(params, assignments, seen_names) := st in
  if negb (is_rule_ref elem) then st
  else
    let field_name := _to_camel_case (name elem) in
    if bool_decide (field_name ∈ seen_names) then st
    else
      let seen_names := seen_names ∪ {[ field_name ]} in
      let field_type := _get_field_type elem in
      (params ++ [field_type +:+ " " +:+ field_name],
       assignments ++ ["        this." +:+ field_name +:+ " = "
                         +:+ field_name +:+ ";"],
       seen_names).

Definition _generate_constructor (class_name : string) (alt : Alternative)
  : string :=
  let '(params, assignments, _) :=
    fold_left constructor_step (elements alt) ([], [], ∅) in
  match params with
  | [] =>
      "    public " +:+ class_name +:+ "() {" +:+ LF
      +:+ "        // No child nodes" +:+ LF
      +:+ "    }"
  | _ :: _ =>
      "    public " +:+ class_name +:+ "(" +:+ Py.join ", " params
      +:+ ") {" +:+ LF
      +:+ Py.join LF assignments +:+ LF
      +:+ "    }"
  end.

(** The loop of [_generate_getters]; [field_name[0]] raises IndexError on
    an empty field name. *)
Definition getters_step
    (st : result (list string * gset string)) (elem : RuleElement)
  : result (list string * gset string) :=
  s ← st;
  let (getters, seen_names) := s : list string * gset string in
  if negb (is_rule_ref elem) then Return s
  else
    let field_name := _to_camel_case (name elem) in
    if bool_decide (field_name ∈ seen_names) then Return s
    else
      let seen_names := seen_names ∪ {[ field_name ]} in
      let field_type := _get_field_type elem in
      match field_name with
      | EmptyString => Raise IndexError
      | String c0 rest =>
          let getter_name := "get" +:+ String (Py.upper c0) rest in
          Return
            (getters ++ ["    public " +:+ field_type +:+ " " +:+ getter_name
                           +:+ "() {" +:+ LF
                           +:+ "        return " +:+ field_name +:+ ";" +:+ LF
                           +:+ "    }"],
             seen_names)
      end.

Definition _generate_getters (alt : Alternative) : result string :=
  s ← fold_left getters_step (elements alt) (Return ([], ∅));
  Return (Py.join (LF +:+ LF) (fst s)).

(** The class text of [_generate_class] for the alternative [alt]. *)
Definition class_text (rule : GrammarRule) (package_name : string)
    (alt : Alternative) : result string :=
  let class_name := java_class_name rule in
  let parent := Py.rsplit1_head "." base_package in
  getters ← _generate_getters alt;
  Return (Py.join LF [
    "package " +:+ package_name +:+ ";";
    EmptyString;
    "import " +:+ base_package +:+ ".SemanticNode;";
    "import " +:+ parent +:+ ".context.TransformationContext;";
    "import " +:+ parent +:+ ".context.TransformationException;";
    EmptyString;
    "import java.util.List;";
    EmptyString;
    "/**";
    " * Semantic node for grammar rule: " +:+ rule_name rule;
    " *";
    " * Generated by codegen/generate.py - DO NOT EDIT MANUALLY";
    " * Delete this file and regenerate if grammar changes.";
    " */";
    "public class " +:+ class_name +:+ " implements SemanticNode {";
    EmptyString;
    _generate_fields alt;
    EmptyString;
    _generate_constructor class_name alt;
    EmptyString;
    getters;
    EmptyString;
    "    @Override";
    "    public String toPostgres(TransformationContext ctx) {";
    "        // TODO: Implement transformation logic for " +:+ rule_name rule;
    "        throw new TransformationException(" +:+ DQ +:+ rule_name rule
      +:+ " transformation not yet implemented" +:+ DQ +:+ ");";
    "    }";
    "}";
    EmptyString ]).

(** [_generate_class] and [_generate_interface_with_implementations] call
    each other; [frames] is the number of stack frames the interpreter
    still grants to these calls, and the call that finds none left ends
    in RecursionError. *)
Fixpoint _generate_class (frames : nat) (rule : GrammarRule)
    (subdir : string) : result string :=
  match frames with
  | O => Raise RecursionError
  | S frames' =>
      let package_name := base_package +:+ "." +:+ subdir in
      if existsb (fun alt => label_truthy (label alt)) (alternatives rule)
      then _generate_interface_with_implementations frames' rule package_name
      else
        match first_alternative rule with
        | Some alt => class_text rule package_name alt
        | None => Raise IndexError
        end
  end
with _generate_interface_with_implementations (frames : nat)
    (rule : GrammarRule) (package_name : string) : result string :=
  match frames with
  | O => Raise RecursionError
  | S frames' =>
      _generate_class frames' rule (Py.last_part (Py.split "." package_name))
  end.

End SemanticNodeGenerator.

Section TreeBuilderGenerator.

Variable base_package : string.

(** The lines one element adds in [_generate_visit_body], chosen by
    [if elem.is_list() / elif elem.is_optional() / else], and its
    constructor argument. *)
Definition visit_lines (rule : GrammarRule) (elem : RuleElement)
  : list string * string :=
  let field_name := _to_camel_case (name elem) in
  let class_name := _rule_to_class_name (name elem) in
  let ctx_method := "ctx." +:+ name elem +:+ "()" in
  if is_list elem then
    (["        List<" +:+ class_name +:+ "> " +:+ field_name
        +:+ "List = new ArrayList<>();";
      "        if (" +:+ ctx_method +:+ " != null) {";
      "            for (PlSqlParser." +:+ class_name +:+ "Context item : "
        +:+ ctx_method +:+ ") {";
      "                " +:+ field_name +:+ "List.add((" +:+ class_name
        +:+ ") visit(item));";
      "            }";
      "        }"],
     field_name +:+ "List")
  else if is_optional elem then
    (["        " +:+ class_name +:+ " " +:+ field_name +:+ " = null;";
      "        if (" +:+ ctx_method +:+ " != null) {";
      "            " +:+ field_name +:+ " = (" +:+ class_name +:+ ") visit("
        +:+ ctx_method +:+ ");";
      "        }"],
     field_name)
  else
    (["        " +:+ class_name +:+ " " +:+ field_name +:+ ";";
      "        if (" +:+ ctx_method +:+ " == null) {";
      "            throw new TransformationException(" +:+ DQ
        +:+ rule_name rule +:+ " missing " +:+ name elem +:+ DQ +:+ ");";
      "        }";
      "        " +:+ field_name +:+ " = (" +:+ class_name +:+ ") visit("
        +:+ ctx_method +:+ ");"],
     field_name).

(** One iteration of the loop of [_generate_visit_body]; the state is
    [(lines, constructor_args, seen_names)]. *)
Definition visit_step (rule : GrammarRule)
    (st : list string * list string * gset string) (elem : RuleElement)
  : list string * list string * gset string :=
  let '(lines, constructor_args, seen_names) := st in
  if negb (is_rule_ref elem) then st
  else
    let field_name := _to_camel_case (name elem) in
    if bool_decide (field_name ∈ seen_names) then st
    else
      let seen_names := seen_names ∪ {[ field_name ]} in
      let (new_lines, arg) := visit_lines rule elem in
      (lines ++ new_lines, constructor_args ++ [arg], seen_names).

Definition visit_loop (rule : GrammarRule) (alt : Alternative)
  : list string * list string * gset string :=
  fold_left (visit_step rule) (elements alt) ([], [], ∅).

Definition return_line (rule : GrammarRule) (constructor_args : list string)
  : string :=
  match constructor_args with
  | _ :: _ =>
      "        return new " +:+ java_class_name rule +:+ "("
      +:+ Py.join ", " constructor_args +:+ ");"
  | [] => "        return new " +:+ java_class_name rule +:+ "();"
  end.

Definition visit_body_lines (rule : GrammarRule) (alt : Alternative)
  : list string :=
  let '(lines, constructor_args, _) := visit_loop rule alt in
  lines ++ [return_line rule constructor_args].

Definition _generate_visit_body (rule : GrammarRule) (alt : Alternative)
  : string :=
  Py.join LF (visit_body_lines rule alt).

Definition _generate_visit_method (rule : GrammarRule) : result string :=
  let method_name := "visit" +:+ java_class_name rule in
  let ctx_type := "PlSqlParser." +:+ java_class_name rule +:+ "Context" in
  match first_alternative rule with
  | None => Raise IndexError
  | Some alt =>
      let body := _generate_visit_body rule alt in
      Return (Py.join LF [
        "    @Override";
        "    public SemanticNode " +:+ method_name +:+ "(" +:+ ctx_type
          +:+ " ctx) {";
        body;
        "    }";
        EmptyString ])
  end.

(** [sorted(rules.items())]: the items in ascending order of their keys
    (code point order of [str]).  The keys of a dict are distinct, so the
    comparison of two items is decided by their keys. *)
Fixpoint insert_item {V : Type} (x : string * V) (l : list (string * V))
  : list (string * V) :=
  match l with
  | [] => [x]
  | y :: l' =>
      if String.leb (fst x) (fst y) then x :: l else y :: insert_item x l'
  end.

Definition sorted_items {V : Type} (d : dict V) : list (string * V) :=
  fold_right insert_item [] d.

Fixpoint visit_methods (items : list (string * GrammarRule))
  : result (list string) :=
  match items with
  | [] => Return []
  | (_, rule) :: items' =>
      method ← _generate_visit_method rule;
      rest ← visit_methods items';
      Return (method :: rest)
  end.

Definition _generate_builder_class (rules : dict GrammarRule)
  : result string :=
  let parent := Py.rsplit1_head "." base_package in
  methods ← visit_methods (sorted_items rules);
  Return (Py.join LF [
    "package " +:+ base_package +:+ ".builder;";
    EmptyString;
    "import " +:+ parent +:+ ".antlr.PlSqlParser;";
    "import " +:+ parent +:+ ".antlr.PlSqlParserBaseVisitor;";
    "import " +:+ base_package +:+ ".context.TransformationException;";
    "import " +:+ base_package +:+ ".semantic.SemanticNode;";
    "import " +:+ base_package +:+ ".semantic.statement.*;";
    "import " +:+ base_package +:+ ".semantic.expression.*;";
    "import " +:+ base_package +:+ ".semantic.clause.*;";
    "import " +:+ base_package +:+ ".semantic.query.*;";
    "import " +:+ base_package +:+ ".semantic.element.*;";
    "import " +:+ base_package +:+ ".semantic.misc.*;";
    EmptyString;
    "import java.util.ArrayList;";
    "import java.util.List;";
    EmptyString;
    "/**";
    " * Visitor that converts ANTLR parse tree to semantic syntax tree.";
    " *";
    " * Generated by codegen/generate.py - DO NOT EDIT MANUALLY";
    " * Delete this file and regenerate if grammar changes.";
    " *";
    " * Architecture: Uses visitor pattern to delegate to child nodes.";
    " * Each visit method creates a semantic node and calls visit() on children.";
    " */";
    "public class SemanticTreeBuilder extends PlSqlParserBaseVisitor<SemanticNode> {";
    EmptyString;
    Py.join LF methods;
    EmptyString;
    "}";
    EmptyString ]).

End TreeBuilderGenerator.

Definition BASE_PACKAGE : string :=
  "me.christianrobert.orapgsync.transformation".
Definition SEMANTIC_PACKAGE : string := BASE_PACKAGE +:+ ".semantic".

(** ** The runs of the generators

    [generate] of the two generator classes and [main] work on files.  The
    file system is the state they pass on: a finite map from the path of a
    file, taken relative to the project root, to its text.
    [path.exists()] is the presence of the path in the map,
    [path.write_text(content)] stores the content under the path and
    [path.read_text()] looks it up, FileNotFoundError when the path is
    absent.  A path is the string of its parts joined by a slash (the class
    names and groups made from parsed rule names hold no slash); creating
    the parent directories leaves every file as it is, and the lines that
    are printed are no part of this state. *)
Abbreviation file_system := (gmap string string).

Definition GRAMMAR_FILE : string :=
  "src/main/antlr4/me/christianrobert/orapgsync/antlr/PlSqlParser.g4".
Definition SEMANTIC_PACKAGE_DIR : string :=
  "src/main/java/me/christianrobert/orapgsync/transformation/semantic".
Definition BUILDER_PACKAGE_DIR : string :=
  "src/main/java/me/christianrobert/orapgsync/transformation/builder".

(** [SemanticNodeGenerator.generate]; [frames] is the number of stack
    frames left for the call of [_generate_class]. *)
Definition SemanticNodeGenerator_generate (output_dir base_package : string)
    (frames : nat) (rule : GrammarRule) (skip_existing : bool)
    (fs : file_system) : file_system * result unit :=
  let class_name := java_class_name rule in
  let subdir := _determine_subdir (rule_name rule) in
  let output_path :=
    output_dir +:+ "/" +:+ subdir +:+ "/" +:+ class_name +:+ ".java" in
  if skip_existing && bool_decide (is_Some (fs !! output_path))
  then (fs, Return tt)
  else
    match _generate_class base_package frames rule subdir with
    | Raise e => (fs, Raise e)
    | Return content => (<[output_path := content]> fs, Return tt)
    end.

(** [TreeBuilderGenerator.generate] *)
Definition TreeBuilderGenerator_generate (output_dir base_package : string)
    (rules : dict GrammarRule) (skip_existing : bool) (fs : file_system)
  : file_system * result unit :=
  let output_path := output_dir +:+ "/" +:+ "SemanticTreeBuilder.java" in
  if skip_existing && bool_decide (is_Some (fs !! output_path))
  then (fs, Return tt)
  else
    match _generate_builder_class base_package rules with
    | Raise e => (fs, Raise e)
    | Return content => (<[output_path := content]> fs, Return tt)
    end.

(** The loop of [main] over the sorted items of the model: an exception
    ends the run with the files written so far. *)
Fixpoint generate_nodes (frames : nat) (items : list (string * GrammarRule))
    (fs : file_system) : file_system * result unit :=
  match items with
  | [] => (fs, Return tt)
  | (_, rule) :: items' =>
      match SemanticNodeGenerator_generate SEMANTIC_PACKAGE_DIR
              SEMANTIC_PACKAGE frames rule true fs with
      | (fs', Raise e) => (fs', Raise e)
      | (fs', Return _) => generate_nodes frames items' fs'
      end
  end.

(** [main]: parse the grammar file, generate the class of every rule in
    ascending order of the rule names, then the builder. *)
Definition main (frames : nat) (fs : file_system)
  : file_system * result unit :=
  match fs !! GRAMMAR_FILE with
  | None => (fs, Raise FileNotFoundError)
  | Some content =>
      let rules := parse content in
      match generate_nodes frames (sorted_items rules) fs with
      | (fs', Raise e) => (fs', Raise e)
      | (fs', Return _) =>
          TreeBuilderGenerator_generate BUILDER_PACKAGE_DIR BASE_PACKAGE
            rules true fs'
      end
  end.

(** * Specification-level notions

    The notions the statements below are written with: the nesting depth
    of a text, label markers, the distinct rule references of an
    alternative, the order of the items of a dict. *)

(** The nesting depth the spec describes: one up on an opening bracket, one
    down on a closing one, over the characters read so far. *)
Fixpoint net_depth (l : list ascii) : Z :=
  match l with
  | [] => 0
  | c :: l' =>
      (if is_open c then 1 else if is_close c then -1 else 0) + net_depth l'
  end.

Definition nesting_depth (text : string) : Z :=
  net_depth (list_ascii_of_string text).


Definition plain (text : string) : bool :=
  forallb (fun c => negb (is_open c || is_close c || is_bar c))
          (list_ascii_of_string text).

(** Every value of the model comes from [_parse_rule]. *)
Definition extracted (rule : GrammarRule) : Prop :=
  exists rule_name rule_body, rule = _parse_rule rule_name rule_body.

Definition all_chars (p : ascii -> bool) (s : string) : bool :=
  forallb p (list_ascii_of_string s).

Definition starts_with (p : ascii -> bool) (s : string) : bool :=
  match s with
  | String c _ => p c
  | EmptyString => false
  end.

(** No label marker starts in [s], whatever follows [s], provided what
    follows does not continue a marker begun in [s]: every hash sign of [s]
    is followed, after white space, by a character of [s] that cannot start
    a lower-case identifier, or by the end of [s]. *)
Fixpoint marker_free (s : string) : bool :=
  match s with
  | EmptyString => true
  | String c s' =>
      (if Ascii.eqb c "#" then
         match Re.skip_spaces s' with
         | EmptyString => true
         | String d _ => negb (Re.lower_start d)
         end
       else true) && marker_free s'
  end.

Definition field_name_of (elem : RuleElement) : string :=
  _to_camel_case (name elem).

Definition same_field (e e' : RuleElement) : bool :=
  String.eqb (field_name_of e') (field_name_of e).

(** The distinct rule references of an element list, as the spec words it:
    the elements that are rule references, each kept only where its
    normalized field name occurs for the first time. *)
Fixpoint distinct_refs (l : list RuleElement) : list RuleElement :=
  match l with
  | [] => []
  | e :: l' =>
      if is_rule_ref e
      then e :: List.filter (fun e' => negb (same_field e e')) (distinct_refs l')
      else distinct_refs l'
  end.

(** What the loops of the generators keep, with the set [seen_names]. *)
Fixpoint kept_from (seen_names : gset string) (l : list RuleElement)
  : list RuleElement :=
  match l with
  | [] => []
  | e :: l' =>
      if negb (is_rule_ref e) then kept_from seen_names l'
      else if bool_decide (field_name_of e ∈ seen_names)
           then kept_from seen_names l'
           else e :: kept_from (seen_names ∪ {[ field_name_of e ]}) l'
  end.

Definition unseen (seen_names : gset string) (e : RuleElement) : bool :=
  negb (bool_decide (field_name_of e ∈ seen_names)).

(** The shape shared by the loops of [_generate_fields],
    [_generate_constructor] and [_generate_visit_body]: [emit] is what a
    kept element adds. *)
Definition dedup_step {S : Type} (emit : S -> RuleElement -> S)
    (st : S * gset string) (elem : RuleElement)
  : S * gset string :=
  let (acc, seen_names) := st in
  if negb (is_rule_ref elem) then st
  else if bool_decide (field_name_of elem ∈ seen_names) then st
       else (emit acc elem, seen_names ∪ {[ field_name_of elem ]}).

(** The declaration [_generate_fields] emits for one kept element. *)
Definition field_decl (elem : RuleElement) : string :=
  "    private final " +:+ _get_field_type elem +:+ " "
  +:+ field_name_of elem +:+ ";".

Definition visit_emit (rule : GrammarRule)
    (acc : list string * list string) (elem : RuleElement)
  : list string * list string :=
  (fst acc ++ fst (visit_lines rule elem),
   snd acc ++ [snd (visit_lines rule elem)]).

(** The order of [sorted] on the items of a dict: by key. *)
Definition key_le {V : Type} (x y : string * V) : Prop :=
  String.leb (fst x) (fst y) = true.

(** ** Sample grammars and rules *)

Definition sample_elements : list RuleElement :=
  [mkRuleElement "BAR" true EmptyString false;
   mkRuleElement "baz" false EmptyString true;
   mkRuleElement "item" false "*" true;
   mkRuleElement "baz" false "?" true].

Definition two_refs : Alternative :=
  mkAlternative None
    [mkRuleElement "item" false EmptyString true;
     mkRuleElement "SEP" true EmptyString false;
     mkRuleElement "item" false "*" true].

Definition one_ref : Alternative :=
  mkAlternative None
    [mkRuleElement "item" false EmptyString true;
     mkRuleElement "SEP" true EmptyString false].

Definition foo_rule : GrammarRule :=
  mkGrammarRule "foo"
    [mkAlternative None
       [mkRuleElement "BAR" true EmptyString false;
        mkRuleElement "baz" false EmptyString true;
        mkRuleElement "qux" false "?" true;
        mkRuleElement "item" false "+" true]].

Definition list_alt : Alternative :=
  mkAlternative None [mkRuleElement "item" false "+" true].

Definition list_rule : GrammarRule := mkGrammarRule "list_rule" [list_alt].

Definition alt_a : Alternative :=
  mkAlternative (Some "alt_a") [mkRuleElement "a" false EmptyString true].

Definition alt_b : Alternative :=
  mkAlternative (Some "alt_b") [mkRuleElement "b" false EmptyString true].

Definition choice_rule : GrammarRule := mkGrammarRule "choice" [alt_a; alt_b].

Definition sample_grammar : string :=
  "stmt : expr ;" +:+ LF +:+ "expr : term+ ;" +:+ LF +:+ "atom : ID ;".

(** ** Notions for the parser's output *)

Definition has_char (c : ascii) (s : string) : bool :=
  existsb (Ascii.eqb c) (list_ascii_of_string s).

(** A lower-case identifier of the grammar: a lower-case letter or an
    underscore, then lower-case letters, digits and underscores. *)
Definition lower_identifier (s : string) : bool :=
  starts_with Re.lower_start s && all_chars Re.lower_cont s.

(** An upper-case identifier as the element pattern yields it: an
    upper-case letter, then upper-case letters, digits and underscores. *)
Definition upper_identifier (s : string) : bool :=
  starts_with Py.isupper_AZ s && all_chars Re.upper_cont s.

(** The four suffixes an element can carry. *)
Definition is_cardinality (s : string) : bool :=
  String.eqb s EmptyString || String.eqb s "?" || String.eqb s "*"
  || String.eqb s "+".

(** ** Notions for the generators' output *)

(** The getter [_generate_getters] emits for one kept element; it has none
    for an empty field name, where [field_name[0]] fails. *)
Definition getter_text (elem : RuleElement) : result string :=
  match field_name_of elem with
  | EmptyString => Raise IndexError
  | String c0 rest =>
      Return ("    public " +:+ _get_field_type elem +:+ " "
              +:+ ("get" +:+ String (Py.upper c0) rest) +:+ "() {" +:+ LF
              +:+ "        return " +:+ field_name_of elem +:+ ";" +:+ LF
              +:+ "    }")
  end.

(** The results of [f] on a list, up to the first failure. *)
Fixpoint collect {A B : Type} (f : A -> result B) (l : list A)
  : result (list B) :=
  match l with
  | [] => Return []
  | x :: l' => y ← f x; ys ← collect f l'; Return (y :: ys)
  end.

(** The parameter and the assignment [_generate_constructor] emits for one
    kept element. *)
Definition param_decl (elem : RuleElement) : string :=
  _get_field_type elem +:+ " " +:+ field_name_of elem.

Definition assignment_line (elem : RuleElement) : string :=
  "        this." +:+ field_name_of elem +:+ " = " +:+ field_name_of elem
  +:+ ";".

(** The grouping of [_determine_subdir] without the tests that can never
    decide: the suffix test and the keywords that contain another one. *)
Definition subdir_by_keyword (rule_name : string) : string :=
  if Py.contains "statement" rule_name then "statement"
  else if Py.contains "expression" rule_name then "expression"
  else if Py.contains "clause" rule_name then "clause"
  else if Py.contains "query" rule_name || Py.contains "select" rule_name
       then "query"
  else if Py.contains "table" rule_name || Py.contains "column" rule_name
          || Py.contains "index" rule_name then "element"
  else "misc".

(** ** Notions for the round trips *)

(** The text of an element in a grammar: its name and its suffix. *)
Definition render_element (e : RuleElement) : string :=
  name e +:+ cardinality e.

(** The elements the tokenizer can make:
    one of the four cardinalities, and a lower-case identifier as a rule
    reference or an upper-case one as a token. *)
Definition well_formed_element (e : RuleElement) : bool :=
  is_cardinality (cardinality e)
  && ((lower_identifier (name e) && negb (is_token e) && is_rule_ref e)
      || (upper_identifier (name e) && is_token e && negb (is_rule_ref e))).

(** What may follow an element in a text of elements: nothing, or a
    blank. *)
Definition at_gap (rest : string) : Prop :=
  rest = EmptyString \/ exists t, rest = String " " t.

(** ** Notions for the runs *)

(** The path of the class file of a rule under [SEMANTIC_PACKAGE_DIR]. *)
Definition node_path (rule : GrammarRule) : string :=
  SEMANTIC_PACKAGE_DIR +:+ "/" +:+ _determine_subdir (rule_name rule)
  +:+ "/" +:+ java_class_name rule +:+ ".java".

Definition builder_path : string :=
  BUILDER_PACKAGE_DIR +:+ "/" +:+ "SemanticTreeBuilder.java".

(** The first rule of a list of items whose class file is at [path]. *)
Fixpoint first_with_path (path : string) (items : list (string * GrammarRule))
  : option GrammarRule :=
  match items with
  | [] => None
  | (_, rule) :: items' =>
      if String.eqb (node_path rule) path then Some rule
      else first_with_path path items'
  end.

(** The text a run stores under a path that it writes, for the model
    [rules]: the class of the first rule, in processing order, with that
    path, else the builder. *)
Definition written_text (frames : nat) (rules : dict GrammarRule)
    (path : string) : option (result string) :=
  match first_with_path path (sorted_items rules) with
  | Some rule =>
      Some (_generate_class SEMANTIC_PACKAGE frames rule
              (_determine_subdir (rule_name rule)))
  | None =>
      if String.eqb builder_path path
      then Some (_generate_builder_class BASE_PACKAGE rules)
      else None
  end.

(** A file system that holds the sample grammar and nothing else, and one
    whose grammar has a rule with a label between two rules without. *)
Definition sample_files : file_system := {[ GRAMMAR_FILE := sample_grammar ]}.

Definition labeled_files : file_system :=
  {[ GRAMMAR_FILE := "a : x ;" +:+ LF +:+ "choice : a #l | b ;" +:+ LF
                     +:+ "z : y ;" ]}.

(** * Properties *)

(** ** Examples of alternative splitting *)

Example split_grouped :
  _split_alternatives "a (x|y) b" = ["a (x|y) b"].
Proof. reflexivity. Qed.

Example split_plain :
  _split_alternatives "a #alt_a | b #alt_b" = ["a #alt_a"; "b #alt_b"].
Proof. reflexivity. Qed.

Example split_negative_depth :
  _split_alternatives "a ) | b" = ["a ) | b"].
Proof. reflexivity. Qed.

(** ** Strings as character lists *)

Lemma string_app_cons (c : ascii) (a b : string) :
  String c a +:+ b = String c (a +:+ b).
Proof. reflexivity. Qed.

Lemma string_app_nil_l (b : string) : EmptyString +:+ b = b.
Proof. reflexivity. Qed.

Ltac string_app_step := rewrite ?string_app_cons, ?string_app_nil_l.

Lemma list_ascii_of_string_app (a b : string) :
  list_ascii_of_string (a +:+ b)
  = list_ascii_of_string a ++ list_ascii_of_string b.
Proof.
  induction a as [|c a IH]; string_app_step; simpl;
    [reflexivity | now rewrite IH].
Qed.

Lemma string_app_nil_r (a : string) : a +:+ EmptyString = a.
Proof.
  induction a as [|x a IH]; string_app_step;
    [reflexivity | now rewrite IH].
Qed.

Lemma string_app_length (a b : string) :
  String.length (a +:+ b) = String.length a + String.length b.
Proof.
  induction a as [|x a IH]; string_app_step; simpl;
    [reflexivity | now rewrite IH].
Qed.

(** ** Alternative splitting (C1, C10) *)

Lemma split_step_depth (st : split_state) (c : ascii) :
  depth (split_step st c) = (depth st + net_depth [c])%Z.
Proof.
  unfold split_step; simpl.
  destruct (is_open c); simpl; [lia|].
  destruct (is_close c); simpl; [lia|].
  destruct (is_bar c && (depth st =? 0)%Z); simpl; lia.
Qed.

Lemma fold_split_depth (l : list ascii) (st : split_state) :
  depth (fold_left split_step l st) = (depth st + net_depth l)%Z.
Proof.
  revert st; induction l as [|c l IH]; intro st; simpl fold_left.
  - simpl; lia.
  - rewrite IH, split_step_depth. simpl. lia.
Qed.

(** A stretch of text without brackets, read where no bar separates (no bar
    in it, or a depth other than zero), only grows [current]. *)
Lemma fold_split_inert (l : list ascii) (st : split_state) :
  forallb (fun c => negb (is_open c || is_close c)) l = true ->
  (forallb (fun c => negb (is_bar c)) l = true \/ depth st <> 0%Z) ->
  fold_left split_step l st = mkSplit (parts st) (current st ++ l) (depth st).
Proof.
  revert st; induction l as [|c l IH]; intros st Hb Hs; simpl.
  - rewrite app_nil_r. now destruct st.
  - simpl in Hb. apply andb_prop in Hb as [Hc Hb].
    apply negb_true_iff, orb_false_elim in Hc as [Ho Hcl].
    assert (Hstep : split_step st c
                    = mkSplit (parts st) (current st ++ [c]) (depth st)).
    { unfold split_step. rewrite Ho, Hcl.
      destruct Hs as [Hs | Hs].
      - simpl in Hs. apply andb_prop in Hs as [Hs _].
        apply negb_true_iff in Hs. now rewrite Hs.
      - apply Z.eqb_neq in Hs. rewrite Hs, andb_false_r. reflexivity. }
    rewrite Hstep, IH; simpl.
    + now rewrite <- app_assoc.
    + exact Hb.
    + destruct Hs as [Hs | Hs]; [left | now right].
      simpl in Hs. now apply andb_prop in Hs as [_ Hs].
Qed.

Lemma plain_bracket_free (l : list ascii) :
  forallb (fun c => negb (is_open c || is_close c || is_bar c)) l = true ->
  forallb (fun c => negb (is_open c || is_close c)) l = true
  /\ forallb (fun c => negb (is_bar c)) l = true.
Proof.
  induction l as [|c l IH]; simpl; [now split|].
  intro H. apply andb_prop in H as [Hc Hl]. destruct (IH Hl) as [H1 H2].
  rewrite H1, H2.
  destruct (is_open c), (is_close c), (is_bar c); simpl in *;
    try discriminate; now split.
Qed.

Lemma split_step_bar (st : split_state) :
  split_step st "|"
  = if (depth st =? 0)%Z
    then mkSplit (parts st ++ [Py.strip (Py.join_chars (current st))]) []
                 (depth st)
    else mkSplit (parts st) (current st ++ ["|"%char]) (depth st).
Proof. reflexivity. Qed.

Lemma split_step_other (st : split_state) (c : ascii) :
  is_bar c && (depth st =? 0)%Z = false ->
  parts (split_step st c) = parts st
  /\ current (split_step st c) = current st ++ [c].
Proof.
  intro H. unfold split_step.
  destruct (is_open c); [now split|].
  destruct (is_close c); [now split|].
  rewrite H. now split.
Qed.



Lemma split_loop_depth (pre : string) :
  depth (split_loop split_init pre) = nesting_depth pre.
Proof. unfold split_loop, nesting_depth. now rewrite fold_split_depth. Qed.


Lemma split_step_kept (st : split_state) (c : ascii) :
  ~ (c = "|"%char /\ depth st = 0%Z) ->
  parts (split_step st c) = parts st
  /\ current (split_step st c) = current st ++ [c].
Proof.
  intro H. apply split_step_other.
  destruct (is_bar c) eqn:Hb; [|reflexivity].
  destruct (depth st =? 0)%Z eqn:Hd; [|reflexivity].
  exfalso. apply H. split.
  - unfold is_bar in Hb. now apply Ascii.eqb_eq in Hb.
  - now apply Z.eqb_eq.
Qed.



(** *** Non-empty result and the first alternative *)

Lemma split_alternatives_not_nil (rule_body : string) :
  _split_alternatives rule_body <> [].
Proof.
  unfold _split_alternatives.
  destruct (current (split_loop split_init rule_body)) as [|c l].
  - destruct (parts (split_loop split_init rule_body)); discriminate.
  - destruct (parts (split_loop split_init rule_body)); discriminate.
Qed.

Lemma parse_rule_alternatives (rule_name rule_body : string) :
  alternatives (_parse_rule rule_name rule_body) <> [].
Proof.
  unfold _parse_rule; simpl.
  pose proof (split_alternatives_not_nil rule_body) as H.
  destruct (_split_alternatives rule_body); [congruence | discriminate].
Qed.

Lemma dict_set_values {V : Type} (P : V -> Prop) (d : dict V) (k : string)
    (v : V) :
  Forall P (map snd d) -> P v -> Forall P (map snd (dict_set d k v)).
Proof.
  induction d as [|[k' v'] d IH]; simpl; intros Hd Hv.
  - now constructor.
  - inversion Hd; subst. destruct (String.eqb k' k); simpl.
    + now constructor.
    + constructor; [assumption | now apply IH].
Qed.

Lemma parse_fold_values (ms : list (string * string)) (d : dict GrammarRule) :
  Forall extracted (map snd d) ->
  Forall extracted (map snd (fold_left parse_step ms d)).
Proof.
  revert d; induction ms as [|[n b] ms IH]; intros d Hd; simpl; [exact Hd|].
  apply IH. destruct (_should_skip_rule n); [exact Hd|].
  apply dict_set_values; [exact Hd | now exists n, b].
Qed.

Lemma parse_values (content : string) :
  Forall extracted (map snd (parse content)).
Proof. apply parse_fold_values. constructor. Qed.

Lemma space_is_inert (c : ascii) :
  Py.isspace c = true ->
  negb (is_open c || is_close c) = true /\ negb (is_bar c) = true.
Proof. destruct c as [[] [] [] [] [] [] [] []]; vm_compute; intuition. Qed.

Lemma rstrip_spaces (s : string) :
  forallb Py.isspace (list_ascii_of_string s) = true ->
  Py.rstrip s = EmptyString.
Proof.
  induction s as [|c s IH]; simpl; [reflexivity|].
  intro H. apply andb_prop in H as [Hc Hs]. now rewrite (IH Hs), Hc.
Qed.

(** A body of white space only is one empty alternative. *)
Lemma split_spaces (rule_body : string) :
  forallb Py.isspace (list_ascii_of_string rule_body) = true ->
  rule_body <> EmptyString ->
  _split_alternatives rule_body = [EmptyString].
Proof.
  intros Hsp Hne. unfold _split_alternatives, split_loop.
  rewrite fold_split_inert.
  - simpl. destruct rule_body as [|c s]; [congruence|].
    simpl list_ascii_of_string. cbv iota.
    change (c :: list_ascii_of_string s)
      with (list_ascii_of_string (String c s)).
    unfold Py.join_chars. rewrite string_of_list_ascii_of_string.
    unfold Py.strip. now rewrite rstrip_spaces.
  - apply List.forallb_forall. intros c Hc.
    rewrite List.forallb_forall in Hsp. now apply space_is_inert, Hsp.
  - left. apply List.forallb_forall. intros c Hc.
    rewrite List.forallb_forall in Hsp. now apply space_is_inert, Hsp.
Qed.

(** C10. Splitting returns a non-empty list for every body; when the loop
    produced no part and left nothing in [current] the result is the body
    itself, which is the case of the empty body, and a body of white space
    gives one empty alternative.  The projector's access to the first
    alternative succeeds for every rule, with the empty alternative for a
    rule without alternatives, so the visit method is generated for every
    rule; and for a rule of the model it is the head of a non-empty
    list. *)
Theorem first_alternative_never_fails :
  (forall rule_body : string, _split_alternatives rule_body <> [])
  /\ (forall rule_body : string,
        parts (split_loop split_init rule_body) = [] ->
        current (split_loop split_init rule_body) = [] ->
        _split_alternatives rule_body = [rule_body])
  /\ _split_alternatives EmptyString = [EmptyString]
  /\ (forall rule_body : string,
        all_chars Py.isspace rule_body = true ->
        rule_body <> EmptyString ->
        _split_alternatives rule_body = [EmptyString])
  /\ (forall rule : GrammarRule,
        exists alt, first_alternative rule = Some alt)
  /\ (forall rule_name : string,
        first_alternative (mkGrammarRule rule_name [])
        = Some (mkAlternative None []))
  /\ (forall rule : GrammarRule,
        exists text, _generate_visit_method rule = Return text)
  /\ (forall (content rule_name : string) (rule : GrammarRule),
        In (rule_name, rule) (parse content) ->
        exists alt rest,
          alternatives rule = alt :: rest
          /\ first_alternative rule = Some alt).
Proof.
  split; [exact split_alternatives_not_nil|].
  split.
  { intros rule_body Hp Hc. unfold _split_alternatives.
    now rewrite Hc, Hp. }
  split; [reflexivity|].
  split; [exact split_spaces|].
  split.
  { intros [n [|alt alts]]; unfold first_alternative; simpl; eauto. }
  split; [reflexivity|].
  split.
  { intros [n [|alt alts]]; unfold _generate_visit_method, first_alternative;
      simpl; eauto. }
  intros content n rule Hin.
  pose proof (parse_values content) as Hall.
  rewrite List.Forall_forall in Hall.
  destruct (Hall rule) as (n' & b' & ->).
  { apply in_map_iff. now exists (n, rule). }
  pose proof (parse_rule_alternatives n' b') as Hne.
  destruct (alternatives (_parse_rule n' b')) as [|alt rest] eqn:E;
    [congruence|].
  exists alt, rest. split; [reflexivity|].
  unfold first_alternative. now rewrite E.
Qed.

Lemma first_alternative_never_fails_witness :
  _split_alternatives EmptyString = [EmptyString]
  /\ (exists alt rest,
       alternatives (mkGrammarRule "r" [mkAlternative None []]) = alt :: rest
       /\ first_alternative (mkGrammarRule "r" [mkAlternative None []])
          = Some alt)
  /\ _split_alternatives "   " = [EmptyString].
Proof.
  split; [|split].
  - apply (proj1 (proj2 first_alternative_never_fails) EmptyString);
      reflexivity.
  - apply (proj2 (proj2 (proj2 (proj2 (proj2 (proj2
             (proj2 first_alternative_never_fails)))))) "r :    ;" "r").
    vm_compute. left. reflexivity.
  - apply (proj1 (proj2 (proj2 (proj2 first_alternative_never_fails))) "   ").
    + reflexivity.
    + discriminate.
Defined.

(** ** The rule model (C3) *)

Lemma dict_get_set_eq {V : Type} (d : dict V) (k : string) (v : V) :
  dict_get (dict_set d k v) k = Some v.
Proof.
  induction d as [|[k' v'] d IH]; simpl.
  - now rewrite String.eqb_refl.
  - destruct (String.eqb k' k) eqn:E; simpl; rewrite E; [reflexivity | exact IH].
Qed.

Lemma dict_get_set_ne {V : Type} (d : dict V) (k k' : string) (v : V) :
  k <> k' -> dict_get (dict_set d k v) k' = dict_get d k'.
Proof.
  intro Hne. induction d as [|[k0 v0] d IH]; simpl.
  - apply String.eqb_neq in Hne. now rewrite Hne.
  - destruct (String.eqb k0 k) eqn:E; simpl.
    + apply String.eqb_eq in E. subst k0.
      apply String.eqb_neq in Hne. now rewrite Hne.
    + now rewrite IH.
Qed.

Lemma parse_fold_get (ms : list (string * string)) (d : dict GrammarRule)
    (n : string) :
  _should_skip_rule n = false ->
  (exists b, In (n, b) ms
             /\ dict_get (fold_left parse_step ms d) n
                = Some (_parse_rule n b))
  \/ ((forall b, ~ In (n, b) ms)
      /\ dict_get (fold_left parse_step ms d) n = dict_get d n).
Proof.
  intro Hskip. revert d; induction ms as [|[n0 b0] ms IH]; intro d.
  - right. split; [intros b []|reflexivity].
  - cbn [fold_left].
    destruct (IH (parse_step d (n0, b0))) as [(b & Hin & Hget) | [Hno Hget]].
    + left. exists b. split; [now right | exact Hget].
    + destruct (String.eqb_spec n0 n) as [-> | Hne].
      * left. exists b0. split; [now left|].
        rewrite Hget. unfold parse_step. rewrite Hskip.
        apply dict_get_set_eq.
      * right. split.
        { intros b [H | H]; [congruence | now apply (Hno b)]. }
        rewrite Hget. unfold parse_step.
        destruct (_should_skip_rule n0); [reflexivity|].
        now apply dict_get_set_ne.
Qed.

(** ** Scanning with a pattern *)

Lemma span_app (p : ascii -> bool) (a r : string) :
  all_chars p a = true -> starts_with p r = false ->
  Re.span p (a +:+ r) = (a, r).
Proof.
  unfold all_chars. induction a as [|c a IH]; intros Ha Hr; string_app_step.
  - destruct r as [|d r]; [reflexivity|]. simpl in *. now rewrite Hr.
  - simpl in Ha. apply andb_prop in Ha as [Hc Ha].
    simpl. rewrite Hc, IH; auto.
Qed.

Lemma span_length (p : ascii -> bool) (s : string) :
  String.length (snd (Re.span p s)) <= String.length s.
Proof.
  induction s as [|c s IH]; simpl; [lia|].
  destruct (p c); [|simpl; lia].
  destruct (Re.span p s) as [a b]; simpl in *. lia.
Qed.

Lemma ident_shrinks (start cont : ascii -> bool) (s g r : string) :
  Re.ident start cont s = Some (g, r) -> String.length r < String.length s.
Proof.
  destruct s as [|c s]; simpl; [discriminate|].
  destruct (start c); [|discriminate].
  pose proof (span_length cont s) as H.
  destruct (Re.span cont s) as [a b]. simpl in H.
  intro E. injection E as <- <-. lia.
Qed.

Lemma label_pattern_shrinks (s g r : string) :
  Re.label_pattern s = Some (g, r) -> String.length r < String.length s.
Proof.
  destruct s as [|c s]; simpl; [discriminate|].
  destruct (Ascii.eqb_spec c "#") as [-> | Hne].
  - intro H. apply ident_shrinks in H.
    pose proof (span_length Py.isspace s). unfold Re.skip_spaces in H. lia.
  - destruct c as [[] [] [] [] [] [] [] []]; try discriminate.
    now contradiction Hne.
Qed.

Section ScanFacts.
Context {A : Type} (pattern : string -> option (A * string)).
Hypothesis shrinks : forall s a r,
    pattern s = Some (a, r) -> String.length r < String.length s.

(** Fuel beyond the length of the text changes nothing. *)
Lemma scan_fuel (n m : nat) (s : string) :
  String.length s < n -> String.length s < m ->
  Re.scan pattern n s = Re.scan pattern m s.
Proof.
  revert m s; induction n as [|n IH]; intros m s Hn Hm; [lia|].
  destruct m as [|m]; [lia|]. simpl.
  destruct (pattern s) as [[a r]|] eqn:E.
  - apply shrinks in E. f_equal. apply IH; lia.
  - destruct s as [|c s]; [reflexivity|]. simpl in *.
    f_equal. apply IH; lia.
Qed.

Lemma scan_S (n : nat) (s : string) :
  Re.scan pattern (S n) s
  = match pattern s with
    | Some (a, rest) => inr a :: Re.scan pattern n rest
    | None =>
        match s with
        | EmptyString => []
        | String c s' => inl c :: Re.scan pattern n s'
        end
    end.
Proof. reflexivity. Qed.

Lemma tokens_match (s : string) (a : A) (r : string) :
  pattern s = Some (a, r) ->
  Re.tokens pattern s = inr a :: Re.tokens pattern r.
Proof.
  intro E. unfold Re.tokens. rewrite scan_S, E. f_equal.
  apply shrinks in E. apply scan_fuel; lia.
Qed.

Lemma tokens_pass (c : ascii) (s : string) :
  pattern (String c s) = None ->
  Re.tokens pattern (String c s) = inl c :: Re.tokens pattern s.
Proof. intro E. unfold Re.tokens. now rewrite scan_S, E. Qed.

Lemma tokens_empty :
  pattern EmptyString = None -> Re.tokens pattern EmptyString = [].
Proof. intro E. unfold Re.tokens. simpl. now rewrite E. Qed.
End ScanFacts.

(** The other patterns consume text as well, so the fuel of [finditer] and
    of [finditer_rules] is never used up. *)
Lemma quoted_shrinks (q : ascii) (s g r : string) :
  Re.quoted q s = Some (g, r) -> String.length r < String.length s.
Proof.
  destruct s as [|c s]; simpl; [discriminate|].
  destruct (Ascii.eqb c q); [|discriminate].
  pose proof (span_length (fun x => negb (Ascii.eqb x q)) s) as H.
  destruct (Re.span (fun x => negb (Ascii.eqb x q)) s) as [[|i inner] [|d rest]];
    try discriminate.
  simpl in H. intro E. injection E as <- <-. lia.
Qed.

Lemma element_pattern_shrinks (s : string) (m : string * string) (r : string) :
  Re.element_pattern s = Some (m, r) -> String.length r < String.length s.
Proof.
  unfold Re.element_pattern.
  set (g1 := match Re.lower_ident s with
             | Some x => Some x
             | None => match Re.upper_ident s with
                       | Some x => Some x
                       | None => match Re.quoted Re.squote s with
                                 | Some x => Some x
                                 | None => Re.quoted Re.dquote s
                                 end
                       end
             end).
  assert (Hg : forall n rest, g1 = Some (n, rest) ->
                              String.length rest < String.length s).
  { unfold g1. intros n rest.
    destruct (Re.lower_ident s) as [[a b]|] eqn:E1.
    { intro E. injection E as <- <-. now apply ident_shrinks in E1. }
    destruct (Re.upper_ident s) as [[a b]|] eqn:E2.
    { intro E. injection E as <- <-. now apply ident_shrinks in E2. }
    destruct (Re.quoted Re.squote s) as [[a b]|] eqn:E3.
    { intro E. injection E as <- <-. now apply quoted_shrinks in E3. }
    apply quoted_shrinks. }
  destruct g1 as [[n rest]|]; [|discriminate].
  specialize (Hg n rest eq_refl).
  destruct rest as [|c rest'].
  - intro E. injection E as <- <-. exact Hg.
  - destruct (Re.is_suffix_char c); intro E; injection E as <- <-;
      simpl in *; lia.
Qed.

Lemma terminator_shrinks (s r : string) :
  Re.terminator s = Some r -> String.length r < String.length s.
Proof.
  unfold Re.terminator, Re.skip_spaces.
  pose proof (span_length Py.isspace s) as H.
  destruct (snd (Re.span Py.isspace s)) as [|c t]; [discriminate|].
  destruct (Ascii.eqb_spec c ";") as [-> | Hne].
  - intro E. injection E as <-. simpl in H. lia.
  - destruct c as [[] [] [] [] [] [] [] []]; try discriminate.
    now contradiction Hne.
Qed.

Lemma lazy_until_terminator_shrinks (s b r : string) :
  Re.lazy_until_terminator s = Some (b, r) ->
  String.length r < String.length s.
Proof.
  revert b; induction s as [|c s IH]; intro b; simpl.
  - destruct (Re.terminator EmptyString) eqn:E; [|discriminate].
    apply terminator_shrinks in E. simpl in E. lia.
  - destruct (Re.terminator (String c s)) as [rest|] eqn:E.
    + intro H. injection H as <- <-. now apply terminator_shrinks in E.
    + destruct (Re.lazy_until_terminator s) as [[b' r']|]; [|discriminate].
      intro H. injection H as <- <-. specialize (IH b' eq_refl). lia.
Qed.

Lemma lazy_body_shrinks (s b r : string) :
  Re.lazy_body s = Some (b, r) -> String.length r < String.length s.
Proof.
  destruct s as [|c s]; simpl; [discriminate|].
  destruct (Re.lazy_until_terminator s) as [[b' r']|] eqn:E; [|discriminate].
  intro H. injection H as <- <-.
  apply lazy_until_terminator_shrinks in E. lia.
Qed.

Lemma body_pattern_shrinks (s b r : string) :
  Re.body_pattern s = Some (b, r) -> String.length r < String.length s.
Proof.
  induction s as [|c s IH]; simpl; [discriminate|].
  destruct (Py.isspace c).
  - destruct (Re.body_pattern s) as [[b' r']|].
    + intro H. injection H as <- <-. specialize (IH eq_refl). lia.
    + apply (lazy_body_shrinks (String c s)).
  - apply (lazy_body_shrinks (String c s)).
Qed.

Lemma rule_pattern_shrinks (s n b r : string) :
  Re.rule_pattern s = Some (n, b, r) -> String.length r < String.length s.
Proof.
  unfold Re.rule_pattern.
  destruct (Re.lower_ident s) as [[n' r1]|] eqn:E1; [|discriminate].
  apply ident_shrinks in E1.
  pose proof (span_length Py.isspace r1) as H. unfold Re.skip_spaces.
  destruct (snd (Re.span Py.isspace r1)) as [|c r2]; [discriminate|].
  destruct (Ascii.eqb_spec c ":") as [-> | Hne].
  - destruct (Re.body_pattern r2) as [[b' r']|] eqn:E2; [|discriminate].
    intro E. injection E as <- <- <-.
    apply body_pattern_shrinks in E2. simpl in H. lia.
  - destruct c as [[] [] [] [] [] [] [] []]; try discriminate.
    now contradiction Hne.
Qed.

Lemma scan_rules_fuel (n m : nat) (at_line_start : bool) (s : string) :
  String.length s < n -> String.length s < m ->
  Re.scan_rules n at_line_start s = Re.scan_rules m at_line_start s.
Proof.
  revert m at_line_start s; induction n as [|n IH];
    intros m at_line_start s Hn Hm; [lia|].
  destruct m as [|m]; [lia|]. simpl.
  destruct (if at_line_start then Re.rule_pattern s else None)
    as [[[rn rb] rest]|] eqn:E.
  - f_equal. destruct at_line_start; [|discriminate].
    apply rule_pattern_shrinks in E. apply IH; lia.
  - destruct s as [|c s]; [reflexivity|]. simpl in *. apply IH; lia.
Qed.

(** Fuel adequacy of the three scans of the parser: any fuel above the
    length of the text gives the result of the scan. *)
Lemma label_scan_fuel (n : nat) (s : string) :
  String.length s < n ->
  Re.scan Re.label_pattern n s = Re.tokens Re.label_pattern s.
Proof.
  intro H. apply (scan_fuel _ label_pattern_shrinks); [exact H | simpl; lia].
Qed.

Lemma element_scan_fuel (n : nat) (s : string) :
  String.length s < n ->
  Re.scan Re.element_pattern n s = Re.tokens Re.element_pattern s.
Proof.
  intro H. apply (scan_fuel _ element_pattern_shrinks); [exact H | simpl; lia].
Qed.

Lemma rule_scan_fuel (n : nat) (content : string) :
  String.length content < n ->
  Re.scan_rules n true content = Re.finditer_rules content.
Proof. intro H. apply scan_rules_fuel; [exact H | simpl; lia]. Qed.

(** ** Labels (C8) *)

Lemma lower_start_not_space (c : ascii) :
  Re.lower_start c = true -> Py.isspace c = false.
Proof. destruct c as [[] [] [] [] [] [] [] []]; vm_compute; congruence. Qed.

Lemma skip_spaces_app (s r : string) :
  Re.skip_spaces (s +:+ r)
  = match Re.skip_spaces s with
    | EmptyString => Re.skip_spaces r
    | t => t +:+ r
    end.
Proof.
  unfold Re.skip_spaces. induction s as [|c s IH]; string_app_step.
  - reflexivity.
  - simpl. destruct (Py.isspace c); [|reflexivity].
    destruct (Re.span Py.isspace (s +:+ r)) as [a1 b1].
    destruct (Re.span Py.isspace s) as [a2 b2]. simpl in *. exact IH.
Qed.

Lemma label_pattern_not_hash (c : ascii) (s : string) :
  Ascii.eqb c "#" = false -> Re.label_pattern (String c s) = None.
Proof.
  intro H. destruct c as [[] [] [] [] [] [] [] []]; try reflexivity.
  discriminate H.
Qed.

(** A text that no marker starts in is passed character by character. *)
Lemma tokens_marker_free (pre rest : string) :
  marker_free pre = true ->
  Re.lower_ident (Re.skip_spaces rest) = None ->
  Re.tokens Re.label_pattern (pre +:+ rest)
  = map inl (list_ascii_of_string pre) ++ Re.tokens Re.label_pattern rest.
Proof.
  intros Hpre Hrest. induction pre as [|c pre IH]; string_app_step.
  - reflexivity.
  - simpl in Hpre. apply andb_prop in Hpre as [Hc Hpre].
    rewrite (tokens_pass Re.label_pattern).
    + simpl. now rewrite IH.
    + destruct (Ascii.eqb c "#") eqn:E.
      * apply Ascii.eqb_eq in E. subst c. simpl.
        rewrite skip_spaces_app.
        destruct (Re.skip_spaces pre) as [|d t]; [exact Hrest|].
        string_app_step. simpl.
        apply negb_true_iff in Hc. unfold Re.lower_ident, Re.ident.
        now rewrite Hc.
      * now apply label_pattern_not_hash.
Qed.

Lemma tokens_label_free (s : string) :
  marker_free s = true ->
  Re.tokens Re.label_pattern s = map inl (list_ascii_of_string s).
Proof.
  intro H. rewrite <- (string_app_nil_r s) at 1.
  rewrite tokens_marker_free; [| exact H | reflexivity].
  rewrite (tokens_empty _ eq_refl). now rewrite app_nil_r.
Qed.

Lemma unmatched_of_app {A : Type} (l1 l2 : list (ascii + A)) :
  Re.unmatched_of (l1 ++ l2) = Re.unmatched_of l1 +:+ Re.unmatched_of l2.
Proof.
  induction l1 as [|[c|a] l1 IH]; simpl; string_app_step;
    [reflexivity | now rewrite IH | exact IH].
Qed.

Lemma unmatched_of_chars {A : Type} (s : string) :
  Re.unmatched_of (A := A) (map inl (list_ascii_of_string s)) = s.
Proof. induction s as [|c s IH]; simpl; [reflexivity | now rewrite IH]. Qed.

Lemma matches_of_app {A : Type} (l1 l2 : list (ascii + A)) :
  Re.matches_of (l1 ++ l2) = Re.matches_of l1 ++ Re.matches_of l2.
Proof.
  induction l1 as [|[c|a] l1 IH]; simpl;
    [reflexivity | exact IH | now rewrite IH].
Qed.

Lemma matches_of_chars {A : Type} (s : string) :
  Re.matches_of (A := A) (map inl (list_ascii_of_string s)) = [].
Proof. induction s as [|c s IH]; simpl; [reflexivity | exact IH]. Qed.

(** The marker itself: hash sign, white space, a maximal identifier. *)
Lemma label_pattern_marker (ws ident post : string) :
  all_chars Py.isspace ws = true ->
  starts_with Re.lower_start ident = true ->
  all_chars Re.lower_cont ident = true ->
  starts_with Re.lower_cont post = false ->
  Re.label_pattern ("#" +:+ ws +:+ ident +:+ post) = Some (ident, post).
Proof.
  intros Hws Hstart Hcont Hpost. string_app_step.
  destruct ident as [|c0 ident]; [discriminate|]. simpl in Hstart.
  unfold Re.label_pattern, Re.skip_spaces.
  rewrite span_app; [| exact Hws |].
  - string_app_step. simpl. rewrite Hstart.
    unfold all_chars in Hcont. simpl in Hcont.
    apply andb_prop in Hcont as [_ Hcont].
    rewrite span_app; auto.
  - string_app_step. simpl. now apply lower_start_not_space.
Qed.

Lemma tokens_first_marker (pre ws ident post : string) :
  marker_free pre = true ->
  all_chars Py.isspace ws = true ->
  starts_with Re.lower_start ident = true ->
  all_chars Re.lower_cont ident = true ->
  starts_with Re.lower_cont post = false ->
  Re.tokens Re.label_pattern (pre +:+ "#" +:+ ws +:+ ident +:+ post)
  = map inl (list_ascii_of_string pre)
    ++ inr ident :: Re.tokens Re.label_pattern post.
Proof.
  intros Hpre Hws Hstart Hcont Hpost.
  rewrite tokens_marker_free; [| exact Hpre | reflexivity].
  f_equal. apply (tokens_match _ label_pattern_shrinks).
  now apply label_pattern_marker.
Qed.

(** C8. In an alternative text whose first label marker is a hash sign,
    optional white space and the lower-case identifier [ident] (taken as
    far as identifier characters go), parsing records [ident] as the label
    and tokenizes the text with that marker, and any later one, cut out:
    the elements are those of the text before the marker followed by the
    stripped text behind it, and of the text around the marker when no
    further marker follows. *)
Theorem label_recorded_and_stripped :
  forall pre ws ident post : string,
    marker_free pre = true ->
    all_chars Py.isspace ws = true ->
    starts_with Re.lower_start ident = true ->
    all_chars Re.lower_cont ident = true ->
    starts_with Re.lower_cont post = false ->
    let alt := parse_alt_text (pre +:+ "#" +:+ ws +:+ ident +:+ post) in
    label alt = Some ident
    /\ elements alt
       = _parse_alternative (pre +:+ Re.sub_empty Re.label_pattern post)
    /\ (marker_free post = true ->
        elements alt = _parse_alternative (pre +:+ post)).
Proof.
  intros pre ws ident post Hpre Hws Hstart Hcont Hpost alt.
  pose proof (tokens_first_marker pre ws ident post
                Hpre Hws Hstart Hcont Hpost) as Htok.
  assert (Hsearch : Re.search Re.label_pattern
                      (pre +:+ "#" +:+ ws +:+ ident +:+ post) = Some ident).
  { unfold Re.search, Re.finditer. rewrite Htok, matches_of_app.
    now rewrite matches_of_chars. }
  assert (Hsub : Re.sub_empty Re.label_pattern
                   (pre +:+ "#" +:+ ws +:+ ident +:+ post)
                 = pre +:+ Re.sub_empty Re.label_pattern post).
  { unfold Re.sub_empty. rewrite Htok, unmatched_of_app.
    now rewrite unmatched_of_chars. }
  unfold alt, parse_alt_text. rewrite Hsearch, Hsub. simpl.
  split; [reflexivity|]. split; [reflexivity|].
  intro Hfree. unfold Re.sub_empty.
  now rewrite (tokens_label_free post Hfree), unmatched_of_chars.
Qed.

Lemma label_recorded_and_stripped_witness :
  label (parse_alt_text "a #foo") = Some "foo"
  /\ elements (parse_alt_text "a #foo")
     = [mkRuleElement "a" false EmptyString true]
  /\ label (parse_alt_text "x # lbl_1 Y?") = Some "lbl_1"
  /\ elements (parse_alt_text "x # lbl_1 Y?")
     = [mkRuleElement "x" false EmptyString true;
        mkRuleElement "Y" true "?" false].
Proof.
  destruct (label_recorded_and_stripped "a " EmptyString "foo" EmptyString
              eq_refl eq_refl eq_refl eq_refl eq_refl) as (H1 & _ & H2).
  destruct (label_recorded_and_stripped "x " " " "lbl_1" " Y?"
              eq_refl eq_refl eq_refl eq_refl eq_refl) as (H3 & _ & H4).
  split; [exact H1|]. split; [exact (H2 eq_refl)|].
  split; [exact H3 | exact (H4 eq_refl)].
Defined.

(** ** De-duplicated rule references (C4, C5, C2) *)

Lemma filter_filter_bool {A : Type} (p q : A -> bool) (l : list A) :
  List.filter p (List.filter q l) = List.filter (fun x => q x && p x) l.
Proof.
  induction l as [|x l IH]; simpl; [reflexivity|].
  destruct (q x); simpl; [destruct (p x); now rewrite IH | exact IH].
Qed.

Lemma same_field_spec (e e' : RuleElement) :
  same_field e e' = true <-> field_name_of e' = field_name_of e.
Proof. unfold same_field. apply String.eqb_eq. Qed.

Lemma kept_from_filter (seen_names : gset string) (l : list RuleElement) :
  kept_from seen_names l = List.filter (unseen seen_names) (distinct_refs l).
Proof.
  revert seen_names; induction l as [|e l IH]; intro seen_names; simpl;
    [reflexivity|].
  destruct (is_rule_ref e); simpl; [|apply IH].
  unfold unseen at 1.
  destruct (bool_decide (field_name_of e ∈ seen_names)) eqn:Hin; simpl.
  - rewrite IH, filter_filter_bool. apply List.filter_ext. intro e'.
    apply bool_decide_eq_true in Hin. unfold unseen.
    destruct (same_field e e') eqn:Hs; simpl; [|reflexivity].
    apply same_field_spec in Hs. rewrite Hs.
    now rewrite bool_decide_eq_true_2.
  - f_equal. rewrite IH, filter_filter_bool. apply List.filter_ext. intro e'.
    unfold unseen.
    destruct (same_field e e') eqn:Hs; simpl.
    + apply same_field_spec in Hs. rewrite Hs.
      rewrite bool_decide_eq_true_2; [reflexivity | set_solver].
    + assert (Hne : field_name_of e' <> field_name_of e).
      { intro H. apply same_field_spec in H. congruence. }
      apply eq_true_iff_eq. rewrite !negb_true_iff, !bool_decide_eq_false.
      rewrite elem_of_union, elem_of_singleton. intuition.
Qed.

Lemma kept_from_empty (l : list RuleElement) :
  kept_from ∅ l = distinct_refs l.
Proof.
  rewrite kept_from_filter.
  rewrite (List.filter_ext _ (fun _ => true)).
  - induction (distinct_refs l) as [|x k IH]; simpl; [reflexivity | now rewrite IH].
  - intro e. unfold unseen. rewrite bool_decide_eq_false_2; [reflexivity|].
    set_solver.
Qed.

Section DedupLoop.
Context {S : Type} (emit : S -> RuleElement -> S).

Lemma fold_dedup (l : list RuleElement) (acc : S) (seen_names : gset string) :
  fst (fold_left (dedup_step emit) l (acc, seen_names))
  = fold_left emit (kept_from seen_names l) acc.
Proof.
  revert acc seen_names; induction l as [|e l IH]; intros acc seen_names;
    simpl; [reflexivity|].
  destruct (negb (is_rule_ref e)); [apply IH|].
  destruct (bool_decide (field_name_of e ∈ seen_names)); [apply IH|].
  simpl. apply IH.
Qed.
End DedupLoop.

Lemma fold_left_snoc {A B : Type} (f : B -> A) (l : list B) (acc : list A) :
  fold_left (fun acc x => acc ++ [f x]) l acc = acc ++ map f l.
Proof.
  revert acc; induction l as [|x l IH]; intro acc; simpl.
  - now rewrite app_nil_r.
  - rewrite IH, <- app_assoc. reflexivity.
Qed.

Lemma fold_left_ext_eq {A B : Type} (f g : A -> B -> A) (l : list B) (a : A) :
  (forall a b, f a b = g a b) -> fold_left f l a = fold_left g l a.
Proof.
  intro H. revert a; induction l as [|x l IH]; intro a; simpl;
    [reflexivity | now rewrite H, IH].
Qed.

Lemma fields_of_distinct (alt : Alternative) :
  fields_of alt = map field_decl (distinct_refs (elements alt)).
Proof.
  unfold fields_of.
  rewrite (fold_left_ext_eq fields_step
             (dedup_step (fun fields e => fields ++ [field_decl e]))).
  - rewrite fold_dedup, kept_from_empty. now rewrite fold_left_snoc.
  - intros [fields seen_names] e. reflexivity.
Qed.

Lemma distinct_refs_in (l : list RuleElement) (e : RuleElement) :
  In e (distinct_refs l) -> In e l /\ is_rule_ref e = true.
Proof.
  induction l as [|k l IH]; simpl; [intros []|].
  destruct (is_rule_ref k) eqn:Hk.
  - intros [<- | H]; [now split; [left|]|].
    apply List.filter_In in H as [H _]. destruct (IH H). split; [now right | assumption].
  - intro H. destruct (IH H). split; [now right | assumption].
Qed.

Lemma distinct_refs_nodup (l : list RuleElement) :
  List.NoDup (map field_name_of (distinct_refs l)).
Proof.
  induction l as [|k l IH]; simpl; [apply List.NoDup_nil|].
  destruct (is_rule_ref k); [|exact IH].
  simpl. apply List.NoDup_cons.
  - intro H. apply List.in_map_iff in H as (e & He & Hin).
    apply List.filter_In in Hin as [_ Hin].
    apply negb_true_iff in Hin.
    apply same_field_spec in He. congruence.
  - induction (distinct_refs l) as [|x d IHd]; simpl; [apply List.NoDup_nil|].
    apply List.NoDup_cons_iff in IH as [Hx Hd].
    destruct (negb (same_field k x)); simpl; [|now apply IHd].
    apply List.NoDup_cons; [|now apply IHd].
    intro H. apply Hx. apply List.in_map_iff in H as (e & He & Hin).
    apply List.filter_In in Hin as [Hin _].
    apply List.in_map_iff. now exists e.
Qed.

Lemma filter_none {A : Type} (p : A -> bool) (l : list A) :
  (forall x, In x l -> p x = false) -> List.filter p l = [].
Proof.
  induction l as [|x l IH]; simpl; intro H; [reflexivity|].
  rewrite (H x) by now left. apply IH. intros y Hy. apply H. now right.
Qed.

Lemma filter_comm {A : Type} (p q : A -> bool) (l : list A) :
  List.filter p (List.filter q l) = List.filter q (List.filter p l).
Proof.
  rewrite !filter_filter_bool. apply List.filter_ext. intro x. apply andb_comm.
Qed.

(** The first rule reference with a given field name is the one kept for
    that name, and the only one. *)
Lemma distinct_refs_first (l1 l2 : list RuleElement) (e : RuleElement) :
  is_rule_ref e = true ->
  (forall k, In k l1 -> is_rule_ref k = true ->
             field_name_of k <> field_name_of e) ->
  List.filter (same_field e) (distinct_refs (l1 ++ e :: l2)) = [e].
Proof.
  intros He. induction l1 as [|k l1 IH]; intro Hfirst; simpl.
  - rewrite He. simpl. unfold same_field at 1. rewrite String.eqb_refl.
    f_equal. apply filter_none. intros x Hx.
    apply List.filter_In in Hx as [_ Hx]. now apply negb_true_iff in Hx.
  - assert (IH' : List.filter (same_field e) (distinct_refs (l1 ++ e :: l2))
                  = [e]).
    { apply IH. intros k' Hk'. apply Hfirst. now right. }
    destruct (is_rule_ref k) eqn:Hk; [|exact IH'].
    simpl.
    assert (Hke : same_field e k = false).
    { apply not_true_iff_false. intro H. apply same_field_spec in H.
      now apply (Hfirst k (or_introl eq_refl) Hk). }
    rewrite Hke, filter_comm, IH'. simpl.
    assert (Hek : same_field k e = false).
    { apply not_true_iff_false. intro H. apply same_field_spec in H.
      symmetry in H. now apply (Hfirst k (or_introl eq_refl) Hk). }
    now rewrite Hek.
Qed.

(** Every rule reference has a first occurrence of its field name. *)
Lemma first_occurrence (l : list RuleElement) (e : RuleElement) :
  In e l -> is_rule_ref e = true ->
  exists l1 e0 l2,
    l = l1 ++ e0 :: l2
    /\ is_rule_ref e0 = true
    /\ field_name_of e0 = field_name_of e
    /\ (forall k, In k l1 -> is_rule_ref k = true ->
                  field_name_of k <> field_name_of e0).
Proof.
  induction l as [|k l IH]; intros Hin He; [destruct Hin|].
  destruct (is_rule_ref k && same_field e k) eqn:Hk.
  - apply andb_prop in Hk as [Hk Hs]. apply same_field_spec in Hs.
    exists [], k, l. split; [reflexivity|]. split; [exact Hk|].
    split; [exact Hs|]. intros k' [].
  - assert (Hin' : In e l).
    { destruct Hin as [-> | H]; [|exact H].
      unfold same_field in Hk. now rewrite He, String.eqb_refl in Hk. }
    destruct (IH Hin' He) as (l1 & e0 & l2 & -> & H0 & Hn & Hfirst).
    exists (k :: l1), e0, l2. split; [reflexivity|]. split; [exact H0|].
    split; [exact Hn|].
    intros k' [<- | Hk'] Hr.
    + rewrite Hr in Hk. simpl in Hk. rewrite Hn. intro H.
      apply same_field_spec in H. congruence.
    + now apply Hfirst.
Qed.

Lemma distinct_refs_unique (l : list RuleElement) (e : RuleElement) :
  In e l -> is_rule_ref e = true ->
  exists e0, List.filter (same_field e) (distinct_refs l) = [e0]
             /\ In e0 l /\ field_name_of e0 = field_name_of e.
Proof.
  intros Hin He.
  destruct (first_occurrence l e Hin He) as (l1 & e0 & l2 & -> & H0 & Hn & Hf).
  exists e0. split; [|split; [|exact Hn]].
  - rewrite (List.filter_ext (same_field e) (same_field e0));
      [now apply distinct_refs_first|].
    intro x. unfold same_field. now rewrite Hn.
  - apply in_or_app. right. now left.
Qed.

(** Elements made by the parser are tokens or rule references, never
    both. *)
Lemma elements_of_matches_kind (ms : list (string * string)) (e : RuleElement) :
  In e (elements_of_matches ms) -> is_rule_ref e = negb (is_token e).
Proof.
  induction ms as [|[n c] ms IH]; simpl; [intros []|].
  destruct (is_literal n); [exact IH|].
  intros [<- | H]; [reflexivity | now apply IH].
Qed.

Lemma parse_alt_text_kind (alt_text : string) (e : RuleElement) :
  In e (elements (parse_alt_text alt_text)) ->
  is_rule_ref e = negb (is_token e).
Proof.
  unfold parse_alt_text.
  destruct (Re.search Re.label_pattern alt_text); simpl;
    apply elements_of_matches_kind.
Qed.

Lemma field_type_cases (e : RuleElement) :
  _get_field_type e
  = if is_list e then "List<" +:+ _rule_to_class_name (name e) +:+ ">"
    else _rule_to_class_name (name e).
Proof. unfold _get_field_type. now destruct (is_list e), (is_optional e). Qed.

Lemma wrapped_type_differs (t : string) : "List<" +:+ t +:+ ">" <> t.
Proof.
  intro H. apply (f_equal String.length) in H.
  rewrite !string_app_length in H. simpl in H. lia.
Qed.

(** *** The construction routine *)

Lemma fold_visit_emit (rule : GrammarRule) (l : list RuleElement)
    (acc : list string * list string) :
  fold_left (visit_emit rule) l acc
  = (fst acc ++ flat_map (fun e => fst (visit_lines rule e)) l,
     snd acc ++ map (fun e => snd (visit_lines rule e)) l).
Proof.
  revert acc; induction l as [|e l IH]; intros [lines args]; simpl.
  - now rewrite !app_nil_r.
  - rewrite IH. simpl. now rewrite <- !app_assoc.
Qed.

Lemma visit_loop_distinct (rule : GrammarRule) (alt : Alternative) :
  fst (visit_loop rule alt)
  = (flat_map (fun e => fst (visit_lines rule e))
              (distinct_refs (elements alt)),
     map (fun e => snd (visit_lines rule e)) (distinct_refs (elements alt))).
Proof.
  unfold visit_loop.
  rewrite (fold_left_ext_eq (visit_step rule) (dedup_step (visit_emit rule))).
  - change ([] : list string, [] : list string, ∅ : gset string)
      with (([] : list string, [] : list string), ∅ : gset string).
    rewrite fold_dedup, kept_from_empty, fold_visit_emit. reflexivity.
  - intros [[lines args] seen_names] e.
    unfold visit_step, dedup_step, field_name_of.
    destruct (negb (is_rule_ref e)); [reflexivity|].
    destruct (bool_decide (_to_camel_case (name e) ∈ seen_names));
      [reflexivity|].
    unfold visit_emit. now destruct (visit_lines rule e).
Qed.

Lemma visit_body_lines_distinct (rule : GrammarRule) (alt : Alternative) :
  visit_body_lines rule alt
  = flat_map (fun e => fst (visit_lines rule e)) (distinct_refs (elements alt))
    ++ [return_line rule
          (map (fun e => snd (visit_lines rule e))
               (distinct_refs (elements alt)))].
Proof.
  unfold visit_body_lines.
  pose proof (visit_loop_distinct rule alt) as H.
  destruct (visit_loop rule alt) as [[lines args] seen_names].
  simpl in H. now injection H as -> ->.
Qed.

Lemma generate_visit_body_distinct (rule : GrammarRule) (alt : Alternative) :
  _generate_visit_body rule alt
  = Py.join LF
      (flat_map (fun e => fst (visit_lines rule e))
                (distinct_refs (elements alt))
       ++ [return_line rule
             (map (fun e => snd (visit_lines rule e))
                  (distinct_refs (elements alt)))]).
Proof. unfold _generate_visit_body. now rewrite visit_body_lines_distinct. Qed.

Lemma filter_idem_ext {A : Type} (p q : A -> bool) (l : list A) :
  (forall x, p x = q x) ->
  List.filter p (List.filter q l) = List.filter p l.
Proof.
  intro H. rewrite filter_filter_bool. apply List.filter_ext.
  intro x. rewrite <- H. now destruct (p x).
Qed.

(** An element whose field name is filtered out anyway does not change
    what is kept. *)
Lemma distinct_refs_drop_filtered (k e' : RuleElement)
    (l r : list RuleElement) :
  same_field k e' = true ->
  List.filter (fun x => negb (same_field k x)) (distinct_refs (l ++ e' :: r))
  = List.filter (fun x => negb (same_field k x)) (distinct_refs (l ++ r)).
Proof.
  intro Hs. revert k Hs; induction l as [|j l IH]; intros k Hs; simpl.
  - destruct (is_rule_ref e'); [|reflexivity].
    simpl. rewrite Hs. simpl. apply filter_idem_ext.
    intro x. f_equal. unfold same_field in *.
    apply String.eqb_eq in Hs. now rewrite Hs.
  - destruct (is_rule_ref j); [|now apply IH].
    simpl. destruct (negb (same_field k j)).
    + f_equal. rewrite filter_comm, (IH k Hs). apply filter_comm.
    + rewrite filter_comm, (IH k Hs). apply filter_comm.
Qed.

Lemma distinct_refs_drop_later (l1 l2a l2b : list RuleElement)
    (e e' : RuleElement) :
  is_rule_ref e = true ->
  field_name_of e' = field_name_of e ->
  distinct_refs (l1 ++ e :: l2a ++ e' :: l2b)
  = distinct_refs (l1 ++ e :: l2a ++ l2b).
Proof.
  intros He Hn. induction l1 as [|k l1 IH]; simpl.
  - rewrite He. f_equal. apply distinct_refs_drop_filtered.
    now apply same_field_spec.
  - now rewrite IH.
Qed.

Lemma in_flat_map_split {A B : Type} (f : A -> list B) (l : list A) (x : A) :
  In x l -> exists before after, flat_map f l = before ++ f x ++ after.
Proof.
  induction l as [|y l IH]; intros Hin; [destruct Hin|].
  destruct Hin as [-> | Hin].
  - exists [], (flat_map f l). reflexivity.
  - destruct (IH Hin) as (b & a & E). exists (f y ++ b), a.
    simpl. rewrite E. now rewrite <- app_assoc.
Qed.

(** C2, as the code has it.  The body of the routine is, for the kept rule
    references in order (each the first of its field name), the block of
    that element, followed by the return statement, the lines joined by
    line feeds.  The block is chosen by
    the cardinality alone: for [*] and [+] a new list that is filled, when
    the child collection is not null, with the visited items in their
    order; for [?] a variable that stays null unless the child is there and
    is visited; otherwise (no suffix) a throw that names the rule and the
    element when the child is null, and the visited child after it. *)
Theorem routine_branch_by_cardinality :
  forall (rule : GrammarRule) (alt : Alternative),
    visit_body_lines rule alt
    = flat_map (fun e => fst (visit_lines rule e))
               (distinct_refs (elements alt))
      ++ [return_line rule
            (map (fun e => snd (visit_lines rule e))
                 (distinct_refs (elements alt)))]
    /\ _generate_visit_body rule alt
       = Py.join LF
           (flat_map (fun e => fst (visit_lines rule e))
                     (distinct_refs (elements alt))
            ++ [return_line rule
                  (map (fun e => snd (visit_lines rule e))
                       (distinct_refs (elements alt)))])
    /\ forall e : RuleElement,
        In e (distinct_refs (elements alt)) ->
        let field_name := _to_camel_case (name e) in
        let class_name := _rule_to_class_name (name e) in
        let ctx_method := "ctx." +:+ name e +:+ "()" in
        (exists before after,
            visit_body_lines rule alt
            = before ++ fst (visit_lines rule e) ++ after)
        /\ (cardinality e = "*" \/ cardinality e = "+" ->
            visit_lines rule e
            = (["        List<" +:+ class_name +:+ "> " +:+ field_name
                  +:+ "List = new ArrayList<>();";
                "        if (" +:+ ctx_method +:+ " != null) {";
                "            for (PlSqlParser." +:+ class_name
                  +:+ "Context item : " +:+ ctx_method +:+ ") {";
                "                " +:+ field_name +:+ "List.add(("
                  +:+ class_name +:+ ") visit(item));";
                "            }";
                "        }"],
               field_name +:+ "List"))
        /\ (cardinality e = "?" ->
            visit_lines rule e
            = (["        " +:+ class_name +:+ " " +:+ field_name
                  +:+ " = null;";
                "        if (" +:+ ctx_method +:+ " != null) {";
                "            " +:+ field_name +:+ " = (" +:+ class_name
                  +:+ ") visit(" +:+ ctx_method +:+ ");";
                "        }"],
               field_name))
        /\ (cardinality e = EmptyString ->
            visit_lines rule e
            = (["        " +:+ class_name +:+ " " +:+ field_name +:+ ";";
                "        if (" +:+ ctx_method +:+ " == null) {";
                "            throw new TransformationException(" +:+ DQ
                  +:+ rule_name rule +:+ " missing " +:+ name e +:+ DQ
                  +:+ ");";
                "        }";
                "        " +:+ field_name +:+ " = (" +:+ class_name
                  +:+ ") visit(" +:+ ctx_method +:+ ");"],
               field_name)).
Proof.
  intros rule alt. split; [apply visit_body_lines_distinct|].
  split; [apply generate_visit_body_distinct|].
  intros e Hin field_name class_name ctx_method.
  split.
  - rewrite visit_body_lines_distinct.
    destruct (in_flat_map_split (fun k => fst (visit_lines rule k)) _ e Hin)
      as (b & a & E).
    exists b, (a ++ [return_line rule
                       (map (fun k => snd (visit_lines rule k))
                            (distinct_refs (elements alt)))]).
    rewrite E. now rewrite <- !app_assoc.
  - unfold visit_lines, is_list, is_optional.
    fold field_name; fold class_name; fold ctx_method.
    split; [|split].
    + intros [-> | ->]; reflexivity.
    + intros ->; reflexivity.
    + intros ->; reflexivity.
Qed.

Lemma routine_branch_by_cardinality_witness :
  parse "foo : BAR baz qux? item+ ;" = [("foo", foo_rule)]
  /\ visit_lines foo_rule (mkRuleElement "baz" false EmptyString true)
     = (["        Baz baz;";
         "        if (ctx.baz() == null) {";
         "            throw new TransformationException(" +:+ DQ
           +:+ "foo missing baz" +:+ DQ +:+ ");";
         "        }";
         "        baz = (Baz) visit(ctx.baz());"],
        "baz")
  /\ visit_lines foo_rule (mkRuleElement "qux" false "?" true)
     = (["        Qux qux = null;";
         "        if (ctx.qux() != null) {";
         "            qux = (Qux) visit(ctx.qux());";
         "        }"],
        "qux")
  /\ visit_lines foo_rule (mkRuleElement "item" false "+" true)
     = (["        List<Item> itemList = new ArrayList<>();";
         "        if (ctx.item() != null) {";
         "            for (PlSqlParser.ItemContext item : ctx.item()) {";
         "                itemList.add((Item) visit(item));";
         "            }";
         "        }"],
        "itemList").
Proof.
  split; [vm_compute; reflexivity|].
  pose proof (routine_branch_by_cardinality foo_rule
                (mkAlternative None
                   [mkRuleElement "BAR" true EmptyString false;
                    mkRuleElement "baz" false EmptyString true;
                    mkRuleElement "qux" false "?" true;
                    mkRuleElement "item" false "+" true])) as (_ & _ & H).
  split; [|split].
  - apply (H (mkRuleElement "baz" false EmptyString true));
      [simpl; auto | reflexivity].
  - apply (H (mkRuleElement "qux" false "?" true));
      [simpl; auto | reflexivity].
  - apply (H (mkRuleElement "item" false "+" true));
      [simpl; auto | right; reflexivity].
Defined.

(** C2, as stated, fails for a rule reference that repeats a field name:
    in [args : arg arg* ;] the second element is a reference to [arg] of
    cardinality [*], but the routine holds only the block of the mandatory
    first one: no list is built for it. *)
Lemma repeated_reference_has_no_branch :
  let first_arg := mkRuleElement "arg" false EmptyString true in
  let more_args := mkRuleElement "arg" false "*" true in
  let alt := mkAlternative None [first_arg; more_args] in
  let rule := mkGrammarRule "args" [alt] in
  parse "args : arg arg* ;" = [("args", rule)]
  /\ In more_args (elements alt)
  /\ is_rule_ref more_args = true
  /\ visit_body_lines rule alt
     = ["        Arg arg;";
        "        if (ctx.arg() == null) {";
        "            throw new TransformationException(" +:+ DQ
          +:+ "args missing arg" +:+ DQ +:+ ");";
        "        }";
        "        arg = (Arg) visit(ctx.arg());";
        "        return new Args(arg);"]
  /\ ~ In "        List<Arg> argList = new ArrayList<>();"
          (visit_body_lines rule alt).
Proof.
  cbv zeta. split; [vm_compute; reflexivity|].
  split; [right; left; reflexivity|].
  split; [reflexivity|].
  split; [vm_compute; reflexivity|].
  vm_compute. intros [H | [H | [H | [H | [H | [H | []]]]]]]; discriminate H.
Qed.

(** ** End-to-end scenarios (C6, C7) *)

(** C6, as the code has it.  For the grammar [list_rule : item+ ;] the
    model holds one rule with the single element [item+]; its schema is the
    one field [item] (the element name, not a plural) of type [List<Item>],
    and its routine starts from an empty list, adds the visited items of
    [ctx.item()] in their order when that collection is not null, and
    passes the list, empty when nothing was added, to the constructor. *)
Theorem list_rule_projection :
  parse "list_rule : item+ ;" = [("list_rule", list_rule)]
  /\ first_alternative list_rule = Some list_alt
  /\ map field_name_of (distinct_refs (elements list_alt)) = ["item"]
  /\ _generate_fields list_alt = "    private final List<Item> item;"
  /\ visit_body_lines list_rule list_alt
     = ["        List<Item> itemList = new ArrayList<>();";
        "        if (ctx.item() != null) {";
        "            for (PlSqlParser.ItemContext item : ctx.item()) {";
        "                itemList.add((Item) visit(item));";
        "            }";
        "        }";
        "        return new ListRule(itemList);"]
  /\ _generate_visit_body list_rule list_alt
     = Py.join LF
         ["        List<Item> itemList = new ArrayList<>();";
          "        if (ctx.item() != null) {";
          "            for (PlSqlParser.ItemContext item : ctx.item()) {";
          "                itemList.add((Item) visit(item));";
          "            }";
          "        }";
          "        return new ListRule(itemList);"].
Proof.
  split; [vm_compute; reflexivity|].
  split; [reflexivity|].
  split; [reflexivity|].
  repeat split; vm_compute; reflexivity.
Qed.

(** C6, as stated, fails on the field name: the schema of [list_rule] has
    no field named [items]; its only field is named [item]. *)
Lemma list_rule_field_is_not_plural :
  fields_of list_alt = ["    private final List<Item> item;"]
  /\ ~ In "items" (map field_name_of (distinct_refs (elements list_alt)))
  /\ _generate_fields list_alt <> "    private final List<Item> items;".
Proof.
  split; [vm_compute; reflexivity|]. split.
  - vm_compute. intros [H | []]. discriminate H.
  - vm_compute. discriminate.
Qed.

(** For a rule with a labeled alternative the two class generators only
    call each other until the stack is used up. *)
Lemma labeled_class_recursion (base_package : string) (rule : GrammarRule) :
  existsb (fun alt => label_truthy (label alt)) (alternatives rule) = true ->
  forall frames : nat,
    (forall subdir,
        _generate_class base_package frames rule subdir = Raise RecursionError)
    /\ (forall package_name,
           _generate_interface_with_implementations
             base_package frames rule package_name
           = Raise RecursionError).
Proof.
  intros Hlabel frames. induction frames as [|frames [IHc IHi]].
  - split; reflexivity.
  - split.
    + intro subdir. simpl. rewrite Hlabel. apply IHi.
    + intro package_name. simpl. apply IHc.
Qed.

(** C7 at the grammar [choice : a #alt_a | b #alt_b ;].  The routine is
    built from the first alternative alone, as the claim says; the class,
    which carries the schema, is never produced: with any number of stack
    frames [_generate_class] ends in RecursionError, so no schema of the
    first alternative comes out. *)
Theorem labeled_rule_has_no_schema :
  parse "choice : a #alt_a | b #alt_b ;" = [("choice", choice_rule)]
  /\ first_alternative choice_rule = Some alt_a
  /\ (forall (frames : nat) (subdir : string),
        _generate_class SEMANTIC_PACKAGE frames choice_rule subdir
        = Raise RecursionError)
  /\ _generate_visit_method choice_rule
     = _generate_visit_method (mkGrammarRule "choice" [alt_a])
  /\ _generate_visit_body choice_rule alt_a
     = Py.join LF
         ["        A a;";
          "        if (ctx.a() == null) {";
          "            throw new TransformationException(" +:+ DQ
            +:+ "choice missing a" +:+ DQ +:+ ");";
          "        }";
          "        a = (A) visit(ctx.a());";
          "        return new Choice(a);"].
Proof.
  split; [vm_compute; reflexivity|].
  split; [reflexivity|].
  split.
  - intros frames subdir.
    now apply (labeled_class_recursion SEMANTIC_PACKAGE choice_rule eq_refl).
  - split; vm_compute; reflexivity.
Qed.

(** ** Processing order (C9) *)

Section SortedItems.
Context {V : Type}.

Lemma leb_trans (a b c : string) :
  String.leb a b = true -> String.leb b c = true -> String.leb a c = true.
Proof.
  intros H1 H2. apply Is_true_true.
  apply Is_true_true_2 in H1, H2.
  exact (PreOrder_Transitive (R := String.le) a b c H1 H2).
Qed.

Lemma leb_false_flip (a b : string) :
  String.leb a b = false -> String.leb b a = true.
Proof.
  intro H. destruct (String.leb_total a b) as [H' | H']; congruence.
Qed.

Lemma insert_item_perm (x : string * V) (l : list (string * V)) :
  Permutation (insert_item x l) (x :: l).
Proof.
  induction l as [|y l IH]; simpl; [reflexivity|].
  destruct (String.leb (fst x) (fst y)); [reflexivity|].
  rewrite IH. apply perm_swap.
Qed.

Lemma sorted_items_perm (d : dict V) : Permutation (sorted_items d) d.
Proof.
  induction d as [|x d IH]; simpl; [reflexivity|].
  rewrite insert_item_perm. now constructor.
Qed.

Lemma insert_item_sorted (x : string * V) (l : list (string * V)) :
  StronglySorted key_le l -> StronglySorted key_le (insert_item x l).
Proof.
  induction l as [|y l IH]; intro Hs; simpl.
  - constructor; constructor.
  - apply StronglySorted_inv in Hs as [Hl Hy].
    destruct (String.leb (fst x) (fst y)) eqn:E.
    + constructor; [now constructor|].
      constructor; [exact E|].
      eapply List.Forall_impl; [|exact Hy].
      intros z Hz. unfold key_le in *. now apply (leb_trans _ (fst y)).
    + constructor; [now apply IH|].
      apply (Permutation_Forall (Permutation_sym (insert_item_perm x l))).
      constructor; [now apply leb_false_flip | exact Hy].
Qed.

Lemma sorted_items_sorted (d : dict V) : StronglySorted key_le (sorted_items d).
Proof.
  induction d as [|x d IH]; simpl; [constructor | now apply insert_item_sorted].
Qed.

Lemma same_key_same_item (l : list (string * V)) (x y : string * V) :
  List.NoDup (map fst l) -> In x l -> In y l -> fst x = fst y -> x = y.
Proof.
  induction l as [|z l IH]; intros Hnd Hx Hy Hk; [destruct Hx|].
  simpl in Hnd. apply List.NoDup_cons_iff in Hnd as [Hz Hnd].
  destruct Hx as [-> | Hx], Hy as [-> | Hy].
  - reflexivity.
  - exfalso. apply Hz. rewrite Hk. now apply List.in_map.
  - exfalso. apply Hz. rewrite <- Hk. now apply List.in_map.
  - now apply IH.
Qed.

(** Two key-sorted lists with the same items, the keys distinct, are the
    same list. *)
Lemma sorted_unique (l1 l2 : list (string * V)) :
  List.NoDup (map fst l1) ->
  StronglySorted key_le l1 -> StronglySorted key_le l2 ->
  Permutation l1 l2 -> l1 = l2.
Proof.
  revert l2; induction l1 as [|x l1 IH]; intros l2 Hnd Hs1 Hs2 Hp.
  - now apply Permutation_nil in Hp.
  - destruct l2 as [|y l2].
    { apply Permutation_sym, Permutation_nil in Hp. discriminate. }
    pose proof (StronglySorted_inv Hs1) as [Hs1' Hx].
    pose proof (StronglySorted_inv Hs2) as [Hs2' Hy].
    assert (Hyin : In y (x :: l1)).
    { apply (Permutation_in _ (Permutation_sym Hp)). now left. }
    assert (Hxin : In x (y :: l2)).
    { apply (Permutation_in _ Hp). now left. }
    assert (Hxy : String.leb (fst x) (fst y) = true).
    { destruct Hyin as [<- | Hyin].
      - apply Is_true_true. exact (PreOrder_Reflexive (R := String.le) (fst x)).
      - rewrite List.Forall_forall in Hx. now apply Hx. }
    assert (Hyx : String.leb (fst y) (fst x) = true).
    { destruct Hxin as [<- | Hxin].
      - apply Is_true_true. exact (PreOrder_Reflexive (R := String.le) (fst y)).
      - rewrite List.Forall_forall in Hy. now apply Hy. }
    assert (E : x = y).
    { apply (same_key_same_item (x :: l1)); auto; [now left|].
      now apply String.leb_antisym. }
    subst y. f_equal.
    apply IH; auto.
    + simpl in Hnd. now apply List.NoDup_cons_iff in Hnd as [_ Hnd].
    + now apply Permutation_cons_inv in Hp.
Qed.

Lemma sorted_items_order_independent (d d' : dict V) :
  List.NoDup (keys d) -> Permutation d d' -> sorted_items d = sorted_items d'.
Proof.
  intros Hnd Hp. apply sorted_unique.
  - apply (Permutation_NoDup (l := keys d)); [|exact Hnd].
    unfold keys. apply Permutation_map, Permutation_sym, sorted_items_perm.
  - apply sorted_items_sorted.
  - apply sorted_items_sorted.
  - rewrite sorted_items_perm, Hp. apply Permutation_sym, sorted_items_perm.
Qed.

Lemma dict_set_key_in (d : dict V) (k : string) (v : V) (x : string) :
  In x (keys (dict_set d k v)) -> x = k \/ In x (keys d).
Proof.
  induction d as [|[k' v'] d IH]; simpl.
  - intros [<- | []]. now left.
  - destruct (String.eqb k' k); simpl.
    + intros [<- | H]; right; [now left | now right].
    + intros [<- | H]; [right; now left|].
      destruct (IH H); [now left | right; now right].
Qed.

Lemma dict_set_nodup (d : dict V) (k : string) (v : V) :
  List.NoDup (keys d) -> List.NoDup (keys (dict_set d k v)).
Proof.
  induction d as [|[k' v'] d IH]; simpl; intro Hnd.
  - apply List.NoDup_cons; [intros [] | apply List.NoDup_nil].
  - apply List.NoDup_cons_iff in Hnd as [Hk' Hnd].
    destruct (String.eqb_spec k' k) as [-> | Hne]; simpl.
    + now apply List.NoDup_cons.
    + apply List.NoDup_cons; [|now apply IH].
      intro H. apply dict_set_key_in in H as [H | H]; auto.
Qed.
End SortedItems.

Lemma parse_fold_nodup (ms : list (string * string)) (d : dict GrammarRule) :
  List.NoDup (keys d) -> List.NoDup (keys (fold_left parse_step ms d)).
Proof.
  revert d; induction ms as [|[n b] ms IH]; intros d Hd; simpl; [exact Hd|].
  apply IH. destruct (_should_skip_rule n); [exact Hd|].
  now apply dict_set_nodup.
Qed.

Lemma parse_keys_nodup (content : string) : List.NoDup (keys (parse content)).
Proof. apply parse_fold_nodup. apply List.NoDup_nil. Qed.

(** * Further properties of the parser *)

(** ** What the scans return *)

Lemma scan_match_origin {A : Type} (pattern : string -> option (A * string))
    (n : nat) (s : string) (a : A) :
  In (inr a) (Re.scan pattern n s) ->
  exists s' r, pattern s' = Some (a, r).
Proof.
  revert s; induction n as [|n IH]; intro s; simpl; [intros []|].
  destruct (pattern s) as [[a' r]|] eqn:E.
  - intros [H | H]; [injection H as ->; now exists s, r | now apply (IH r)].
  - destruct s as [|c s]; [intros []|].
    intros [H | H]; [discriminate | now apply (IH s)].
Qed.

Lemma matches_of_in {A : Type} (l : list (ascii + A)) (a : A) :
  In a (Re.matches_of l) <-> In (inr a) l.
Proof.
  induction l as [|[c|a'] l IH]; simpl; [tauto | |].
  - rewrite IH. split; [now right | intros [H | H]; [discriminate | exact H]].
  - rewrite IH. split; intros [H | H]; auto; left; congruence.
Qed.

Lemma finditer_origin {A : Type} (pattern : string -> option (A * string))
    (s : string) (a : A) :
  In a (Re.finditer pattern s) -> exists s' r, pattern s' = Some (a, r).
Proof.
  unfold Re.finditer, Re.tokens. rewrite matches_of_in.
  apply scan_match_origin.
Qed.

Lemma scan_rules_origin (n : nat) (b : bool) (s : string) (m : string * string) :
  In m (Re.scan_rules n b s) ->
  exists s' r, Re.rule_pattern s' = Some (fst m, snd m, r).
Proof.
  revert b s; induction n as [|n IH]; intros b s; simpl; [intros []|].
  destruct (if b then Re.rule_pattern s else None) as [[[rn rb] r]|] eqn:E.
  - intros [<- | H]; [|now apply (IH false r)].
    destruct b; [|discriminate]. now exists s, r.
  - destruct s as [|c s]; [intros []|]. apply IH.
Qed.

Lemma span_all (p : ascii -> bool) (s : string) :
  all_chars p (fst (Re.span p s)) = true.
Proof.
  unfold all_chars. induction s as [|c s IH]; simpl; [reflexivity|].
  destruct (p c) eqn:E; [|reflexivity].
  destruct (Re.span p s) as [a b]. simpl in *. now rewrite E, IH.
Qed.

Lemma ident_shape (start cont : ascii -> bool) (s g r : string) :
  (forall c, start c = true -> cont c = true) ->
  Re.ident start cont s = Some (g, r) ->
  starts_with start g = true /\ all_chars cont g = true.
Proof.
  intros Hsc. destruct s as [|c s]; simpl; [discriminate|].
  destruct (start c) eqn:E; [|discriminate].
  pose proof (span_all cont s) as Hall.
  destruct (Re.span cont s) as [a b]. simpl in Hall.
  intro H. injection H as <- <-. split; [exact E|].
  unfold all_chars in *. simpl. now rewrite (Hsc c E), Hall.
Qed.

Lemma lower_start_cont (c : ascii) :
  Re.lower_start c = true -> Re.lower_cont c = true.
Proof.
  unfold Re.lower_start, Re.lower_cont.
  destruct (Py.islower_az c), (Py.isdigit_09 c), (Ascii.eqb c "_"); auto.
Qed.

Lemma upper_start_cont (c : ascii) :
  Re.upper_start c = true -> Re.upper_cont c = true.
Proof.
  unfold Re.upper_start, Re.upper_cont.
  destruct (Py.isupper_AZ c), (Py.isdigit_09 c), (Ascii.eqb c "_"); auto.
Qed.

Lemma lower_ident_shape (s g r : string) :
  Re.lower_ident s = Some (g, r) -> lower_identifier g = true.
Proof.
  intro H. apply (ident_shape _ _ _ _ _ lower_start_cont) in H as [H1 H2].
  unfold lower_identifier. now rewrite H1, H2.
Qed.

(** The second alternative of the element pattern is tried only where the
    first fails, so its match starts with an upper-case letter. *)
Lemma upper_ident_shape (s g r : string) :
  Re.lower_ident s = None ->
  Re.upper_ident s = Some (g, r) -> upper_identifier g = true.
Proof.
  intros Hl H.
  pose proof (ident_shape _ _ _ _ _ upper_start_cont H) as [H1 H2].
  unfold upper_identifier. rewrite H2, andb_true_r.
  destruct s as [|c s]; [discriminate|].
  unfold Re.lower_ident, Re.upper_ident, Re.ident in *.
  destruct (Re.lower_start c) eqn:El.
  { destruct (Re.span Re.lower_cont s); discriminate. }
  destruct (Re.upper_start c) eqn:Eu; [|discriminate].
  destruct (Re.span Re.upper_cont s) as [a b]. injection H as <- <-. simpl.
  unfold Re.lower_start, Re.upper_start in *.
  destruct (Py.isupper_AZ c); [reflexivity|].
  destruct (Ascii.eqb c "_"); [|discriminate].
  now rewrite orb_true_r in El.
Qed.

Lemma quoted_is_literal (q : ascii) (s g r : string) :
  q = Re.squote \/ q = Re.dquote ->
  Re.quoted q s = Some (g, r) -> is_literal g = true.
Proof.
  intros Hq. destruct s as [|c s]; simpl; [discriminate|].
  destruct (Ascii.eqb c q); [|discriminate].
  destruct (Re.span (fun x => negb (Ascii.eqb x q)) s) as [[|i inner] [|d rest]];
    try discriminate.
  intro H. injection H as <- <-. simpl.
  destruct Hq as [-> | ->]; reflexivity.
Qed.

Lemma element_pattern_groups (s g1 g2 r : string) :
  Re.element_pattern s = Some (g1, g2, r) ->
  (lower_identifier g1 = true \/ upper_identifier g1 = true
   \/ is_literal g1 = true)
  /\ is_cardinality g2 = true.
Proof.
  unfold Re.element_pattern.
  set (g := match Re.lower_ident s with
            | Some x => Some x
            | None => match Re.upper_ident s with
                      | Some x => Some x
                      | None => match Re.quoted Re.squote s with
                                | Some x => Some x
                                | None => Re.quoted Re.dquote s
                                end
                      end
            end).
  assert (Hg : forall n rest, g = Some (n, rest) ->
                 lower_identifier n = true \/ upper_identifier n = true
                 \/ is_literal n = true).
  { unfold g. intros n rest.
    destruct (Re.lower_ident s) as [[a b]|] eqn:E1.
    { intro E. injection E as <- <-. left. now apply lower_ident_shape in E1. }
    destruct (Re.upper_ident s) as [[a b]|] eqn:E2.
    { intro E. injection E as <- <-. right. left.
      now apply (upper_ident_shape s a b). }
    destruct (Re.quoted Re.squote s) as [[a b]|] eqn:E3.
    { intro E. injection E as <- <-. right. right.
      apply (quoted_is_literal Re.squote s a b); auto. }
    intro E. right. right. apply (quoted_is_literal Re.dquote s n rest); auto. }
  destruct g as [[n rest]|]; [|discriminate].
  specialize (Hg n rest eq_refl).
  destruct rest as [|c rest'].
  - intro E. injection E as <- <- <-. now split.
  - destruct (Re.is_suffix_char c) eqn:Ec; intro E; injection E as <- <- <-;
      (split; [exact Hg|]); [|reflexivity].
    unfold Re.is_suffix_char in Ec. unfold is_cardinality.
    destruct (Ascii.eqb_spec c "?") as [-> | _]; [reflexivity|].
    destruct (Ascii.eqb_spec c "*") as [-> | _]; [reflexivity|].
    destruct (Ascii.eqb_spec c "+") as [-> | _]; [reflexivity|].
    discriminate.
Qed.

Lemma lower_start_not_upper (c : ascii) :
  Re.lower_start c = true -> Py.isupper c = false.
Proof. destruct c as [[] [] [] [] [] [] [] []]; vm_compute; congruence. Qed.

Lemma upper_AZ_isupper (c : ascii) :
  Py.isupper_AZ c = true -> Py.isupper c = true.
Proof. unfold Py.isupper. now intros ->. Qed.

Lemma identifier_not_literal (s : string) :
  lower_identifier s = true \/ upper_identifier s = true ->
  is_literal s = false.
Proof.
  unfold lower_identifier, upper_identifier.
  destruct s as [|c s]; [reflexivity|]. simpl.
  intros [H | H]; apply andb_prop in H as [H _]; revert H;
    destruct c as [[] [] [] [] [] [] [] []]; vm_compute; congruence.
Qed.

Lemma elements_of_matches_shape (ms : list (string * string)) :
  Forall (fun m => (lower_identifier (fst m) = true
                    \/ upper_identifier (fst m) = true
                    \/ is_literal (fst m) = true)
                   /\ is_cardinality (snd m) = true) ms ->
  forall e, In e (elements_of_matches ms) ->
    is_cardinality (cardinality e) = true
    /\ ((lower_identifier (name e) = true
         /\ is_token e = false /\ is_rule_ref e = true)
        \/ (upper_identifier (name e) = true
            /\ is_token e = true /\ is_rule_ref e = false)).
Proof.
  induction ms as [|[n c] ms IH]; intros Hall e; simpl; [intros []|].
  apply List.Forall_cons_iff in Hall as [[Hn Hc] Hall]. simpl in Hn, Hc.
  destruct (is_literal n) eqn:El; [now apply IH|].
  intros [<- | Hin]; [|now apply IH]. simpl. split; [exact Hc|].
  destruct Hn as [Hn | [Hn | Hn]]; [left | right | congruence].
  - split; [exact Hn|].
    unfold lower_identifier in Hn. apply andb_prop in Hn as [Hn _].
    destruct n as [|c0 n]; [discriminate|]. simpl in *.
    now rewrite (lower_start_not_upper c0 Hn).
  - split; [exact Hn|].
    unfold upper_identifier in Hn. apply andb_prop in Hn as [Hn _].
    destruct n as [|c0 n]; [discriminate|]. simpl in *.
    now rewrite (upper_AZ_isupper c0 Hn).
Qed.

(** X1. Every element the tokenizer makes carries one of the four
    cardinalities and is of exactly one kind: a rule reference whose name is
    a lower-case identifier, or a token whose name is an upper-case
    identifier starting with a letter; quoted literals leave no element. *)
Theorem parse_alternative_elements :
  forall (alt_text : string) (e : RuleElement),
    In e (_parse_alternative alt_text) ->
    is_cardinality (cardinality e) = true
    /\ ((lower_identifier (name e) = true
         /\ is_token e = false /\ is_rule_ref e = true)
        \/ (upper_identifier (name e) = true
            /\ is_token e = true /\ is_rule_ref e = false))
    /\ is_literal (name e) = false.
Proof.
  intros alt_text e Hin.
  assert (H : is_cardinality (cardinality e) = true
              /\ ((lower_identifier (name e) = true
                   /\ is_token e = false /\ is_rule_ref e = true)
                  \/ (upper_identifier (name e) = true
                      /\ is_token e = true /\ is_rule_ref e = false))).
  { apply (elements_of_matches_shape
             (Re.finditer Re.element_pattern alt_text)); [|exact Hin].
    apply List.Forall_forall. intros [g1 g2] Hm.
    apply finditer_origin in Hm as (s' & r & Hm).
    now apply element_pattern_groups in Hm. }
  destruct H as [Hc Hk]. split; [exact Hc|]. split; [exact Hk|].
  apply identifier_not_literal. destruct Hk as [[H _] | [H _]]; auto.
Qed.

Lemma parse_alternative_elements_witness :
  is_cardinality "*" = true
  /\ ((lower_identifier "item" = true /\ false = false /\ true = true)
      \/ (upper_identifier "item" = true /\ false = true /\ true = false))
  /\ is_literal "item" = false.
Proof.
  apply (parse_alternative_elements "A 'lit' item* b?"
           (mkRuleElement "item" false "*" true)).
  vm_compute. right. left. reflexivity.
Defined.

(** ** Labels of parsed alternatives *)

Lemma label_pattern_shape (s g r : string) :
  Re.label_pattern s = Some (g, r) -> lower_identifier g = true.
Proof.
  destruct s as [|c s]; simpl; [discriminate|].
  destruct (Ascii.eqb_spec c "#") as [-> | Hne].
  - apply lower_ident_shape.
  - destruct c as [[] [] [] [] [] [] [] []]; try discriminate.
    now contradiction Hne.
Qed.

Lemma search_origin {A : Type} (pattern : string -> option (A * string))
    (s : string) (a : A) :
  Re.search pattern s = Some a -> exists s' r, pattern s' = Some (a, r).
Proof.
  unfold Re.search. intro H. apply (finditer_origin pattern s).
  destruct (Re.finditer pattern s) as [|x l]; [discriminate|].
  injection H as ->. now left.
Qed.

Lemma parsed_label_identifier (alt_text l : string) :
  label (parse_alt_text alt_text) = Some l ->
  lower_identifier l = true /\ label_truthy (Some l) = true.
Proof.
  unfold parse_alt_text.
  destruct (Re.search Re.label_pattern alt_text) as [l'|] eqn:E;
    simpl; [|discriminate].
  intro H. injection H as ->.
  apply search_origin in E as (s' & r & E).
  apply label_pattern_shape in E. split; [exact E|].
  unfold lower_identifier in E. now destruct l.
Qed.

(** X2. The label of a parsed alternative, when there is one, is a
    lower-case identifier, hence a non-empty string that counts as true in
    the label test of the class generator; and a text in which no marker
    starts has no label and is tokenized as it stands. *)
Theorem parsed_label_shape :
  (forall alt_text l : string,
      label (parse_alt_text alt_text) = Some l ->
      lower_identifier l = true /\ label_truthy (Some l) = true)
  /\ (forall alt_text : string,
        marker_free alt_text = true ->
        parse_alt_text alt_text
        = mkAlternative None (_parse_alternative alt_text)).
Proof.
  split.
  - apply parsed_label_identifier.
  - intros alt_text Hfree. unfold parse_alt_text, Re.search, Re.finditer.
    now rewrite (tokens_label_free alt_text Hfree), matches_of_chars.
Qed.

Lemma parsed_label_shape_witness :
  (lower_identifier "alt_a" = true /\ label_truthy (Some "alt_a") = true)
  /\ parse_alt_text "a '#' B*"
     = mkAlternative None (_parse_alternative "a '#' B*").
Proof.
  split.
  - apply (proj1 parsed_label_shape "a #alt_a"). reflexivity.
  - apply (proj2 parsed_label_shape "a '#' B*"). reflexivity.
Defined.

(** ** The keys of the model *)

Lemma dict_get_none {V : Type} (d : dict V) (k : string) :
  dict_get d k = None <-> ~ In k (keys d).
Proof.
  induction d as [|[k' v'] d IH]; simpl; [tauto|].
  destruct (String.eqb_spec k' k) as [-> | Hne].
  - split; [discriminate | intro H; exfalso; apply H; now left].
  - rewrite IH. split; [intros H [E | Hin]; auto | intros H Hin; apply H; now right].
Qed.

Lemma parse_fold_keys (ms : list (string * string)) (d : dict GrammarRule)
    (k : string) :
  In k (keys (fold_left parse_step ms d)) ->
  In k (keys d)
  \/ (_should_skip_rule k = false /\ exists b, In (k, b) ms).
Proof.
  revert d; induction ms as [|[n b] ms IH]; intro d; simpl; [now left|].
  intro H. apply IH in H as [H | (Hs & b' & Hin)].
  - destruct (_should_skip_rule n) eqn:Es; [now left|].
    apply dict_set_key_in in H as [-> | H]; [|now left].
    right. split; [exact Es|]. exists b. now left.
  - right. split; [exact Hs|]. exists b'. now right.
Qed.

Lemma rule_pattern_name (s n b r : string) :
  Re.rule_pattern s = Some (n, b, r) -> lower_identifier n = true.
Proof.
  unfold Re.rule_pattern.
  destruct (Re.lower_ident s) as [[n' r1]|] eqn:E1; [|discriminate].
  apply lower_ident_shape in E1.
  destruct (Re.skip_spaces r1) as [|c r2]; [discriminate|].
  destruct (Ascii.eqb_spec c ":") as [-> | Hne].
  - destruct (Re.body_pattern r2) as [[b' r']|]; [|discriminate].
    intro E. now injection E as <- <- <-.
  - destruct c as [[] [] [] [] [] [] [] []]; try discriminate.
    now contradiction Hne.
Qed.

(** X3. The model never holds an excluded rule name: every key is a
    lower-case identifier that the rule pattern matched and that is not in
    the skip set, and looking up an excluded name finds nothing.  When the
    grammar defines a name more than once, the model holds the rule parsed
    from the last body found under that name. *)
Theorem model_keys :
  (forall content k : string,
      In k (keys (parse content)) ->
      _should_skip_rule k = false
      /\ lower_identifier k = true
      /\ exists rule_body, In (k, rule_body) (Re.finditer_rules content))
  /\ (forall content k : string,
        _should_skip_rule k = true -> dict_get (parse content) k = None)
  /\ (forall (content n b : string) (before after : list (string * string)),
        Re.finditer_rules content = before ++ (n, b) :: after ->
        (forall b', ~ In (n, b') after) ->
        _should_skip_rule n = false ->
        dict_get (parse content) n = Some (_parse_rule n b)).
Proof.
  split; [|split].
  - intros content k Hin. unfold parse in Hin.
    apply parse_fold_keys in Hin as [[] | (Hs & b & Hin)].
    split; [exact Hs|]. split; [|now exists b].
    unfold Re.finditer_rules in Hin.
    apply scan_rules_origin in Hin as (s' & r & Hin).
    now apply rule_pattern_name in Hin.
  - intros content k Hs. apply dict_get_none. intro Hin.
    unfold parse in Hin.
    apply parse_fold_keys in Hin as [[] | (Hs' & _)]. congruence.
  - intros content n b before after Hms Hlast Hs. unfold parse.
    rewrite Hms, fold_left_app. cbn [fold_left].
    destruct (parse_fold_get after
                (parse_step (fold_left parse_step before []) (n, b)) n Hs)
      as [(b' & Hin & _) | [_ Hget]].
    + exfalso. now apply (Hlast b').
    + rewrite Hget. unfold parse_step. rewrite Hs. apply dict_get_set_eq.
Qed.

Lemma model_keys_witness :
  (_should_skip_rule "expr" = false
   /\ lower_identifier "expr" = true
   /\ exists rule_body,
       In ("expr", rule_body)
          (Re.finditer_rules ("expr : a ;" +:+ LF +:+ "expr : b c ;")))
  /\ dict_get (parse ("sql_script : a ;" +:+ LF +:+ "expr : b ;"))
       "sql_script" = None
  /\ dict_get (parse ("expr : a ;" +:+ LF +:+ "expr : b c ;")) "expr"
     = Some (_parse_rule "expr" "b c").
Proof.
  pose proof model_keys as (H1 & H2 & H3).
  split; [|split].
  - apply H1. vm_compute. left. reflexivity.
  - apply H2. reflexivity.
  - apply (H3 _ "expr" "b c" [("expr", "a")] []).
    + vm_compute. reflexivity.
    + intros b' [].
    + reflexivity.
Defined.

(** ** Text without a rule *)

Lemma has_char_span (c : ascii) (p : ascii -> bool) (s : string) :
  has_char c (snd (Re.span p s)) = true -> has_char c s = true.
Proof.
  unfold has_char. induction s as [|x s IH]; simpl; [auto|].
  destruct (p x); [|auto].
  destruct (Re.span p s) as [a b]. simpl in *.
  intro H. rewrite (IH H). apply orb_true_r.
Qed.

Lemma has_char_ident (c : ascii) (start cont : ascii -> bool) (s g r : string) :
  Re.ident start cont s = Some (g, r) ->
  has_char c r = true -> has_char c s = true.
Proof.
  destruct s as [|x s]; simpl; [discriminate|].
  destruct (start x); [|discriminate].
  pose proof (has_char_span c cont s) as H.
  destruct (Re.span cont s) as [a b]. simpl in H.
  intro E. injection E as <- <-. intro Hr.
  unfold has_char in *. simpl. rewrite (H Hr). apply orb_true_r.
Qed.

Lemma terminator_semicolon (s r : string) :
  Re.terminator s = Some r -> has_char ";" s = true.
Proof.
  unfold Re.terminator, Re.skip_spaces. intro H.
  apply (has_char_span ";" Py.isspace).
  destruct (snd (Re.span Py.isspace s)) as [|c t]; [discriminate|].
  destruct (Ascii.eqb_spec c ";") as [-> | Hne]; [reflexivity|].
  destruct c as [[] [] [] [] [] [] [] []]; try discriminate.
  now contradiction Hne.
Qed.

Lemma lazy_until_terminator_semicolon (s b r : string) :
  Re.lazy_until_terminator s = Some (b, r) -> has_char ";" s = true.
Proof.
  revert b r; induction s as [|c s IH]; intros b r; simpl.
  - destruct (Re.terminator EmptyString) eqn:E; [|discriminate].
    intros _. now apply terminator_semicolon in E.
  - destruct (Re.terminator (String c s)) as [rest|] eqn:E.
    + intros _. now apply terminator_semicolon in E.
    + destruct (Re.lazy_until_terminator s) as [[b' r']|]; [|discriminate].
      intros _. unfold has_char in *. simpl.
      rewrite (IH b' r' eq_refl). apply orb_true_r.
Qed.

Lemma lazy_body_semicolon (s b r : string) :
  Re.lazy_body s = Some (b, r) -> has_char ";" s = true.
Proof.
  destruct s as [|c s]; simpl; [discriminate|].
  destruct (Re.lazy_until_terminator s) as [[b' r']|] eqn:E; [|discriminate].
  intros _. apply lazy_until_terminator_semicolon in E.
  unfold has_char in *. simpl. rewrite E. apply orb_true_r.
Qed.

Lemma body_pattern_semicolon (s b r : string) :
  Re.body_pattern s = Some (b, r) -> has_char ";" s = true.
Proof.
  revert b r; induction s as [|c s IH]; intros b r; simpl; [discriminate|].
  destruct (Py.isspace c).
  - destruct (Re.body_pattern s) as [[b' r']|].
    + intros _. unfold has_char in *. simpl.
      rewrite (IH b' r' eq_refl). apply orb_true_r.
    + apply (lazy_body_semicolon (String c s)).
  - apply (lazy_body_semicolon (String c s)).
Qed.

Lemma rule_pattern_needs (s n b r : string) :
  Re.rule_pattern s = Some (n, b, r) ->
  has_char ":" s = true /\ has_char ";" s = true.
Proof.
  unfold Re.rule_pattern.
  destruct (Re.lower_ident s) as [[n' r1]|] eqn:E1; [|discriminate].
  unfold Re.skip_spaces.
  destruct (snd (Re.span Py.isspace r1)) as [|c r2] eqn:E2; [discriminate|].
  destruct (Ascii.eqb_spec c ":") as [-> | Hne].
  - destruct (Re.body_pattern r2) as [[b' r']|] eqn:E3; [|discriminate].
    intros _. apply body_pattern_semicolon in E3.
    split; apply (has_char_ident _ _ _ _ _ _ E1);
      apply (has_char_span _ Py.isspace); rewrite E2; unfold has_char in *;
      simpl; [reflexivity | now rewrite E3].
  - destruct c as [[] [] [] [] [] [] [] []]; try discriminate.
    now contradiction Hne.
Qed.

Lemma scan_rules_without (c : ascii) (n : nat) (b : bool) (s : string) :
  (forall t x y r, Re.rule_pattern t = Some (x, y, r) -> has_char c t = true) ->
  has_char c s = false -> Re.scan_rules n b s = [].
Proof.
  intro Hneeds. revert b s; induction n as [|n IH]; intros b s Hs; simpl;
    [reflexivity|].
  destruct (if b then Re.rule_pattern s else None) as [[[rn rb] r]|] eqn:E.
  - destruct b; [|discriminate]. apply Hneeds in E. congruence.
  - destruct s as [|x s]; [reflexivity|]. apply IH.
    unfold has_char in *. simpl in Hs. now apply orb_false_elim in Hs as [_ Hs].
Qed.

(** X4. A grammar text without a colon, or without a semicolon, holds no
    rule: extraction returns the empty model for it, without any report. *)
Theorem no_rule_without_colon_and_semicolon :
  forall content : string,
    has_char ":" content = false \/ has_char ";" content = false ->
    Re.finditer_rules content = [] /\ parse content = [].
Proof.
  intros content H.
  assert (E : Re.finditer_rules content = []).
  { unfold Re.finditer_rules. destruct H as [H | H].
    - apply (scan_rules_without ":"); [|exact H].
      intros t x y r Ht. now apply rule_pattern_needs in Ht.
    - apply (scan_rules_without ";"); [|exact H].
      intros t x y r Ht. now apply rule_pattern_needs in Ht. }
  split; [exact E|]. unfold parse. now rewrite E.
Qed.

Lemma no_rule_without_colon_and_semicolon_witness :
  (Re.finditer_rules "expr : term '+' term" = []
   /\ parse "expr : term '+' term" = [])
  /\ (Re.finditer_rules "grammar PlSql;" = [] /\ parse "grammar PlSql;" = []).
Proof.
  split.
  - apply no_rule_without_colon_and_semicolon. right. reflexivity.
  - apply no_rule_without_colon_and_semicolon. left. reflexivity.
Defined.

(** ** Splitting at a top-level bar *)

Lemma split_step_parts_prefix (p : list string) (st : split_state) (c : ascii) :
  split_step (mkSplit (p ++ parts st) (current st) (depth st)) c
  = mkSplit (p ++ parts (split_step st c)) (current (split_step st c))
            (depth (split_step st c)).
Proof.
  unfold split_step. simpl.
  destruct (is_open c); [reflexivity|].
  destruct (is_close c); [reflexivity|].
  destruct (is_bar c && (depth st =? 0)%Z); simpl; [|reflexivity].
  now rewrite <- app_assoc.
Qed.

Lemma fold_split_parts_prefix (p : list string) (l : list ascii)
    (st : split_state) :
  fold_left split_step l (mkSplit (p ++ parts st) (current st) (depth st))
  = let st' := fold_left split_step l st in
    mkSplit (p ++ parts st') (current st') (depth st').
Proof.
  revert st; induction l as [|c l IH]; intro st; simpl; [reflexivity|].
  rewrite split_step_parts_prefix. apply IH.
Qed.

Lemma fold_split_progress (l : list ascii) (st : split_state) :
  l <> [] ->
  parts (fold_left split_step l st) <> []
  \/ current (fold_left split_step l st) <> [].
Proof.
  intro Hne. destruct (List.exists_last Hne) as (l' & c & ->).
  rewrite fold_left_app. simpl.
  set (s := fold_left split_step l' st).
  unfold split_step.
  destruct (is_open c); [right; simpl; now destruct (current s)|].
  destruct (is_close c); [right; simpl; now destruct (current s)|].
  destruct (is_bar c && (depth s =? 0)%Z); simpl.
  - left. now destruct (parts s).
  - right. now destruct (current s).
Qed.

(** X5. Splitting is by the first top-level bar: for a text [a] free of
    brackets and bars, the split of [a|b] is the stripped [a] followed by
    the split of [b]; when nothing follows the bar the result is the
    stripped [a] alone, so a trailing empty alternative is dropped while a
    leading or inner one is kept as the empty string.  A non-empty text free
    of brackets and bars is a single alternative. *)
Theorem split_at_first_bar :
  (forall a b : string,
      plain a = true ->
      _split_alternatives (a +:+ "|" +:+ b)
      = Py.strip a :: match b with
                      | EmptyString => []
                      | String _ _ => _split_alternatives b
                      end)
  /\ (forall a : string,
        plain a = true -> a <> EmptyString ->
        _split_alternatives a = [Py.strip a]).
Proof.
  split.
  - intros a b Ha.
    apply plain_bracket_free in Ha as [Ha1 Ha2].
    unfold _split_alternatives, split_loop.
    rewrite list_ascii_of_string_app, fold_left_app.
    rewrite (fold_split_inert (list_ascii_of_string a));
      [| exact Ha1 | now left].
    string_app_step. cbn [list_ascii_of_string fold_left].
    rewrite split_step_bar. cbn [parts current depth split_init Z.eqb app].
    unfold Py.join_chars. rewrite string_of_list_ascii_of_string.
    assert (Hp : fold_left split_step (list_ascii_of_string b)
                   (mkSplit [Py.strip a] [] 0)
                 = let st' := fold_left split_step (list_ascii_of_string b)
                                split_init in
                   mkSplit (Py.strip a :: parts st') (current st') (depth st'))
      by exact (fold_split_parts_prefix [Py.strip a]
                  (list_ascii_of_string b) split_init).
    rewrite Hp. cbv zeta. cbn [parts current depth].
    destruct b as [|c b]; [reflexivity|].
    destruct (fold_split_progress (list_ascii_of_string (String c b))
                split_init) as [Hne | Hne]; [discriminate | |].
    + destruct (current (fold_left split_step
                           (list_ascii_of_string (String c b)) split_init));
        destruct (parts (fold_left split_step
                           (list_ascii_of_string (String c b)) split_init));
        try congruence; reflexivity.
    + destruct (current (fold_left split_step
                           (list_ascii_of_string (String c b)) split_init))
        as [|x cur]; [congruence|].
      destruct (parts (fold_left split_step
                         (list_ascii_of_string (String c b)) split_init));
        reflexivity.
  - intros a Ha Hne.
    apply plain_bracket_free in Ha as [Ha1 Ha2].
    unfold _split_alternatives, split_loop.
    rewrite fold_split_inert; [| exact Ha1 | now left].
    cbn [parts current depth split_init app].
    destruct a as [|c a]; [congruence|].
    cbn [list_ascii_of_string].
    change (c :: list_ascii_of_string a)
      with (list_ascii_of_string (String c a)).
    unfold Py.join_chars. now rewrite string_of_list_ascii_of_string.
Qed.

Lemma split_at_first_bar_witness :
  _split_alternatives "a b | c | d" = ["a b"; "c"; "d"]
  /\ _split_alternatives "a |" = ["a"]
  /\ _split_alternatives "| a" = [EmptyString; "a"]
  /\ _split_alternatives " a b " = ["a b"].
Proof.
  split; [|split; [|split]].
  - apply (proj1 split_at_first_bar "a b " " c | d"). reflexivity.
  - apply (proj1 split_at_first_bar "a " EmptyString). reflexivity.
  - apply (proj1 split_at_first_bar EmptyString " a"). reflexivity.
  - apply (proj2 split_at_first_bar " a b "); [reflexivity | discriminate].
Defined.

(** * Further properties of the generators *)

(** ** Name transforms *)

Lemma has_char_app (c : ascii) (a b : string) :
  has_char c (a +:+ b) = has_char c a || has_char c b.
Proof.
  unfold has_char. rewrite list_ascii_of_string_app. apply existsb_app.
Qed.

Lemma split_not_nil (sep : ascii) (s : string) : Py.split sep s <> [].
Proof.
  induction s as [|c s IH]; simpl; [discriminate|].
  destruct (Ascii.eqb c sep); [discriminate|].
  destruct (Py.split sep s); [congruence | discriminate].
Qed.

Lemma split_parts_no_sep (sep : ascii) (s : string) :
  Forall (fun w => has_char sep w = false) (Py.split sep s).
Proof.
  induction s as [|c s IH]; simpl.
  - constructor; [reflexivity | constructor].
  - destruct (Ascii.eqb c sep) eqn:E.
    + constructor; [reflexivity | exact IH].
    + destruct (Py.split sep s) as [|w ws].
      { constructor; [|constructor].
        unfold has_char. simpl. now rewrite Ascii.eqb_sym, E. }
      apply List.Forall_cons_iff in IH as [Hw Hws].
      constructor; [|exact Hws].
      unfold has_char in *. simpl. rewrite Ascii.eqb_sym, E. exact Hw.
Qed.

Lemma split_parts_chars (p : ascii -> bool) (sep : ascii) (s : string) :
  all_chars p s = true ->
  Forall (fun w => all_chars p w = true) (Py.split sep s).
Proof.
  unfold all_chars. induction s as [|c s IH]; simpl; intro H.
  - constructor; [reflexivity | constructor].
  - apply andb_prop in H as [Hc Hs]. specialize (IH Hs).
    destruct (Ascii.eqb c sep).
    + constructor; [reflexivity | exact IH].
    + destruct (Py.split sep s) as [|w ws].
      { constructor; [|constructor]. simpl. now rewrite Hc. }
      apply List.Forall_cons_iff in IH as [Hw Hws].
      constructor; [|exact Hws]. simpl. now rewrite Hc, Hw.
Qed.

Lemma case_keeps_non_underscore (c : ascii) :
  Ascii.eqb "_" c = false ->
  Ascii.eqb "_" (Py.upper c) = false /\ Ascii.eqb "_" (Py.lower c) = false.
Proof. destruct c as [[] [] [] [] [] [] [] []]; vm_compute; intuition. Qed.

Lemma lower_no_underscore (w : string) :
  has_char "_" w = false -> has_char "_" (Py.map_string Py.lower w) = false.
Proof.
  unfold has_char. induction w as [|x w IH];
    cbn [Py.map_string list_ascii_of_string existsb]; [auto|].
  intro H. apply orb_false_elim in H as [Hx Hw].
  now rewrite (proj2 (case_keeps_non_underscore x Hx)), IH.
Qed.

Lemma capitalize_no_underscore (w : string) :
  has_char "_" w = false -> has_char "_" (Py.capitalize w) = false.
Proof.
  destruct w as [|c w]; [auto|]. intro H.
  pose proof (lower_no_underscore w) as Hl. unfold has_char in *.
  cbn [Py.capitalize list_ascii_of_string existsb] in *.
  apply orb_false_elim in H as [Hc Hw].
  now rewrite (proj1 (case_keeps_non_underscore c Hc)), Hl.
Qed.

Lemma join_empty_cons (x : string) (l : list string) :
  Py.join EmptyString (x :: l) = x +:+ Py.join EmptyString l.
Proof.
  destruct l as [|y l]; simpl; [now rewrite string_app_nil_r | reflexivity].
Qed.

Lemma join_empty_no_char (c : ascii) (l : list string) :
  Forall (fun w => has_char c w = false) l ->
  has_char c (Py.join EmptyString l) = false.
Proof.
  induction l as [|x l IH]; intro H; [reflexivity|].
  apply List.Forall_cons_iff in H as [Hx Hl].
  now rewrite join_empty_cons, has_char_app, Hx, IH.
Qed.

Lemma capitalized_parts_no_underscore (l : list string) :
  Forall (fun w => has_char "_" w = false) l ->
  Forall (fun w => has_char "_" w = false) (map Py.capitalize l).
Proof.
  induction 1; simpl; constructor; auto using capitalize_no_underscore.
Qed.

Lemma lower_cont_lower (w : string) :
  all_chars Re.lower_cont w = true -> Py.map_string Py.lower w = w.
Proof.
  unfold all_chars. induction w as [|c w IH]; simpl; [reflexivity|].
  intro H. apply andb_prop in H as [Hc Hw]. rewrite (IH Hw). f_equal.
  revert Hc. destruct c as [[] [] [] [] [] [] [] []]; vm_compute; congruence.
Qed.

Lemma upper_of_lower_letter (c : ascii) :
  Py.islower_az c = true ->
  Py.isupper_AZ (Py.upper c) = true /\ Ascii.eqb c "_" = false.
Proof. destruct c as [[] [] [] [] [] [] [] []]; vm_compute; intuition. Qed.

Lemma capitalize_empty (w : string) :
  Py.capitalize w = EmptyString <-> w = EmptyString.
Proof. destruct w; simpl; split; congruence. Qed.

Lemma string_app_empty (a b : string) :
  a +:+ b = EmptyString <-> a = EmptyString /\ b = EmptyString.
Proof.
  destruct a; string_app_step; split;
    [intros ->; now split | now intros [_ ->] | discriminate | intros [H _]; discriminate].
Qed.

Lemma join_capitalized_empty (l : list string) :
  Py.join EmptyString (map Py.capitalize l) = EmptyString
  <-> Forall (fun w => w = EmptyString) l.
Proof.
  induction l as [|x l IH]; [split; [constructor | reflexivity]|].
  cbn [map]. rewrite join_empty_cons, string_app_empty, capitalize_empty, IH.
  rewrite List.Forall_cons_iff. tauto.
Qed.

Lemma split_all_empty (sep : ascii) (s : string) :
  Forall (fun w => w = EmptyString) (Py.split sep s)
  <-> all_chars (Ascii.eqb sep) s = true.
Proof.
  unfold all_chars. induction s as [|c s IH]; simpl.
  - split; [reflexivity | repeat constructor].
  - rewrite (Ascii.eqb_sym sep c). destruct (Ascii.eqb c sep); simpl.
    + rewrite List.Forall_cons_iff, IH. tauto.
    + split; [|discriminate]. intro H.
      destruct (Py.split sep s);
        apply List.Forall_cons_iff in H as [H _]; discriminate.
Qed.

Lemma camel_case_empty (s : string) :
  _to_camel_case s = EmptyString <-> all_chars (Ascii.eqb "_") s = true.
Proof.
  rewrite <- split_all_empty. unfold _to_camel_case.
  pose proof (split_not_nil "_" s) as Hne.
  destruct (Py.split "_" s) as [|c0 comps]; [congruence|].
  rewrite string_app_empty, join_capitalized_empty, List.Forall_cons_iff.
  tauto.
Qed.

(** X6. Neither a class name nor a field name ever holds an underscore.
    For a name that is a lower-case identifier starting with a letter, the
    class name is the field name with its first letter in upper case, so it
    starts with an upper-case letter and equals the suffix of the getter
    name; and a field name is empty exactly for a name made of underscores
    only. *)
Theorem name_transforms :
  (forall s : string,
      has_char "_" (_rule_to_class_name s) = false
      /\ has_char "_" (_to_camel_case s) = false)
  /\ (forall s : string,
        lower_identifier s = true -> starts_with Py.islower_az s = true ->
        exists c rest,
          _to_camel_case s = String c rest
          /\ _rule_to_class_name s = String (Py.upper c) rest
          /\ Py.isupper_AZ (Py.upper c) = true)
  /\ (forall s : string,
        _to_camel_case s = EmptyString
        <-> all_chars (Ascii.eqb "_") s = true).
Proof.
  split; [|split; [|exact camel_case_empty]].
  - intro s. pose proof (split_parts_no_sep "_" s) as Hparts. split.
    + unfold _rule_to_class_name.
      now apply join_empty_no_char, capitalized_parts_no_underscore.
    + unfold _to_camel_case.
      destruct (Py.split "_" s) as [|c0 comps]; [reflexivity|].
      apply List.Forall_cons_iff in Hparts as [H0 Hc].
      rewrite has_char_app, H0. simpl.
      now apply join_empty_no_char, capitalized_parts_no_underscore.
  - intros s Hid Hletter.
    destruct s as [|c s]; [discriminate|]. simpl in Hletter.
    destruct (upper_of_lower_letter c Hletter) as [Hup Hnot].
    unfold lower_identifier in Hid. apply andb_prop in Hid as [_ Hall].
    unfold all_chars in Hall. simpl in Hall.
    apply andb_prop in Hall as [_ Hall].
    pose proof (split_parts_chars Re.lower_cont "_" s Hall) as Hparts.
    pose proof (split_not_nil "_" s) as Hne.
    unfold _to_camel_case, _rule_to_class_name. simpl Py.split. rewrite Hnot.
    destruct (Py.split "_" s) as [|w ws]; [congruence|].
    apply List.Forall_cons_iff in Hparts as [Hw _].
    exists c, (w +:+ Py.join EmptyString (map Py.capitalize ws)).
    split; [reflexivity|]. split; [|exact Hup].
    cbn [map]. rewrite join_empty_cons. simpl Py.capitalize.
    now rewrite (lower_cont_lower w Hw).
Qed.

Lemma name_transforms_witness :
  (exists c rest,
      _to_camel_case "select_list" = String c rest
      /\ _rule_to_class_name "select_list" = String (Py.upper c) rest
      /\ Py.isupper_AZ (Py.upper c) = true)
  /\ _to_camel_case "__" = EmptyString.
Proof.
  split.
  - apply (proj1 (proj2 name_transforms)); reflexivity.
  - apply (proj2 (proj2 name_transforms)). reflexivity.
Defined.

(** ** Getters *)

Lemma result_bind_return {A B : Type} (a : A) (k : A -> result B) :
  mbind k (Return a) = k a.
Proof. reflexivity. Qed.

Lemma result_bind_raise {A B : Type} (e : exn) (k : A -> result B) :
  mbind k (Raise e) = Raise e.
Proof. reflexivity. Qed.

Lemma fold_getters_raise (l : list RuleElement) (e : exn) :
  fold_left getters_step l (Raise e) = Raise e.
Proof. induction l as [|x l IH]; simpl; [reflexivity | exact IH]. Qed.

Lemma getters_step_kept (getters : list string) (seen_names : gset string)
    (elem : RuleElement) :
  is_rule_ref elem = true ->
  field_name_of elem ∉ seen_names ->
  getters_step (Return (getters, seen_names)) elem
  = (text ← getter_text elem;
     Return (getters ++ [text], seen_names ∪ {[ field_name_of elem ]})).
Proof.
  intros Href Hnew. unfold getters_step, getter_text, field_name_of in *.
  rewrite result_bind_return, Href. simpl negb. cbv iota.
  rewrite (bool_decide_eq_false_2 _ Hnew).
  now destruct (_to_camel_case (name elem)).
Qed.

Lemma getters_step_skipped (getters : list string) (seen_names : gset string)
    (elem : RuleElement) :
  is_rule_ref elem = false \/ field_name_of elem ∈ seen_names ->
  getters_step (Return (getters, seen_names)) elem
  = Return (getters, seen_names).
Proof.
  intros H. unfold getters_step, field_name_of in *.
  rewrite result_bind_return.
  destruct (is_rule_ref elem); simpl; [|reflexivity].
  destruct H as [H | H]; [discriminate|].
  now rewrite (bool_decide_eq_true_2 _ H).
Qed.

Lemma fold_getters (l : list RuleElement) (getters : list string)
    (seen_names : gset string) :
  (s ← fold_left getters_step l (Return (getters, seen_names));
   Return (fst s))
  = (texts ← collect getter_text (kept_from seen_names l);
     Return (getters ++ texts)).
Proof.
  revert getters seen_names; induction l as [|e l IH];
    intros getters seen_names.
  - cbn [fold_left kept_from collect]. rewrite !result_bind_return.
    simpl. now rewrite app_nil_r.
  - cbn [fold_left kept_from].
    destruct (is_rule_ref e) eqn:Href; simpl negb; cbv iota.
    2: { rewrite getters_step_skipped by now left. apply IH. }
    destruct (decide (field_name_of e ∈ seen_names)) as [Hin | Hnew].
    { rewrite getters_step_skipped by now right.
      rewrite (bool_decide_eq_true_2 _ Hin). apply IH. }
    rewrite (bool_decide_eq_false_2 _ Hnew).
    rewrite getters_step_kept by assumption.
    cbn [collect]. destruct (getter_text e) as [text | err].
    + rewrite !result_bind_return, IH.
      destruct (collect getter_text
                  (kept_from (seen_names ∪ {[field_name_of e]}) l)).
      * rewrite !result_bind_return. now rewrite <- app_assoc.
      * now rewrite !result_bind_raise.
    + rewrite !result_bind_raise, fold_getters_raise.
      now rewrite !result_bind_raise.
Qed.

Lemma getter_text_cases (e : RuleElement) :
  (field_name_of e = EmptyString /\ getter_text e = Raise IndexError)
  \/ (field_name_of e <> EmptyString /\ exists text, getter_text e = Return text).
Proof.
  unfold getter_text. destruct (field_name_of e); [left | right]; split;
    try reflexivity; [discriminate | eauto].
Qed.

Lemma collect_getters (l : list RuleElement) :
  ((exists e, In e l /\ field_name_of e = EmptyString)
   /\ collect getter_text l = Raise IndexError)
  \/ ((forall e, In e l -> field_name_of e <> EmptyString)
      /\ exists texts, collect getter_text l = Return texts
                       /\ length texts = length l).
Proof.
  induction l as [|x l IH]; cbn [collect].
  - right. split; [intros e []|]. now exists [].
  - destruct (getter_text_cases x) as [[Hx E] | [Hx (text & E)]]; rewrite E.
    + left. split; [exists x; split; [now left | exact Hx] | reflexivity].
    + rewrite result_bind_return.
      destruct IH as [[(e & He & Hn) E'] | [Hall (texts & E' & Hlen)]];
        rewrite E'.
      * left. split; [exists e; split; [now right | exact Hn] | reflexivity].
      * right. split.
        { intros e [<- | He]; [exact Hx | now apply Hall]. }
        exists (text :: texts). split; [reflexivity | simpl; now rewrite Hlen].
Qed.

Lemma generate_getters_collect (alt : Alternative) :
  _generate_getters alt
  = (texts ← collect getter_text (distinct_refs (elements alt));
     Return (Py.join (LF +:+ LF) texts)).
Proof.
  unfold _generate_getters.
  pose proof (fold_getters (elements alt) [] ∅) as H.
  rewrite kept_from_empty in H.
  destruct (fold_left getters_step (elements alt) (Return ([], ∅)))
    as [[g seen]|err];
    destruct (collect getter_text (distinct_refs (elements alt)));
    rewrite ?result_bind_return, ?result_bind_raise in *;
    simpl in *; congruence.
Qed.

(** X7. The getters are those of the distinct rule references, in order,
    joined by an empty line.  Generation fails, with IndexError, exactly
    when one of these references has a name made of underscores only, such
    as the element [_] that the element pattern accepts; otherwise it
    returns one getter per distinct rule reference. *)
Theorem getters_fail_on_underscore_names :
  forall alt : Alternative,
    _generate_getters alt
    = (texts ← collect getter_text (distinct_refs (elements alt));
       Return (Py.join (LF +:+ LF) texts))
    /\ (_generate_getters alt = Raise IndexError
        <-> exists e, In e (distinct_refs (elements alt))
                      /\ all_chars (Ascii.eqb "_") (name e) = true)
    /\ ((forall e, In e (distinct_refs (elements alt)) ->
                   all_chars (Ascii.eqb "_") (name e) = false) ->
        exists texts,
          collect getter_text (distinct_refs (elements alt)) = Return texts
          /\ length texts = length (distinct_refs (elements alt))
          /\ _generate_getters alt = Return (Py.join (LF +:+ LF) texts)).
Proof.
  intro alt. pose proof (generate_getters_collect alt) as E.
  split; [exact E|]. rewrite E.
  destruct (collect_getters (distinct_refs (elements alt)))
    as [[(e & He & Hn) E'] | [Hall (texts & E' & Hlen)]]; rewrite E'.
  - split.
    + split; [intros _ | reflexivity].
      exists e. split; [exact He | now apply camel_case_empty].
    + intro H. specialize (H e He).
      apply camel_case_empty in Hn. congruence.
  - split.
    + split; [discriminate|]. intros (e & He & Hn).
      exfalso. apply (Hall e He). now apply camel_case_empty.
    + intros _. exists texts. now repeat split.
Qed.

Lemma getters_fail_on_underscore_names_witness :
  elements (parse_alt_text "a _ b")
  = [mkRuleElement "a" false EmptyString true;
     mkRuleElement "_" false EmptyString true;
     mkRuleElement "b" false EmptyString true]
  /\ _generate_getters (parse_alt_text "a _ b") = Raise IndexError
  /\ exists texts,
       collect getter_text (distinct_refs (elements (parse_alt_text "a b?")))
       = Return texts
       /\ length texts
          = length (distinct_refs (elements (parse_alt_text "a b?")))
       /\ _generate_getters (parse_alt_text "a b?")
          = Return (Py.join (LF +:+ LF) texts).
Proof.
  split; [vm_compute; reflexivity|]. split.
  - apply (proj1 (proj2 (getters_fail_on_underscore_names
                           (parse_alt_text "a _ b")))).
    exists (mkRuleElement "_" false EmptyString true).
    split; [vm_compute; auto | reflexivity].
  - apply (proj2 (proj2 (getters_fail_on_underscore_names
                           (parse_alt_text "a b?")))).
    intros e He. vm_compute in He.
    destruct He as [<- | [<- | []]]; reflexivity.
Defined.

(** ** Constructor, fields and routine agree *)

Lemma fold_constructor_emit (l : list RuleElement)
    (acc : list string * list string) :
  fold_left (fun (a : list string * list string) e =>
               (fst a ++ [param_decl e], snd a ++ [assignment_line e])) l acc
  = (fst acc ++ map param_decl l, snd acc ++ map assignment_line l).
Proof.
  revert acc; induction l as [|e l IH]; intros [ps asg]; simpl.
  - now rewrite !app_nil_r.
  - rewrite IH. simpl. now rewrite <- !app_assoc.
Qed.

Lemma constructor_loop_distinct (alt : Alternative) :
  fst (fold_left constructor_step (elements alt) ([], [], ∅))
  = (map param_decl (distinct_refs (elements alt)),
     map assignment_line (distinct_refs (elements alt))).
Proof.
  rewrite (fold_left_ext_eq constructor_step
             (dedup_step (fun (a : list string * list string) e =>
                            (fst a ++ [param_decl e],
                             snd a ++ [assignment_line e])))).
  - change ([] : list string, [] : list string, ∅ : gset string)
      with (([] : list string, [] : list string), ∅ : gset string).
    rewrite fold_dedup, kept_from_empty, fold_constructor_emit. reflexivity.
  - intros [[params assignments] seen_names] e.
    unfold constructor_step, dedup_step, field_name_of.
    destruct (negb (is_rule_ref e)); [reflexivity|].
    destruct (bool_decide (_to_camel_case (name e) ∈ seen_names));
      reflexivity.
Qed.

Lemma distinct_refs_none (l : list RuleElement) :
  (forall e, In e l -> is_rule_ref e = false) -> distinct_refs l = [].
Proof.
  induction l as [|x l IH]; intro H; simpl; [reflexivity|].
  rewrite (H x) by now left. apply IH. intros e He. apply H. now right.
Qed.

(** X8. The constructor takes one parameter and makes one assignment per
    distinct rule reference, in the order of the fields, and the routine
    passes its arguments in that same order, so the declaration of the
    fields, the constructor and the [new] expression of the routine always
    have the same arity.  An alternative without a rule reference gives the
    comment in place of the fields, the constructor without parameters, no
    getter and a routine that only returns the new node. *)
Theorem fields_constructor_routine_agree :
  forall (rule : GrammarRule) (class_name : string) (alt : Alternative),
    let kept := distinct_refs (elements alt) in
    fields_of alt = map field_decl kept
    /\ fst (fold_left constructor_step (elements alt) ([], [], ∅))
       = (map param_decl kept, map assignment_line kept)
    /\ snd (fst (visit_loop rule alt))
       = map (fun e => snd (visit_lines rule e)) kept
    /\ _generate_constructor class_name alt
       = match kept with
         | [] =>
             "    public " +:+ class_name +:+ "() {" +:+ LF
             +:+ "        // No child nodes" +:+ LF +:+ "    }"
         | _ :: _ =>
             "    public " +:+ class_name +:+ "("
             +:+ Py.join ", " (map param_decl kept) +:+ ") {" +:+ LF
             +:+ Py.join LF (map assignment_line kept) +:+ LF +:+ "    }"
         end
    /\ ((forall e, In e (elements alt) -> is_rule_ref e = false) ->
        _generate_fields alt = "    // No child nodes"
        /\ _generate_constructor class_name alt
           = "    public " +:+ class_name +:+ "() {" +:+ LF
             +:+ "        // No child nodes" +:+ LF +:+ "    }"
        /\ _generate_getters alt = Return EmptyString
        /\ visit_body_lines rule alt
           = ["        return new " +:+ java_class_name rule +:+ "();"]).
Proof.
  intros rule class_name alt kept.
  pose proof (constructor_loop_distinct alt) as Hc. fold kept in Hc.
  assert (Hctor : _generate_constructor class_name alt
                  = match kept with
                    | [] =>
                        "    public " +:+ class_name +:+ "() {" +:+ LF
                        +:+ "        // No child nodes" +:+ LF +:+ "    }"
                    | _ :: _ =>
                        "    public " +:+ class_name +:+ "("
                        +:+ Py.join ", " (map param_decl kept) +:+ ") {"
                        +:+ LF
                        +:+ Py.join LF (map assignment_line kept) +:+ LF
                        +:+ "    }"
                    end).
  { unfold _generate_constructor.
    destruct (fold_left constructor_step (elements alt) ([], [], ∅))
      as [[params assignments] seen_names].
    simpl in Hc. injection Hc as -> ->. now destruct kept. }
  split; [apply fields_of_distinct|]. split; [exact Hc|].
  split; [now rewrite visit_loop_distinct|]. split; [exact Hctor|].
  intro Hnone. pose proof (distinct_refs_none (elements alt) Hnone) as E.
  split; [unfold _generate_fields; now rewrite fields_of_distinct, E|].
  split; [rewrite Hctor; unfold kept; now rewrite E|].
  split.
  - rewrite generate_getters_collect, E. reflexivity.
  - rewrite visit_body_lines_distinct, E. reflexivity.
Qed.

Lemma fields_constructor_routine_agree_witness :
  _generate_fields (parse_alt_text "SELECT '*' FROM") = "    // No child nodes"
  /\ _generate_constructor "Q" (parse_alt_text "SELECT '*' FROM")
     = "    public Q() {" +:+ LF +:+ "        // No child nodes" +:+ LF
       +:+ "    }"
  /\ _generate_getters (parse_alt_text "SELECT '*' FROM") = Return EmptyString
  /\ visit_body_lines (mkGrammarRule "q" []) (parse_alt_text "SELECT '*' FROM")
     = ["        return new Q();"].
Proof.
  apply (fields_constructor_routine_agree (mkGrammarRule "q" []) "Q"
           (parse_alt_text "SELECT '*' FROM")).
  intros e He. vm_compute in He.
  destruct He as [<- | [<- | []]]; reflexivity.
Defined.

(** ** Classes of rules without labels *)

Lemma class_text_name_only (base_package package_name : string)
    (rule rule' : GrammarRule) (alt : Alternative) :
  rule_name rule = rule_name rule' ->
  class_text base_package rule package_name alt
  = class_text base_package rule' package_name alt.
Proof. intro H. unfold class_text, java_class_name. now rewrite H. Qed.

Lemma parsed_labels (rule_name rule_body : string) :
  existsb (fun alt => label_truthy (label alt))
          (alternatives (_parse_rule rule_name rule_body))
  = existsb (fun alt => match label alt with Some _ => true | None => false end)
            (alternatives (_parse_rule rule_name rule_body)).
Proof.
  unfold _parse_rule. simpl.
  induction (_split_alternatives rule_body) as [|t l IH]; simpl;
    [reflexivity|].
  rewrite IH. f_equal.
  destruct (label (parse_alt_text t)) as [lbl|] eqn:E; [|reflexivity].
  now apply parsed_label_identifier in E as [_ E].
Qed.

(** X9. For a rule none of whose alternatives has a label that counts as
    true, with at least one stack frame, the class generator returns the
    class text of the first alternative (the empty alternative when there is
    none): the other alternatives and the number of frames do not matter,
    and the only failure left is the IndexError of the getters.  For a rule
    made by the parser the generator therefore ends in RecursionError
    exactly when one of its alternatives carries a label. *)
Theorem class_of_unlabeled_rule :
  (forall (base_package subdir : string) (frames : nat) (rule : GrammarRule),
      existsb (fun alt => label_truthy (label alt)) (alternatives rule)
      = false ->
      let alt := hd (mkAlternative None []) (alternatives rule) in
      _generate_class base_package (S frames) rule subdir
      = class_text base_package rule (base_package +:+ "." +:+ subdir) alt
      /\ _generate_class base_package (S frames) rule subdir
         = _generate_class base_package 1
             (mkGrammarRule (rule_name rule) [alt]) subdir
      /\ _generate_class base_package (S frames) rule subdir
         <> Raise RecursionError)
  /\ (forall (base_package subdir rule_name rule_body : string) (frames : nat),
        _generate_class base_package (S frames)
          (_parse_rule rule_name rule_body) subdir
        = Raise RecursionError
        <-> exists alt, In alt (alternatives (_parse_rule rule_name rule_body))
                        /\ label alt <> None).
Proof.
  assert (Hun : forall base_package subdir frames rule,
             existsb (fun alt => label_truthy (label alt)) (alternatives rule)
             = false ->
             _generate_class base_package (S frames) rule subdir
             = class_text base_package rule (base_package +:+ "." +:+ subdir)
                 (hd (mkAlternative None []) (alternatives rule))).
  { intros base_package subdir frames rule Hl. simpl. rewrite Hl.
    unfold first_alternative. now destruct (alternatives rule). }
  assert (Hnr : forall base_package rule package_name alt,
             class_text base_package rule package_name alt
             <> Raise RecursionError).
  { intros base_package rule package_name alt. unfold class_text.
    destruct (collect_getters (distinct_refs (elements alt)))
      as [[_ E] | [_ (texts & E & _)]];
      rewrite generate_getters_collect, E;
      rewrite ?result_bind_return, ?result_bind_raise; discriminate. }
  split.
  - intros base_package subdir frames rule Hl alt.
    split; [now apply Hun|]. split.
    + rewrite !Hun; [| simpl | exact Hl].
      * now apply class_text_name_only.
      * unfold alt. destruct (alternatives rule) as [|a l]; [reflexivity|].
        simpl in *. apply orb_false_elim in Hl as [-> _]. reflexivity.
    + rewrite Hun by exact Hl. apply Hnr.
  - intros base_package subdir n b frames.
    destruct (existsb (fun alt => label_truthy (label alt))
                (alternatives (_parse_rule n b))) eqn:E.
    + split.
      * intros _. rewrite parsed_labels in E.
        apply existsb_exists in E as (alt & Hin & Hl).
        exists alt. split; [exact Hin|]. now destruct (label alt).
      * intros _.
        now apply (labeled_class_recursion base_package (_parse_rule n b) E).
    + split.
      * intro H. rewrite Hun in H by exact E. now apply Hnr in H.
      * intros (alt & Hin & Hl). exfalso.
        rewrite parsed_labels in E.
        assert (H : existsb
                      (fun alt => match label alt with
                                  | Some _ => true
                                  | None => false
                                  end)
                      (alternatives (_parse_rule n b)) = true).
        { apply existsb_exists. exists alt. split; [exact Hin|].
          now destruct (label alt). }
        congruence.
Qed.

Lemma class_of_unlabeled_rule_witness :
  _generate_class SEMANTIC_PACKAGE 7 (_parse_rule "pair" "a b | c") "misc"
  = _generate_class SEMANTIC_PACKAGE 1
      (mkGrammarRule "pair"
         [hd (mkAlternative None [])
             (alternatives (_parse_rule "pair" "a b | c"))]) "misc"
  /\ _generate_class SEMANTIC_PACKAGE 1 (_parse_rule "pair" "a | b #x") "misc"
     = Raise RecursionError.
Proof.
  split.
  - apply (proj1 class_of_unlabeled_rule SEMANTIC_PACKAGE "misc" 6
             (_parse_rule "pair" "a b | c")).
    reflexivity.
  - apply (proj2 class_of_unlabeled_rule SEMANTIC_PACKAGE "misc"
             "pair" "a | b #x" 0).
    exists (mkAlternative (Some "x") [mkRuleElement "b" false EmptyString true]).
    split; [vm_compute; auto | discriminate].
Defined.

(** ** The builder *)

Lemma visit_method_returns (rule : GrammarRule) :
  exists text, _generate_visit_method rule = Return text.
Proof.
  unfold _generate_visit_method, first_alternative.
  destruct (alternatives rule); simpl; eauto.
Qed.

Lemma visit_methods_all (items : list (string * GrammarRule)) :
  exists methods,
    visit_methods items = Return methods
    /\ Forall2 (fun item method =>
                  _generate_visit_method (snd item) = Return method)
               items methods.
Proof.
  induction items as [|[n rule] items (methods & E & Hall)]; cbn [visit_methods].
  - exists []. split; [reflexivity | constructor].
  - destruct (visit_method_returns rule) as (text & Ht).
    exists (text :: methods). rewrite Ht, E, !result_bind_return.
    split; [reflexivity | now constructor].
Qed.

(** X10. The builder is generated for every model, also one with labeled
    rules for which no class can be generated.  Its text is the fixed
    frame of the class (package line, imports, comment, class header and
    closing brace) around the visit methods: one visit method per rule,
    each the visit method of that rule, joined by line feeds in ascending
    order of the rule names. *)
Theorem builder_has_a_method_per_rule :
  forall (base_package : string) (rules : dict GrammarRule),
    exists methods : list string,
      Forall2 (fun item method =>
                 _generate_visit_method (snd item) = Return method)
              (sorted_items rules) methods
      /\ length methods = length rules
      /\ StronglySorted key_le (sorted_items rules)
      /\ Permutation (sorted_items rules) rules
      /\ _generate_builder_class base_package rules
         = Return (Py.join LF [
             "package " +:+ base_package +:+ ".builder;";
             EmptyString;
             "import " +:+ Py.rsplit1_head "." base_package
               +:+ ".antlr.PlSqlParser;";
             "import " +:+ Py.rsplit1_head "." base_package
               +:+ ".antlr.PlSqlParserBaseVisitor;";
             "import " +:+ base_package +:+ ".context.TransformationException;";
             "import " +:+ base_package +:+ ".semantic.SemanticNode;";
             "import " +:+ base_package +:+ ".semantic.statement.*;";
             "import " +:+ base_package +:+ ".semantic.expression.*;";
             "import " +:+ base_package +:+ ".semantic.clause.*;";
             "import " +:+ base_package +:+ ".semantic.query.*;";
             "import " +:+ base_package +:+ ".semantic.element.*;";
             "import " +:+ base_package +:+ ".semantic.misc.*;";
             EmptyString;
             "import java.util.ArrayList;";
             "import java.util.List;";
             EmptyString;
             "/**";
             " * Visitor that converts ANTLR parse tree to semantic syntax tree.";
             " *";
             " * Generated by codegen/generate.py - DO NOT EDIT MANUALLY";
             " * Delete this file and regenerate if grammar changes.";
             " *";
             " * Architecture: Uses visitor pattern to delegate to child nodes.";
             " * Each visit method creates a semantic node and calls visit() on children.";
             " */";
             "public class SemanticTreeBuilder extends PlSqlParserBaseVisitor<SemanticNode> {";
             EmptyString;
             Py.join LF methods;
             EmptyString;
             "}";
             EmptyString ]).
Proof.
  intros base_package rules.
  destruct (visit_methods_all (sorted_items rules)) as (methods & E & Hall).
  exists methods. split; [exact Hall|]. split.
  { rewrite <- (Forall2_length _ _ _ Hall).
    apply Permutation_length, sorted_items_perm. }
  split; [apply sorted_items_sorted|].
  split; [apply sorted_items_perm|].
  unfold _generate_builder_class. rewrite E.
  now rewrite result_bind_return.
Qed.

(** ** Grouping of the classes *)

Lemma prefix_spec (p s : string) :
  String.prefix p s = true <-> exists r, s = p +:+ r.
Proof.
  revert s; induction p as [|c p IH]; intro s.
  - split; [intros _; now exists s | intros _; now destruct s].
  - destruct s as [|d s]; simpl.
    { split; [discriminate | intros (r & H); discriminate]. }
    destruct (ascii_dec c d) as [-> | Hne].
    + rewrite IH. split; intros (r & H); exists r.
      * string_app_step. now rewrite H.
      * revert H. string_app_step. congruence.
    + split; [discriminate|]. intros (r & H). revert H. string_app_step.
      congruence.
Qed.

Lemma contains_unfold (q s : string) :
  Py.contains q s
  = if String.prefix q s then true
    else match s with
         | EmptyString => false
         | String _ s' => Py.contains q s'
         end.
Proof. now destruct s. Qed.

Lemma contains_spec (q s : string) :
  Py.contains q s = true <-> exists a r, s = a +:+ q +:+ r.
Proof.
  induction s as [|c s IH]; rewrite contains_unfold.
  - destruct (String.prefix q EmptyString) eqn:E.
    + apply prefix_spec in E as (r & E). split; [|reflexivity].
      intros _. now exists EmptyString, r.
    + split; [discriminate|]. intros (a & r & H).
      destruct a; revert H; string_app_step; [|discriminate].
      intro H. assert (String.prefix q EmptyString = true)
        by (apply prefix_spec; now exists r).
      congruence.
  - destruct (String.prefix q (String c s)) eqn:E.
    + apply prefix_spec in E as (r & E). split; [|reflexivity].
      intros _. now exists EmptyString, r.
    + rewrite IH. split.
      * intros (a & r & ->). now exists (String c a), r.
      * intros (a & r & H). destruct a as [|d a]; revert H; string_app_step.
        { intro H. assert (String.prefix q (String c s) = true)
            by (apply prefix_spec; now exists r).
          congruence. }
        intro H. injection H as -> ->. now exists a, r.
Qed.

Lemma contains_part (p q s : string) :
  Py.contains (p +:+ q) s = true -> Py.contains q s = true.
Proof.
  rewrite !contains_spec. intros (a & r & ->).
  exists (a +:+ p), r.
  induction a as [|c a IH]; string_app_step.
  - induction p as [|d p IHp]; string_app_step; [reflexivity | now rewrite IHp].
  - now rewrite IH.
Qed.

Lemma endswith_contains (s q : string) :
  Py.endswith s q = true -> Py.contains q s = true.
Proof.
  unfold Py.endswith. induction s as [|c s IH]; cbn [Py.endswith_aux].
  - destruct (String.eqb_spec q EmptyString) as [-> | _]; [reflexivity|].
    discriminate.
  - destruct (String.eqb_spec q (String c s)) as [-> | _].
    + intros _. apply contains_spec. exists EmptyString, EmptyString.
      string_app_step. now rewrite string_app_nil_r.
    + intro H. apply IH, contains_spec in H as (a & r & ->).
      apply contains_spec. now exists (String c a), r.
Qed.

Lemma split_without_sep (sep : ascii) (s : string) :
  has_char sep s = false -> Py.split sep s = [s].
Proof.
  unfold has_char. induction s as [|c s IH]; simpl; [reflexivity|].
  intro H. apply orb_false_elim in H as [Hc Hs].
  rewrite Ascii.eqb_sym, Hc, (IH Hs). reflexivity.
Qed.

Lemma last_cons_nonempty {A : Type} (x d : A) (l : list A) :
  l <> [] -> List.last (x :: l) d = List.last l d.
Proof. destruct l; [congruence | reflexivity]. Qed.

Lemma last_part_after_sep (sep : ascii) (a b : string) :
  Py.last_part (Py.split sep (a +:+ String sep b))
  = Py.last_part (Py.split sep b).
Proof.
  unfold Py.last_part. induction a as [|c a IH]; string_app_step; simpl.
  - rewrite Ascii.eqb_refl. apply last_cons_nonempty, split_not_nil.
  - pose proof (split_not_nil sep (a +:+ String sep b)) as Hne.
    destruct (Ascii.eqb c sep).
    + rewrite last_cons_nonempty by exact Hne. exact IH.
    + destruct (Py.split sep (a +:+ String sep b)) as [|w ws] eqn:E;
        [congruence|].
      rewrite <- IH. destruct ws as [|w' ws]; [|reflexivity].
      exfalso.
      assert (Hl : 2 <= length (Py.split sep (a +:+ String sep b))).
      { clear. induction a as [|x a IHa]; string_app_step; simpl.
        - rewrite Ascii.eqb_refl. simpl.
          pose proof (split_not_nil sep b).
          destruct (Py.split sep b); [congruence | simpl; lia].
        - destruct (Ascii.eqb x sep); [simpl; lia|].
          destruct (Py.split sep (a +:+ String sep b)); simpl in *; lia. }
      rewrite E in Hl. simpl in Hl. lia.
Qed.

(** X11. A rule is filed under one of six groups, none of which holds a
    dot, so the group is recovered as the last component of the package
    name built from it, which is what the interface generator hands back
    to the class generator.  The group is decided by the keywords
    statement, expression, clause, query or select, table or column or
    index, in this order of precedence: the test for the suffix
    [_expression] and the keywords [subquery] and [selected] never change
    the outcome. *)
Theorem subdir_groups :
  forall base_package rule_name : string,
    In (_determine_subdir rule_name)
       ["statement"; "expression"; "clause"; "query"; "element"; "misc"]
    /\ _determine_subdir rule_name = subdir_by_keyword rule_name
    /\ Py.last_part
         (Py.split "." (base_package +:+ "." +:+ _determine_subdir rule_name))
       = _determine_subdir rule_name.
Proof.
  intros base_package n.
  assert (Hin : In (_determine_subdir n)
                   ["statement"; "expression"; "clause"; "query"; "element";
                    "misc"]).
  { unfold _determine_subdir.
    destruct (Py.contains "statement" n); [simpl; auto|].
    destruct (Py.contains "expression" n || Py.endswith n "_expression");
      [simpl; auto|].
    destruct (Py.contains "clause" n); [simpl; auto|].
    destruct (existsb _ ["query"; "subquery"; "select"; "selected"]);
      [simpl; auto|].
    destruct (existsb _ ["table"; "column"; "index"]); simpl; auto 7. }
  split; [exact Hin|]. split.
  - unfold _determine_subdir, subdir_by_keyword.
    destruct (Py.contains "statement" n); [reflexivity|].
    assert (E1 : Py.contains "expression" n || Py.endswith n "_expression"
                 = Py.contains "expression" n).
    { destruct (Py.contains "expression" n) eqn:E; [reflexivity|].
      destruct (Py.endswith n "_expression") eqn:E'; [|reflexivity].
      apply endswith_contains in E'.
      apply (contains_part "_" "expression") in E'. congruence. }
    rewrite E1. destruct (Py.contains "expression" n); [reflexivity|].
    destruct (Py.contains "clause" n); [reflexivity|].
    assert (E2 : existsb (fun keyword => Py.contains keyword n)
                   ["query"; "subquery"; "select"; "selected"]
                 = Py.contains "query" n || Py.contains "select" n).
    { simpl. rewrite orb_false_r.
      destruct (Py.contains "subquery" n) eqn:Es.
      { apply (contains_part "sub" "query") in Es. now rewrite Es. }
      destruct (Py.contains "selected" n) eqn:Ed.
      { assert (Hs : Py.contains "select" n = true).
        { apply contains_spec in Ed as (a & r & ->).
          apply contains_spec. exists a, ("ed" +:+ r). reflexivity. }
        rewrite Hs. now destruct (Py.contains "query" n). }
      now destruct (Py.contains "query" n), (Py.contains "select" n). }
    rewrite E2.
    destruct (Py.contains "query" n || Py.contains "select" n); [reflexivity|].
    simpl. now rewrite orb_false_r, orb_assoc.
  - change (base_package +:+ "." +:+ _determine_subdir n)
      with (base_package +:+ String "." (_determine_subdir n)).
    rewrite last_part_after_sep.
    simpl in Hin.
    destruct Hin as [<- | [<- | [<- | [<- | [<- | [<- | []]]]]]]; reflexivity.
Qed.

(** * Round trips of the parser *)

(** ** From a rule text to the model *)

Lemma span_spaces_empty (q : string) :
  snd (Re.span Py.isspace q) = EmptyString ->
  forallb Py.isspace (list_ascii_of_string q) = true.
Proof.
  induction q as [|c q IH]; simpl; [reflexivity|].
  destruct (Py.isspace c); [|discriminate].
  destruct (Re.span Py.isspace q) as [a b]. simpl in *.
  intro H. now rewrite IH.
Qed.

Lemma rstrip_tail (c : ascii) (q : string) :
  Py.rstrip (String c q) = String c q ->
  q = EmptyString \/ Py.rstrip q = q.
Proof.
  simpl. destruct (Py.rstrip q) as [|d r] eqn:E.
  - destruct (Py.isspace c); [discriminate|].
    intro H. injection H as <-. now left.
  - intro H. injection H as <-. now right.
Qed.

Lemma terminator_blocked (q t : string) :
  q <> EmptyString -> Py.rstrip q = q -> has_char ";" q = false ->
  Re.terminator (q +:+ t) = None.
Proof.
  intros Hne Hr Hsemi. unfold Re.terminator. rewrite skip_spaces_app.
  destruct (Re.skip_spaces q) as [|d u] eqn:E.
  - exfalso. apply span_spaces_empty in E. apply rstrip_spaces in E.
    congruence.
  - string_app_step.
    destruct (Ascii.eqb_spec d ";") as [-> | Hd].
    + assert (H : has_char ";" q = true).
      { apply (has_char_span ";" Py.isspace). unfold Re.skip_spaces in E.
        rewrite E. reflexivity. }
      congruence.
    + destruct d as [[] [] [] [] [] [] [] []]; try reflexivity.
      now contradiction Hd.
Qed.

Lemma terminator_here (ws rest : string) :
  all_chars Py.isspace ws = true ->
  Re.terminator (ws +:+ String ";" rest) = Some rest.
Proof.
  intro Hws. unfold Re.terminator, Re.skip_spaces.
  rewrite span_app; [reflexivity | exact Hws | reflexivity].
Qed.

Lemma lazy_until_terminator_unfold (s : string) :
  Re.lazy_until_terminator s
  = match Re.terminator s with
    | Some rest => Some (EmptyString, rest)
    | None =>
        match s with
        | EmptyString => None
        | String c s' =>
            match Re.lazy_until_terminator s' with
            | Some (b, rest) => Some (String c b, rest)
            | None => None
            end
        end
    end.
Proof. now destruct s. Qed.

Lemma lazy_until_terminator_body (q ws rest : string) :
  q = EmptyString \/ Py.rstrip q = q ->
  has_char ";" q = false ->
  all_chars Py.isspace ws = true ->
  Re.lazy_until_terminator (q +:+ ws +:+ String ";" rest) = Some (q, rest).
Proof.
  intros Hq Hsemi Hws. induction q as [|c q IH].
  - rewrite string_app_nil_l, lazy_until_terminator_unfold.
    now rewrite terminator_here.
  - destruct Hq as [Hq | Hq]; [discriminate|].
    rewrite lazy_until_terminator_unfold.
    rewrite terminator_blocked; [| discriminate | exact Hq | exact Hsemi].
    rewrite string_app_cons.
    rewrite IH; [reflexivity | now apply (rstrip_tail c) |].
    unfold has_char in *. simpl in Hsemi.
    now apply orb_false_elim in Hsemi as [_ Hsemi].
Qed.

Lemma body_pattern_body (ws2 body ws3 rest : string) :
  all_chars Py.isspace ws2 = true ->
  body <> EmptyString ->
  starts_with Py.isspace body = false ->
  Py.rstrip body = body ->
  has_char ";" body = false ->
  all_chars Py.isspace ws3 = true ->
  Re.body_pattern (ws2 +:+ body +:+ ws3 +:+ String ";" rest)
  = Some (body, rest).
Proof.
  intros Hws2 Hne Hstart Hr Hsemi Hws3.
  assert (Hlazy : Re.body_pattern (body +:+ ws3 +:+ String ";" rest)
                  = Some (body, rest)).
  { destruct body as [|c q]; [congruence|]. simpl in Hstart.
    rewrite string_app_cons. cbn [Re.body_pattern]. rewrite Hstart.
    unfold Re.lazy_body.
    rewrite lazy_until_terminator_body;
      [reflexivity | now apply (rstrip_tail c) | | exact Hws3].
    unfold has_char in *. simpl in Hsemi.
    now apply orb_false_elim in Hsemi as [_ Hsemi]. }
  unfold all_chars in Hws2. induction ws2 as [|c ws2 IH].
  - now rewrite string_app_nil_l.
  - simpl in Hws2. apply andb_prop in Hws2 as [Hc Hws2].
    rewrite string_app_cons. cbn [Re.body_pattern].
    now rewrite Hc, (IH Hws2).
Qed.

Lemma lower_ident_name (n t : string) :
  lower_identifier n = true -> starts_with Re.lower_cont t = false ->
  Re.lower_ident (n +:+ t) = Some (n, t).
Proof.
  unfold lower_identifier, Re.lower_ident, Re.ident.
  destruct n as [|c n]; [discriminate|]. simpl starts_with.
  intros H Ht. apply andb_prop in H as [Hc Hall].
  unfold all_chars in Hall. simpl in Hall. apply andb_prop in Hall as [_ Hall].
  rewrite string_app_cons, Hc, span_app; auto.
Qed.

Lemma space_not_cont (ws t : string) (c : ascii) :
  all_chars Py.isspace ws = true ->
  Re.lower_cont c = false /\ Re.upper_cont c = false ->
  starts_with Re.lower_cont (ws +:+ String c t) = false
  /\ starts_with Re.upper_cont (ws +:+ String c t) = false.
Proof.
  intros Hws Hc. destruct ws as [|d ws].
  - rewrite string_app_nil_l. exact Hc.
  - rewrite string_app_cons. simpl.
    unfold all_chars in Hws. simpl in Hws. apply andb_prop in Hws as [Hd _].
    revert Hd. destruct d as [[] [] [] [] [] [] [] []]; vm_compute;
      intuition congruence.
Qed.

Lemma rule_pattern_rule (n ws1 ws2 body ws3 rest : string) :
  lower_identifier n = true ->
  all_chars Py.isspace ws1 = true ->
  all_chars Py.isspace ws2 = true ->
  body <> EmptyString ->
  starts_with Py.isspace body = false ->
  Py.rstrip body = body ->
  has_char ";" body = false ->
  all_chars Py.isspace ws3 = true ->
  Re.rule_pattern
    (n +:+ ws1 +:+ String ":" (ws2 +:+ body +:+ ws3 +:+ String ";" rest))
  = Some (n, body, rest).
Proof.
  intros Hn Hws1 Hws2 Hne Hstart Hr Hsemi Hws3. unfold Re.rule_pattern.
  rewrite lower_ident_name;
    [| exact Hn | now apply (space_not_cont ws1 _ ":" Hws1)].
  unfold Re.skip_spaces. rewrite span_app; [| exact Hws1 | reflexivity].
  cbn [snd]. now rewrite body_pattern_body.
Qed.

Lemma string_app_assoc (a b c : string) : (a +:+ b) +:+ c = a +:+ (b +:+ c).
Proof.
  induction a as [|x a IH]; [reflexivity|].
  now rewrite !string_app_cons, IH.
Qed.

Lemma scan_rules_S (n : nat) (s : string) :
  Re.scan_rules (S n) true s
  = match Re.rule_pattern s with
    | Some (rule_name, rule_body, rest) =>
        (rule_name, rule_body) :: Re.scan_rules n false rest
    | None =>
        match s with
        | EmptyString => []
        | String c s' => Re.scan_rules n (Ascii.eqb c Re.newline) s'
        end
    end.
Proof. reflexivity. Qed.

(** X12. A rule written in the expected shape is found as written: for a
    lower-case identifier [n], a body without semicolon and without white
    space at its ends, and any white space around the colon and before the
    semicolon, the scan of the text [n : body ;] followed by any text finds
    the rule [n] with exactly that body first and goes on after the
    semicolon; alone in a grammar, the rule is the whole model unless its
    name is excluded. *)
Theorem rule_text_round_trip :
  forall n ws1 ws2 body ws3 rest : string,
    lower_identifier n = true ->
    all_chars Py.isspace ws1 = true ->
    all_chars Py.isspace ws2 = true ->
    body <> EmptyString ->
    starts_with Py.isspace body = false ->
    Py.rstrip body = body ->
    has_char ";" body = false ->
    all_chars Py.isspace ws3 = true ->
    let rule_text := n +:+ ws1 +:+ ":" +:+ ws2 +:+ body +:+ ws3 +:+ ";" in
    Re.finditer_rules (rule_text +:+ rest)
    = (n, body) :: Re.scan_rules (S (String.length rest)) false rest
    /\ Re.finditer_rules rule_text = [(n, body)]
    /\ (_should_skip_rule n = false ->
        parse rule_text = [(n, _parse_rule n body)])
    /\ (_should_skip_rule n = true -> parse rule_text = []).
Proof.
  intros n ws1 ws2 body ws3 rest Hn Hws1 Hws2 Hne Hstart Hr Hsemi Hws3
         rule_text.
  assert (Hfind : forall t,
             Re.finditer_rules (rule_text +:+ t)
             = (n, body) :: Re.scan_rules (S (String.length t)) false t).
  { intro t.
    assert (Hp : Re.rule_pattern (rule_text +:+ t) = Some (n, body, t)).
    { unfold rule_text. rewrite <- (rule_pattern_rule n ws1 ws2 body ws3 t);
        try assumption.
      f_equal. now rewrite !string_app_assoc. }
    unfold Re.finditer_rules.
    rewrite (scan_rules_S (String.length (rule_text +:+ t))), Hp. f_equal.
    apply rule_pattern_shrinks in Hp. apply scan_rules_fuel; lia. }
  assert (Hone : Re.finditer_rules rule_text = [(n, body)]).
  { rewrite <- (string_app_nil_r rule_text). rewrite Hfind. reflexivity. }
  split; [apply Hfind|]. split; [exact Hone|].
  unfold parse. rewrite Hone. simpl.
  split; intros ->; reflexivity.
Qed.

Lemma rule_text_round_trip_witness :
  Re.finditer_rules ("query :" +:+ LF +:+ "  select_list FROM table_ref ;"
                     +:+ LF +:+ "expr : term ;")
  = ("query", "select_list FROM table_ref")
    :: Re.scan_rules (S (String.length (LF +:+ "expr : term ;"))) false
         (LF +:+ "expr : term ;")
  /\ parse "expr : term ;" = [("expr", _parse_rule "expr" "term")]
  /\ parse "sql_script : unit* ;" = [].
Proof.
  split; [|split].
  - apply (proj1 (rule_text_round_trip "query" " " (LF +:+ "  ")
                    "select_list FROM table_ref" " " (LF +:+ "expr : term ;")
                    eq_refl eq_refl eq_refl ltac:(discriminate)
                    eq_refl eq_refl eq_refl eq_refl)).
  - apply (proj1 (proj2 (proj2 (rule_text_round_trip "expr" " " " " "term" " "
                                  EmptyString
                                  eq_refl eq_refl eq_refl ltac:(discriminate)
                                  eq_refl eq_refl eq_refl eq_refl)))).
    reflexivity.
  - apply (proj2 (proj2 (proj2 (rule_text_round_trip "sql_script" " " " "
                                  "unit*" " " EmptyString
                                  eq_refl eq_refl eq_refl ltac:(discriminate)
                                  eq_refl eq_refl eq_refl eq_refl)))).
    reflexivity.
Defined.

(** ** From elements to their text and back *)

Lemma upper_letter_not_lower_start (c : ascii) :
  Py.isupper_AZ c = true ->
  Re.lower_start c = false /\ Re.upper_start c = true.
Proof. destruct c as [[] [] [] [] [] [] [] []]; vm_compute; intuition. Qed.

Lemma upper_ident_name (n t : string) :
  upper_identifier n = true -> starts_with Re.upper_cont t = false ->
  Re.lower_ident (n +:+ t) = None /\ Re.upper_ident (n +:+ t) = Some (n, t).
Proof.
  unfold upper_identifier, Re.lower_ident, Re.upper_ident, Re.ident.
  destruct n as [|c n]; [discriminate|]. simpl starts_with.
  intros H Ht. apply andb_prop in H as [Hc Hall].
  destruct (upper_letter_not_lower_start c Hc) as [Hl Hu].
  unfold all_chars in Hall. simpl in Hall. apply andb_prop in Hall as [_ Hall].
  rewrite string_app_cons, Hl, Hu, span_app; auto.
Qed.

Lemma cardinality_cases (s : string) :
  is_cardinality s = true ->
  s = EmptyString \/ s = "?" \/ s = "*" \/ s = "+".
Proof.
  unfold is_cardinality.
  destruct (String.eqb_spec s EmptyString); [auto|].
  destruct (String.eqb_spec s "?"); [auto|].
  destruct (String.eqb_spec s "*"); [auto|].
  destruct (String.eqb_spec s "+"); [auto | discriminate].
Qed.

Lemma element_pattern_element (e : RuleElement) (rest : string) :
  well_formed_element e = true -> at_gap rest ->
  Re.element_pattern (render_element e +:+ rest)
  = Some (name e, cardinality e, rest).
Proof.
  unfold well_formed_element, render_element. intros Hwf Hgap.
  apply andb_prop in Hwf as [Hcard Hkind].
  rewrite string_app_assoc.
  assert (Hnext : starts_with Re.lower_cont (cardinality e +:+ rest) = false
                  /\ starts_with Re.upper_cont (cardinality e +:+ rest)
                     = false).
  { destruct (cardinality_cases _ Hcard) as [-> | [-> | [-> | ->]]];
      destruct Hgap as [-> | (t & ->)]; split; reflexivity. }
  assert (Hsuffix : match cardinality e +:+ rest with
                    | String c rest' =>
                        if Re.is_suffix_char c
                        then Some (name e, String c EmptyString, rest')
                        else Some (name e, EmptyString, cardinality e +:+ rest)
                    | EmptyString => Some (name e, EmptyString, EmptyString)
                    end = Some (name e, cardinality e, rest)).
  { destruct (cardinality_cases _ Hcard) as [-> | [-> | [-> | ->]]];
      destruct Hgap as [-> | (t & ->)]; reflexivity. }
  unfold Re.element_pattern.
  apply orb_prop in Hkind as [Hk | Hk];
    apply andb_prop in Hk as [Hk _]; apply andb_prop in Hk as [Hid _].
  - rewrite (lower_ident_name _ _ Hid (proj1 Hnext)).
    destruct (cardinality e +:+ rest); exact Hsuffix.
  - destruct (upper_ident_name _ _ Hid (proj2 Hnext)) as [-> ->].
    destruct (cardinality e +:+ rest); exact Hsuffix.
Qed.

Lemma finditer_element (e : RuleElement) (rest : string) :
  well_formed_element e = true -> at_gap rest ->
  Re.finditer Re.element_pattern (render_element e +:+ rest)
  = (name e, cardinality e) :: Re.finditer Re.element_pattern rest.
Proof.
  intros Hwf Hgap. unfold Re.finditer.
  rewrite (tokens_match _ element_pattern_shrinks _ _ _
             (element_pattern_element e rest Hwf Hgap)).
  reflexivity.
Qed.

Lemma finditer_blank (t : string) :
  Re.finditer Re.element_pattern (String " " t)
  = Re.finditer Re.element_pattern t.
Proof.
  unfold Re.finditer. now rewrite (tokens_pass Re.element_pattern).
Qed.

Lemma element_of_match (e : RuleElement) (ms : list (string * string)) :
  well_formed_element e = true ->
  elements_of_matches ((name e, cardinality e) :: ms)
  = e :: elements_of_matches ms.
Proof.
  unfold well_formed_element. intro Hwf.
  apply andb_prop in Hwf as [_ Hkind]. destruct e as [n tok card ref].
  simpl in *.
  apply orb_prop in Hkind as [Hk | Hk];
    apply andb_prop in Hk as [Hk Href]; apply andb_prop in Hk as [Hid Htok].
  - rewrite (identifier_not_literal n (or_introl Hid)).
    unfold lower_identifier in Hid. apply andb_prop in Hid as [Hs _].
    destruct n as [|c n]; [discriminate|]. simpl in *.
    rewrite (lower_start_not_upper c Hs).
    destruct tok, ref; try discriminate; reflexivity.
  - rewrite (identifier_not_literal n (or_intror Hid)).
    unfold upper_identifier in Hid. apply andb_prop in Hid as [Hs _].
    destruct n as [|c n]; [discriminate|]. simpl in *.
    rewrite (upper_AZ_isupper c Hs).
    destruct tok, ref; try discriminate; reflexivity.
Qed.

(** X13. Tokenizing undoes writing: when well-formed elements (a lower-case
    identifier as rule reference or an upper-case one as token, with one of
    the four suffixes) are written as name and suffix, separated by single
    blanks, [_parse_alternative] returns exactly these elements, in order,
    with their kinds and cardinalities. *)
Theorem tokenize_rendered_elements :
  forall l : list RuleElement,
    forallb well_formed_element l = true ->
    _parse_alternative (Py.join " " (map render_element l)) = l.
Proof.
  unfold _parse_alternative. induction l as [|e l IH]; intro Hwf.
  - reflexivity.
  - simpl in Hwf. apply andb_prop in Hwf as [He Hl].
    destruct l as [|e' l].
    + cbn [map Py.join]. rewrite <- (string_app_nil_r (render_element e)).
      rewrite finditer_element; [| exact He | now left].
      now rewrite element_of_match.
    + assert (E : Py.join " " (map render_element (e :: e' :: l))
                  = render_element e
                    +:+ String " " (Py.join " " (map render_element (e' :: l))))
        by reflexivity.
      rewrite E, finditer_element; [| exact He | right; eauto].
      rewrite finditer_blank, element_of_match by exact He.
      now rewrite (IH Hl).
Qed.

Lemma tokenize_rendered_elements_witness :
  _parse_alternative "SELECT select_list from_clause? order_by* ID+"
  = [mkRuleElement "SELECT" true EmptyString false;
     mkRuleElement "select_list" false EmptyString true;
     mkRuleElement "from_clause" false "?" true;
     mkRuleElement "order_by" false "*" true;
     mkRuleElement "ID" true "+" false].
Proof.
  apply (tokenize_rendered_elements
           [mkRuleElement "SELECT" true EmptyString false;
            mkRuleElement "select_list" false EmptyString true;
            mkRuleElement "from_clause" false "?" true;
            mkRuleElement "order_by" false "*" true;
            mkRuleElement "ID" true "+" false]).
  reflexivity.
Defined.

(** * Extraction, schema and runs *)

(** ** Extraction without an error path (C3) *)

Lemma parse_get_origin (content n : string) (rule : GrammarRule) :
  dict_get (parse content) n = Some rule ->
  _should_skip_rule n = false
  /\ exists b, In (n, b) (Re.finditer_rules content) /\ rule = _parse_rule n b.
Proof.
  intro Hget. destruct (_should_skip_rule n) eqn:Hs.
  - exfalso.
    assert (Hnone : dict_get (parse content) n = None).
    { apply dict_get_none. intro Hin. unfold parse in Hin.
      apply parse_fold_keys in Hin as [[] | (Hs' & _)]. congruence. }
    congruence.
  - split; [reflexivity|]. unfold parse in Hget.
    destruct (parse_fold_get (Re.finditer_rules content) [] n Hs)
      as [(b & Hin & Hb) | [_ Hb]].
    + exists b. split; [exact Hin | congruence].
    + rewrite Hb in Hget. discriminate.
Qed.

Lemma finditer_rule_text (n ws1 ws2 body ws3 rest : string) :
  lower_identifier n = true ->
  all_chars Py.isspace ws1 = true ->
  all_chars Py.isspace ws2 = true ->
  body <> EmptyString ->
  starts_with Py.isspace body = false ->
  Py.rstrip body = body ->
  has_char ";" body = false ->
  all_chars Py.isspace ws3 = true ->
  Re.finditer_rules
    (n +:+ ws1 +:+ String ":" (ws2 +:+ body +:+ ws3 +:+ String ";" rest))
  = (n, body) :: Re.scan_rules (S (String.length rest)) false rest.
Proof.
  intros Hn Hws1 Hws2 Hne Hstart Hr Hsemi Hws3.
  pose proof (rule_pattern_rule n ws1 ws2 body ws3 rest
                Hn Hws1 Hws2 Hne Hstart Hr Hsemi Hws3) as Hp.
  unfold Re.finditer_rules. rewrite scan_rules_S, Hp. f_equal.
  apply rule_pattern_shrinks in Hp. apply scan_rules_fuel; lia.
Qed.

Lemma rstrip_app_keep (a b : string) :
  b <> EmptyString -> Py.rstrip b = b -> Py.rstrip (a +:+ b) = a +:+ b.
Proof.
  intros Hne Hb. induction a as [|c a IH].
  - now rewrite string_app_nil_l.
  - rewrite string_app_cons. simpl. rewrite IH.
    destruct (a +:+ b) eqn:E; [|reflexivity].
    exfalso. destruct a; [|rewrite string_app_cons in E; discriminate].
    rewrite string_app_nil_l in E. congruence.
Qed.

Lemma has_char_all (p : ascii -> bool) (c : ascii) (s : string) :
  all_chars p s = true -> p c = false -> has_char c s = false.
Proof.
  unfold all_chars, has_char. intros Hall Hc.
  induction (list_ascii_of_string s) as [|x l IH]; simpl; [reflexivity|].
  simpl in Hall. apply andb_prop in Hall as [Hx Hl].
  rewrite (IH Hl), orb_false_r.
  destruct (Ascii.eqb_spec c x) as [-> | _]; [congruence | reflexivity].
Qed.

Lemma identifier_no_semicolon (n : string) :
  lower_identifier n = true -> has_char ";" n = false.
Proof.
  unfold lower_identifier. intro H. apply andb_prop in H as [_ H].
  now apply (has_char_all Re.lower_cont).
Qed.

(** A rule head whose semicolon is missing takes the text up to the next
    semicolon, the rule on the next line included, as its body. *)
Lemma missing_semicolon_scan (n1 b1 n2 b2 : string) :
  lower_identifier n1 = true -> lower_identifier n2 = true ->
  b1 <> EmptyString -> starts_with Py.isspace b1 = false ->
  has_char ";" b1 = false ->
  b2 <> EmptyString -> Py.rstrip b2 = b2 -> has_char ";" b2 = false ->
  Re.finditer_rules
    (n1 +:+ " : " +:+ b1 +:+ LF +:+ n2 +:+ " : " +:+ b2 +:+ " ;")
  = [(n1, b1 +:+ LF +:+ n2 +:+ " : " +:+ b2)].
Proof.
  intros Hn1 Hn2 Hne1 Hst1 Hs1 Hne2 Hr2 Hs2.
  pose proof (finditer_rule_text n1 " " " "
                (b1 +:+ LF +:+ n2 +:+ " : " +:+ b2) " " EmptyString
                Hn1 eq_refl eq_refl) as H.
  rewrite ?string_app_assoc in H.
  apply H; clear H.
  - destruct b1; [congruence | rewrite string_app_cons; discriminate].
  - destruct b1; [congruence | now rewrite string_app_cons].
  - rewrite <- !string_app_assoc. now apply rstrip_app_keep.
  - rewrite !has_char_app, Hs1, Hs2, (identifier_no_semicolon n2 Hn2).
    reflexivity.
  - reflexivity.
Qed.

Lemma scan_rules_pass (n : nat) (c : ascii) (s : string) :
  Re.scan_rules (S n) false (String c s)
  = Re.scan_rules n (Ascii.eqb c Re.newline) s.
Proof. reflexivity. Qed.

Lemma two_rules_scan (n1 b1 n2 b2 : string) :
  lower_identifier n1 = true -> lower_identifier n2 = true ->
  b1 <> EmptyString -> starts_with Py.isspace b1 = false ->
  Py.rstrip b1 = b1 -> has_char ";" b1 = false ->
  b2 <> EmptyString -> starts_with Py.isspace b2 = false ->
  Py.rstrip b2 = b2 -> has_char ";" b2 = false ->
  Re.finditer_rules
    (n1 +:+ " : " +:+ b1 +:+ " ;" +:+ LF +:+ n2 +:+ " : " +:+ b2 +:+ " ;")
  = [(n1, b1); (n2, b2)].
Proof.
  intros Hn1 Hn2 Hne1 Hst1 Hr1 Hs1 Hne2 Hst2 Hr2 Hs2.
  pose proof (finditer_rule_text n1 " " " " b1 " "
                (LF +:+ n2 +:+ " : " +:+ b2 +:+ " ;")
                Hn1 eq_refl eq_refl Hne1 Hst1 Hr1 Hs1 eq_refl) as H1.
  pose proof (finditer_rule_text n2 " " " " b2 " " EmptyString
                Hn2 eq_refl eq_refl Hne2 Hst2 Hr2 Hs2 eq_refl) as H2.
  rewrite ?string_app_assoc in H1, H2.
  etransitivity; [exact H1|]. f_equal.
  set (t := n2 +:+ " : " +:+ b2 +:+ " ;") in *.
  change (LF +:+ t) with (String Re.newline t).
  cbn [String.length]. rewrite scan_rules_pass.
  change (Ascii.eqb Re.newline Re.newline) with true.
  exact H2.
Qed.

(** C3, as the code has it.  Extraction has no error path and no check of
    the nesting depth; the model is made of the matches of the rule
    pattern alone.  An entry of the model is the rule parsed from a body
    that the pattern found under that name, its alternatives the parsed
    parts of the split of that body, and every match with a name that is
    not excluded has its entry, whatever the nesting depth of its body
    does; a bar read while the depth is negative is kept in the current
    alternative.  Text that lacks the shape gives no entry and no report: a
    text without colon or without semicolon gives the empty model, and a
    rule whose semicolon is missing is not left out on its own but runs on
    to the next semicolon, so that the rule on the next line, which the
    text with the semicolon in place yields, becomes part of its body and
    is absent from the model. *)
Theorem extraction_has_no_error_path :
  (forall (content n : string) (rule : GrammarRule),
      dict_get (parse content) n = Some rule ->
      _should_skip_rule n = false
      /\ exists b,
          In (n, b) (Re.finditer_rules content)
          /\ rule = _parse_rule n b
          /\ alternatives rule = map parse_alt_text (_split_alternatives b)
          /\ alternatives rule <> [])
  /\ (forall (content rule_name rule_body : string),
        In (rule_name, rule_body) (Re.finditer_rules content) ->
        _should_skip_rule rule_name = false ->
        exists rule_body',
          In (rule_name, rule_body') (Re.finditer_rules content)
          /\ dict_get (parse content) rule_name
             = Some (_parse_rule rule_name rule_body'))
  /\ (forall pre : string,
        (nesting_depth pre < 0)%Z ->
        let st := split_loop split_init pre in
        parts (split_step st "|") = parts st
        /\ current (split_step st "|") = current st ++ ["|"%char])
  /\ (forall content : string,
        has_char ":" content = false \/ has_char ";" content = false ->
        parse content = [])
  /\ (forall n1 b1 n2 b2 : string,
        lower_identifier n1 = true -> lower_identifier n2 = true ->
        _should_skip_rule n1 = false -> _should_skip_rule n2 = false ->
        n2 <> n1 ->
        b1 <> EmptyString -> starts_with Py.isspace b1 = false ->
        Py.rstrip b1 = b1 -> has_char ";" b1 = false ->
        b2 <> EmptyString -> starts_with Py.isspace b2 = false ->
        Py.rstrip b2 = b2 -> has_char ";" b2 = false ->
        let intact :=
          n1 +:+ " : " +:+ b1 +:+ " ;" +:+ LF +:+ n2 +:+ " : " +:+ b2 +:+ " ;" in
        let broken :=
          n1 +:+ " : " +:+ b1 +:+ LF +:+ n2 +:+ " : " +:+ b2 +:+ " ;" in
        parse intact = [(n1, _parse_rule n1 b1); (n2, _parse_rule n2 b2)]
        /\ parse broken
           = [(n1, _parse_rule n1 (b1 +:+ LF +:+ n2 +:+ " : " +:+ b2))]
        /\ dict_get (parse broken) n2 = None).
Proof.
  split; [|split; [|split; [|split]]].
  - intros content n rule Hget.
    apply parse_get_origin in Hget as (Hs & b & Hin & ->).
    split; [exact Hs|]. exists b. split; [exact Hin|].
    split; [reflexivity|]. split; [reflexivity|].
    apply parse_rule_alternatives.
  - intros content n b Hin Hskip. unfold parse.
    destruct (parse_fold_get (Re.finditer_rules content) [] n Hskip)
      as [(b' & Hin' & Hget) | [Hno _]].
    + now exists b'.
    + exfalso. now apply (Hno b).
  - intros pre Hneg st. apply split_step_kept.
    intros [_ H0]. unfold st in H0. rewrite split_loop_depth in H0. lia.
  - intros content H. unfold parse.
    assert (E : Re.finditer_rules content = []); [|now rewrite E].
    unfold Re.finditer_rules. destruct H as [H | H].
    + apply (scan_rules_without ":"); [|exact H].
      intros t x y r Ht. now apply rule_pattern_needs in Ht.
    + apply (scan_rules_without ";"); [|exact H].
      intros t x y r Ht. now apply rule_pattern_needs in Ht.
  - intros n1 b1 n2 b2 Hn1 Hn2 Hk1 Hk2 Hne Hne1 Hst1 Hr1 Hs1 Hne2 Hst2 Hr2 Hs2
           intact broken.
    assert (E21 : String.eqb n1 n2 = false).
    { apply String.eqb_neq. congruence. }
    assert (Hi : parse intact
                 = [(n1, _parse_rule n1 b1); (n2, _parse_rule n2 b2)]).
    { unfold parse, intact. rewrite two_rules_scan by assumption.
      simpl. rewrite Hk1, Hk2. simpl. now rewrite E21. }
    assert (Hb : parse broken
                 = [(n1, _parse_rule n1 (b1 +:+ LF +:+ n2 +:+ " : " +:+ b2))]).
    { unfold parse, broken. rewrite missing_semicolon_scan by assumption.
      simpl. now rewrite Hk1. }
    split; [exact Hi|]. split; [exact Hb|].
    rewrite Hb. simpl. now rewrite E21.
Qed.

Lemma extraction_has_no_error_path_witness :
  (exists rule_body',
      In ("r", rule_body') (Re.finditer_rules "r : a ) | b ;")
      /\ dict_get (parse "r : a ) | b ;") "r"
         = Some (_parse_rule "r" rule_body'))
  /\ (parts (split_step (split_loop split_init "a ) ") "|") = []
      /\ current (split_step (split_loop split_init "a ) ") "|")
         = list_ascii_of_string "a ) |")
  /\ parse "r : a ) | b" = []
  /\ (parse ("r : a ) | b ;" +:+ LF +:+ "s : c ;")
      = [("r", _parse_rule "r" "a ) | b"); ("s", _parse_rule "s" "c")]
      /\ parse ("r : a ) | b" +:+ LF +:+ "s : c ;")
         = [("r", _parse_rule "r" ("a ) | b" +:+ LF +:+ "s : c"))]
      /\ dict_get (parse ("r : a ) | b" +:+ LF +:+ "s : c ;")) "s" = None).
Proof.
  pose proof extraction_has_no_error_path as (_ & H2 & H3 & H4 & H5).
  split; [|split; [|split]].
  - apply (H2 "r : a ) | b ;" "r" "a ) | b").
    + vm_compute. left. reflexivity.
    + reflexivity.
  - apply (H3 "a ) "). reflexivity.
  - apply (H4 "r : a ) | b"). right. reflexivity.
  - apply (H5 "r" "a ) | b" "s" "c"); try reflexivity; discriminate.
Defined.

(** C3, as stated, fails: in the first grammar the body of [r] drives the
    depth to -1, yet [r] is extracted (its bar is not a separator, so it
    has a single alternative with the elements [a] and [b]) together with
    [s]; a text without a rule of the expected shape gives the empty
    model; and in the last grammar the rule [r] without semicolon is not
    the only one lost to the model: it takes the rule [s] into its body,
    and extraction goes on with [t] only. *)
Lemma unbalanced_rule_is_extracted :
  (nesting_depth "a )" < 0)%Z
  /\ parse ("r : a ) | b ;" +:+ LF +:+ "s : c ;")
     = [("r", mkGrammarRule "r"
                [mkAlternative None
                   [mkRuleElement "a" false EmptyString true;
                    mkRuleElement "b" false EmptyString true]]);
        ("s", mkGrammarRule "s"
                [mkAlternative None
                   [mkRuleElement "c" false EmptyString true]])]
  /\ parse "r : a ) | b" = []
  /\ Re.finditer_rules
       ("r : a ) | b" +:+ LF +:+ "s : c ;" +:+ LF +:+ "t : d ;")
     = [("r", "a ) | b" +:+ LF +:+ "s : c"); ("t", "d")]
  /\ keys (parse ("r : a ) | b" +:+ LF +:+ "s : c ;" +:+ LF +:+ "t : d ;"))
     = ["r"; "t"]
  /\ dict_get (parse ("r : a ) | b" +:+ LF +:+ "s : c ;" +:+ LF +:+ "t : d ;"))
       "s" = None.
Proof.
  split; [reflexivity|]. repeat split; vm_compute; reflexivity.
Qed.

(** ** The schema of an alternative (C4) *)

Lemma generate_fields_distinct (alt : Alternative) :
  _generate_fields alt
  = match distinct_refs (elements alt) with
    | [] => "    // No child nodes"
    | _ :: _ => Py.join LF (map field_decl (distinct_refs (elements alt)))
    end.
Proof.
  unfold _generate_fields. rewrite fields_of_distinct.
  now destruct (distinct_refs (elements alt)).
Qed.

Lemma field_decl_text (e : RuleElement) :
  field_decl e
  = "    private final "
    +:+ (if String.eqb (cardinality e) "*" || String.eqb (cardinality e) "+"
         then "List<" +:+ _rule_to_class_name (name e) +:+ ">"
         else _rule_to_class_name (name e))
    +:+ " " +:+ _to_camel_case (name e) +:+ ";".
Proof. unfold field_decl. now rewrite field_type_cases. Qed.

Lemma first_kept (l : list RuleElement) (e : RuleElement) :
  In e l -> is_rule_ref e = true ->
  exists l1 e0 l2,
    l = l1 ++ e0 :: l2
    /\ is_rule_ref e0 = true
    /\ field_name_of e0 = field_name_of e
    /\ (forall k, In k l1 -> is_rule_ref k = true ->
                  field_name_of k <> field_name_of e)
    /\ List.filter (same_field e) (distinct_refs l) = [e0].
Proof.
  intros Hin He.
  destruct (first_occurrence l e Hin He) as (l1 & e0 & l2 & -> & H0 & Hn & Hf).
  exists l1, e0, l2. split; [reflexivity|]. split; [exact H0|].
  split; [exact Hn|]. split.
  - intros k Hk Hr. rewrite <- Hn. now apply Hf.
  - rewrite (List.filter_ext (same_field e) (same_field e0));
      [now apply distinct_refs_first|].
    intro x. unfold same_field. now rewrite Hn.
Qed.

(** C4, as the code has it.  The schema text of an alternative is the
    comment line when the alternative has no rule reference, and otherwise
    one declaration line per kept rule reference, in order, where a rule
    reference is kept when no rule reference before it has the same
    normalized field name.  The kept references have pairwise different
    field names and are rule references of the alternative; every rule
    reference of the alternative is represented by exactly one kept
    reference, the first one with its field name; an element that is not a
    rule reference (every token the parser makes) is never kept.  The
    declared type is the class name of the referenced rule, wrapped in
    [List<...>] exactly for the cardinalities [*] and [+], and bare for [?]
    and for no suffix. *)
Theorem schema_one_field_per_distinct_reference :
  (forall alt : Alternative,
      let kept := distinct_refs (elements alt) in
      _generate_fields alt
      = match kept with
        | [] => "    // No child nodes"
        | _ :: _ =>
            Py.join LF
              (map (fun e =>
                      "    private final "
                      +:+ (if String.eqb (cardinality e) "*"
                              || String.eqb (cardinality e) "+"
                           then "List<" +:+ _rule_to_class_name (name e) +:+ ">"
                           else _rule_to_class_name (name e))
                      +:+ " " +:+ _to_camel_case (name e) +:+ ";")
                   kept)
        end
      /\ List.NoDup (map (fun e => _to_camel_case (name e)) kept)
      /\ (forall e, In e kept -> In e (elements alt) /\ is_rule_ref e = true)
      /\ (forall e, In e (elements alt) -> is_rule_ref e = true ->
                    exists l1 e0 l2,
                      elements alt = l1 ++ e0 :: l2
                      /\ is_rule_ref e0 = true
                      /\ _to_camel_case (name e0) = _to_camel_case (name e)
                      /\ (forall k, In k l1 -> is_rule_ref k = true ->
                                    _to_camel_case (name k)
                                    <> _to_camel_case (name e))
                      /\ List.filter
                           (fun k => String.eqb (_to_camel_case (name k))
                                                (_to_camel_case (name e)))
                           kept
                         = [e0]))
  /\ (forall (alt_text : string) (e : RuleElement),
        In e (elements (parse_alt_text alt_text)) -> is_token e = true ->
        ~ In e (distinct_refs (elements (parse_alt_text alt_text))))
  /\ (forall e : RuleElement,
        (cardinality e = "*" \/ cardinality e = "+" ->
         _get_field_type e = "List<" +:+ _rule_to_class_name (name e) +:+ ">")
        /\ (cardinality e = "?" \/ cardinality e = EmptyString ->
            _get_field_type e = _rule_to_class_name (name e))
        /\ (_get_field_type e
            = "List<" +:+ _rule_to_class_name (name e) +:+ ">"
            <-> cardinality e = "*" \/ cardinality e = "+")).
Proof.
  split; [|split].
  - intros alt kept. split.
    { rewrite generate_fields_distinct. fold kept.
      destruct kept as [|k kept']; [reflexivity|]. f_equal.
      apply map_ext. intro e. apply field_decl_text. }
    split; [apply distinct_refs_nodup|].
    split; [intro e; apply distinct_refs_in|].
    intros e Hin He. apply (first_kept _ _ Hin He).
  - intros alt_text e Hin Htok Hd.
    apply distinct_refs_in in Hd as [_ Hr].
    rewrite (parse_alt_text_kind alt_text e Hin), Htok in Hr. discriminate.
  - intro e. rewrite field_type_cases. unfold is_list.
    split; [|split].
    + intros [-> | ->]; reflexivity.
    + intros [-> | ->]; reflexivity.
    + destruct (String.eqb_spec (cardinality e) "*") as [H1 | H1]; simpl.
      { split; auto. }
      destruct (String.eqb_spec (cardinality e) "+") as [H2 | H2]; simpl.
      { split; auto. }
      split.
      * intro H. symmetry in H. now apply wrapped_type_differs in H.
      * intros [H | H]; congruence.
Qed.

Lemma schema_one_field_per_distinct_reference_witness :
  _generate_fields (parse_alt_text "BAR baz item* baz?")
  = "    private final Baz baz;" +:+ LF +:+ "    private final List<Item> item;"
  /\ (exists l1 e0 l2,
         sample_elements = l1 ++ e0 :: l2
         /\ is_rule_ref e0 = true
         /\ _to_camel_case (name e0) = "baz"
         /\ (forall k, In k l1 -> is_rule_ref k = true ->
                       _to_camel_case (name k) <> "baz")
         /\ List.filter (fun k => String.eqb (_to_camel_case (name k)) "baz")
                        (distinct_refs sample_elements)
            = [e0])
  /\ ~ In (mkRuleElement "BAR" true EmptyString false)
          (distinct_refs (elements (parse_alt_text "BAR baz item* baz?")))
  /\ _get_field_type (mkRuleElement "item" false "*" true) = "List<Item>"
  /\ _get_field_type (mkRuleElement "baz" false "?" true) = "Baz"
  /\ In (mkRuleElement "item" false "*" true) sample_elements.
Proof.
  pose proof schema_one_field_per_distinct_reference as (H1 & H2 & H3).
  split; [|split; [|split; [|split; [|split]]]].
  - exact (proj1 (H1 (parse_alt_text "BAR baz item* baz?"))).
  - destruct (H1 (mkAlternative None sample_elements)) as (_ & _ & _ & H).
    apply (H (mkRuleElement "baz" false "?" true)).
    + simpl. right. right. right. left. reflexivity.
    + reflexivity.
  - apply H2.
    + vm_compute. left. reflexivity.
    + reflexivity.
  - apply (proj1 (H3 (mkRuleElement "item" false "*" true))).
    left. reflexivity.
  - apply (proj1 (proj2 (H3 (mkRuleElement "baz" false "?" true)))).
    left. reflexivity.
  - destruct (H1 (mkAlternative None sample_elements)) as (_ & _ & H & _).
    apply (H (mkRuleElement "item" false "*" true)).
    simpl. right. left. reflexivity.
Defined.

(** C4, as stated, fails for two rule references with different names
    that normalize to the same field name: in [id id_*] the references
    [id] and [id_] are distinct, yet the schema has the single field of the
    first one, and no list field for the second although its cardinality
    is [*]. *)
Lemma distinct_references_share_a_field :
  let first_ref := mkRuleElement "id" false EmptyString true in
  let second_ref := mkRuleElement "id_" false "*" true in
  elements (parse_alt_text "id id_*") = [first_ref; second_ref]
  /\ name first_ref <> name second_ref
  /\ is_rule_ref second_ref = true
  /\ _get_field_type second_ref = "List<Id>"
  /\ _to_camel_case (name second_ref) = _to_camel_case (name first_ref)
  /\ fields_of (parse_alt_text "id id_*") = ["    private final Id id;"]
  /\ _generate_fields (parse_alt_text "id id_*") = "    private final Id id;".
Proof.
  cbv zeta. split; [vm_compute; reflexivity|].
  split; [discriminate|].
  repeat split; vm_compute; reflexivity.
Qed.

(** ** Duplicate field names (C5) *)

Lemma generate_constructor_distinct (class_name : string) (alt : Alternative) :
  _generate_constructor class_name alt
  = match distinct_refs (elements alt) with
    | [] =>
        "    public " +:+ class_name +:+ "() {" +:+ LF
        +:+ "        // No child nodes" +:+ LF +:+ "    }"
    | _ :: _ =>
        "    public " +:+ class_name +:+ "("
        +:+ Py.join ", " (map param_decl (distinct_refs (elements alt)))
        +:+ ") {" +:+ LF
        +:+ Py.join LF (map assignment_line (distinct_refs (elements alt)))
        +:+ LF +:+ "    }"
    end.
Proof.
  pose proof (constructor_loop_distinct alt) as Hc.
  unfold _generate_constructor.
  destruct (fold_left constructor_step (elements alt) ([], [], ∅))
    as [[params assignments] seen_names].
  simpl in Hc. injection Hc as -> ->.
  now destruct (distinct_refs (elements alt)).
Qed.

Lemma visit_argument (rule : GrammarRule) (e : RuleElement) :
  snd (visit_lines rule e)
  = if String.eqb (cardinality e) "*" || String.eqb (cardinality e) "+"
    then _to_camel_case (name e) +:+ "List"
    else _to_camel_case (name e).
Proof.
  unfold visit_lines, is_list.
  destruct (String.eqb (cardinality e) "*" || String.eqb (cardinality e) "+");
    [reflexivity|].
  now destruct (is_optional e).
Qed.

Lemma param_decl_text (e : RuleElement) :
  param_decl e
  = (if String.eqb (cardinality e) "*" || String.eqb (cardinality e) "+"
     then "List<" +:+ _rule_to_class_name (name e) +:+ ">"
     else _rule_to_class_name (name e))
    +:+ " " +:+ _to_camel_case (name e).
Proof. unfold param_decl. now rewrite field_type_cases. Qed.

Lemma kept_first_not_nil (l1 l2 : list RuleElement) (e : RuleElement) :
  is_rule_ref e = true ->
  (forall k, In k l1 -> is_rule_ref k = true ->
             field_name_of k <> field_name_of e) ->
  In e (distinct_refs (l1 ++ e :: l2)).
Proof.
  intros He Hfirst.
  pose proof (distinct_refs_first l1 l2 e He Hfirst) as H.
  assert (Hin : In e (List.filter (same_field e) (distinct_refs (l1 ++ e :: l2)))).
  { rewrite H. now left. }
  now apply List.filter_In in Hin as [Hin _].
Qed.

(** C5, as the code has it.  Let [e] be the first rule reference of an
    alternative with its normalized field name (tokens before it do not
    count, whatever their names).  Then [e] is kept and is the only kept
    element of that field name; the schema is the declarations of the kept
    elements, the constructor takes their parameters and makes their
    assignments, and the routine holds their blocks and passes their
    arguments to [new], so the field, the parameter and the argument of
    [e] are there once; and a later element of the same field name leaves
    no trace: schema, constructor, getters and routine are the texts that
    the alternative without that element gives. *)
Theorem duplicate_fields_dropped :
  forall (rule : GrammarRule) (class_name : string) (alt : Alternative)
         (l1 l2 : list RuleElement) (e : RuleElement),
    elements alt = l1 ++ e :: l2 ->
    is_rule_ref e = true ->
    (forall k, In k l1 -> is_rule_ref k = true ->
               _to_camel_case (name k) <> _to_camel_case (name e)) ->
    let kept := distinct_refs (elements alt) in
    let field_name := fun k => _to_camel_case (name k) in
    let field_type := fun k =>
      if String.eqb (cardinality k) "*" || String.eqb (cardinality k) "+"
      then "List<" +:+ _rule_to_class_name (name k) +:+ ">"
      else _rule_to_class_name (name k) in
    let argument := fun k =>
      if String.eqb (cardinality k) "*" || String.eqb (cardinality k) "+"
      then field_name k +:+ "List"
      else field_name k in
    List.filter (fun k => String.eqb (field_name k) (field_name e)) kept = [e]
    /\ _generate_fields alt
       = Py.join LF
           (map (fun k => "    private final " +:+ field_type k +:+ " "
                          +:+ field_name k +:+ ";") kept)
    /\ _generate_constructor class_name alt
       = "    public " +:+ class_name +:+ "("
         +:+ Py.join ", " (map (fun k => field_type k +:+ " " +:+ field_name k)
                               kept)
         +:+ ") {" +:+ LF
         +:+ Py.join LF
               (map (fun k => "        this." +:+ field_name k +:+ " = "
                              +:+ field_name k +:+ ";") kept)
         +:+ LF +:+ "    }"
    /\ _generate_visit_body rule alt
       = Py.join LF
           (flat_map (fun k => fst (visit_lines rule k)) kept
            ++ ["        return new " +:+ java_class_name rule +:+ "("
                +:+ Py.join ", " (map argument kept) +:+ ");"])
    /\ (forall (l2a l2b : list RuleElement) (e' : RuleElement),
          l2 = l2a ++ e' :: l2b ->
          field_name e' = field_name e ->
          let alt' := mkAlternative (label alt) (l1 ++ e :: l2a ++ l2b) in
          _generate_fields alt' = _generate_fields alt
          /\ _generate_constructor class_name alt'
             = _generate_constructor class_name alt
          /\ _generate_getters alt' = _generate_getters alt
          /\ _generate_visit_body rule alt' = _generate_visit_body rule alt).
Proof.
  intros rule class_name alt l1 l2 e Hel He Hfirst kept field_name field_type
         argument.
  assert (Hin : In e kept).
  { unfold kept. rewrite Hel. now apply kept_first_not_nil. }
  split; [unfold kept; rewrite Hel; now apply distinct_refs_first|].
  split.
  { rewrite generate_fields_distinct. fold kept.
    destruct kept as [|k kept']; [destruct Hin|]. f_equal.
    apply map_ext. intro x. apply field_decl_text. }
  split.
  { rewrite generate_constructor_distinct. fold kept.
    destruct kept as [|k kept']; [destruct Hin|].
    rewrite (map_ext param_decl _ param_decl_text). reflexivity. }
  split.
  { rewrite generate_visit_body_distinct. fold kept.
    rewrite (map_ext _ _ (visit_argument rule)).
    unfold return_line.
    destruct kept as [|k kept']; [destruct Hin|]. reflexivity. }
  intros l2a l2b e' -> Hn alt'.
  assert (E : distinct_refs (elements alt') = distinct_refs (elements alt)).
  { rewrite Hel. symmetry. now apply distinct_refs_drop_later. }
  rewrite !generate_fields_distinct, !generate_constructor_distinct,
    !generate_getters_collect, !generate_visit_body_distinct, E.
  repeat split.
Qed.

Lemma duplicate_fields_dropped_witness :
  List.filter (fun k => String.eqb (_to_camel_case (name k)) "item")
              (distinct_refs (elements two_refs))
  = [mkRuleElement "item" false EmptyString true]
  /\ _generate_fields two_refs = "    private final Item item;"
  /\ _generate_constructor "R" two_refs
     = "    public R(Item item) {" +:+ LF
       +:+ "        this.item = item;" +:+ LF +:+ "    }"
  /\ _generate_visit_body (mkGrammarRule "r" [two_refs]) two_refs
     = Py.join LF
         ["        Item item;";
          "        if (ctx.item() == null) {";
          "            throw new TransformationException(" +:+ DQ
            +:+ "r missing item" +:+ DQ +:+ ");";
          "        }";
          "        item = (Item) visit(ctx.item());";
          "        return new R(item);"]
  /\ (_generate_fields one_ref = _generate_fields two_refs
      /\ _generate_constructor "R" one_ref = _generate_constructor "R" two_refs
      /\ _generate_getters one_ref = _generate_getters two_refs
      /\ _generate_visit_body (mkGrammarRule "r" [two_refs]) one_ref
         = _generate_visit_body (mkGrammarRule "r" [two_refs]) two_refs).
Proof.
  destruct (duplicate_fields_dropped (mkGrammarRule "r" [two_refs]) "R"
              two_refs []
              [mkRuleElement "SEP" true EmptyString false;
               mkRuleElement "item" false "*" true]
              (mkRuleElement "item" false EmptyString true) eq_refl eq_refl)
    as (H1 & H2 & H3 & H4 & H5).
  { intros k []. }
  split; [exact H1|]. split; [exact H2|].
  split; [exact H3|]. split; [exact H4|].
  apply (H5 [mkRuleElement "SEP" true EmptyString false] []
            (mkRuleElement "item" false "*" true));
    reflexivity.
Defined.

(** C5, as stated, fails when the first element of a field name is a
    token: in [A _a] the token [A] and the rule reference [_a] normalize to
    the same field name, the first of the two produces no field, and the
    later one is not dropped but gives the field, the parameter and the
    block of the routine. *)
Lemma token_does_not_shadow_reference :
  let token := mkRuleElement "A" true EmptyString false in
  let reference := mkRuleElement "_a" false EmptyString true in
  let alt := parse_alt_text "A _a" in
  elements alt = [token; reference]
  /\ _to_camel_case (name token) = _to_camel_case (name reference)
  /\ _generate_fields alt = "    private final A A;"
  /\ _generate_constructor "R" alt
     = "    public R(A A) {" +:+ LF +:+ "        this.A = A;" +:+ LF +:+ "    }"
  /\ _generate_visit_body (mkGrammarRule "r" [alt]) alt
     = Py.join LF
         ["        A A;";
          "        if (ctx._a() == null) {";
          "            throw new TransformationException(" +:+ DQ
            +:+ "r missing _a" +:+ DQ +:+ ");";
          "        }";
          "        A = (A) visit(ctx._a());";
          "        return new R(A);"].
Proof. cbv zeta. repeat split; vm_compute; reflexivity. Qed.

(** ** Runs of the generators (C9) *)

Lemma node_generate_cases (frames : nat) (rule : GrammarRule)
    (fs : file_system) :
  SemanticNodeGenerator_generate SEMANTIC_PACKAGE_DIR SEMANTIC_PACKAGE
    frames rule true fs
  = match fs !! node_path rule with
    | Some _ => (fs, Return tt)
    | None =>
        match _generate_class SEMANTIC_PACKAGE frames rule
                (_determine_subdir (rule_name rule)) with
        | Raise e => (fs, Raise e)
        | Return content => (<[node_path rule := content]> fs, Return tt)
        end
    end.
Proof.
  unfold SemanticNodeGenerator_generate. fold (node_path rule).
  destruct (fs !! node_path rule) as [old|] eqn:E; cbn [andb].
  - rewrite bool_decide_eq_true_2 by eauto. reflexivity.
  - rewrite bool_decide_eq_false_2; [reflexivity|].
    intros [x Hx]. discriminate.
Qed.

Lemma builder_generate_cases (rules : dict GrammarRule) (fs : file_system) :
  TreeBuilderGenerator_generate BUILDER_PACKAGE_DIR BASE_PACKAGE rules true fs
  = match fs !! builder_path with
    | Some _ => (fs, Return tt)
    | None =>
        match _generate_builder_class BASE_PACKAGE rules with
        | Raise e => (fs, Raise e)
        | Return content => (<[builder_path := content]> fs, Return tt)
        end
    end.
Proof.
  unfold TreeBuilderGenerator_generate. fold builder_path.
  destruct (fs !! builder_path) as [old|] eqn:E; cbn [andb].
  - rewrite bool_decide_eq_true_2 by eauto. reflexivity.
  - rewrite bool_decide_eq_false_2; [reflexivity|].
    intros [x Hx]. discriminate.
Qed.

Lemma generate_nodes_cons (frames : nat) (n : string) (rule : GrammarRule)
    (items : list (string * GrammarRule)) (fs : file_system) :
  generate_nodes frames ((n, rule) :: items) fs
  = match fs !! node_path rule with
    | Some _ => generate_nodes frames items fs
    | None =>
        match _generate_class SEMANTIC_PACKAGE frames rule
                (_determine_subdir (rule_name rule)) with
        | Raise e => (fs, Raise e)
        | Return content =>
            generate_nodes frames items (<[node_path rule := content]> fs)
        end
    end.
Proof.
  cbn [generate_nodes]. rewrite node_generate_cases.
  destruct (fs !! node_path rule); [reflexivity|].
  now destruct (_generate_class SEMANTIC_PACKAGE frames rule
                  (_determine_subdir (rule_name rule))).
Qed.

(** A run never changes a file that is there: it only adds files. *)
Lemma generate_nodes_mono (frames : nat) (items : list (string * GrammarRule))
    (fs : file_system) :
  fs ⊆ fst (generate_nodes frames items fs).
Proof.
  revert fs; induction items as [|[n rule] items IH]; intro fs.
  - reflexivity.
  - rewrite generate_nodes_cons.
    destruct (fs !! node_path rule) as [old|] eqn:E; [apply IH|].
    destruct (_generate_class SEMANTIC_PACKAGE frames rule
                (_determine_subdir (rule_name rule))) as [content|e];
      [|reflexivity].
    transitivity (<[node_path rule := content]> fs);
      [now apply insert_subseteq | apply IH].
Qed.

Lemma lookup_kept (fs fs' : file_system) (p : string) :
  fs ⊆ fs' -> is_Some (fs !! p) -> exists x, fs' !! p = Some x.
Proof.
  intros Hsub [x Hx]. exists x. exact (lookup_weaken fs fs' p x Hx Hsub).
Qed.

(** Running the loop again on its own outcome changes nothing and ends in
    the same way. *)
Lemma generate_nodes_rerun (frames : nat) (items : list (string * GrammarRule))
    (fs : file_system) :
  generate_nodes frames items (fst (generate_nodes frames items fs))
  = generate_nodes frames items fs.
Proof.
  revert fs; induction items as [|[n rule] items IH]; intro fs;
    [reflexivity|].
  rewrite (generate_nodes_cons frames n rule items fs).
  destruct (fs !! node_path rule) as [old|] eqn:E.
  - rewrite generate_nodes_cons.
    destruct (lookup_kept fs (fst (generate_nodes frames items fs))
                (node_path rule) (generate_nodes_mono _ _ _)) as [x ->];
      [eauto | apply IH].
  - destruct (_generate_class SEMANTIC_PACKAGE frames rule
                (_determine_subdir (rule_name rule))) as [content|e] eqn:G.
    + rewrite generate_nodes_cons.
      destruct (lookup_kept (<[node_path rule := content]> fs)
                  (fst (generate_nodes frames items
                          (<[node_path rule := content]> fs)))
                  (node_path rule) (generate_nodes_mono _ _ _)) as [x ->].
      { rewrite lookup_insert_eq. eauto. }
      apply IH.
    + cbn [fst]. now rewrite generate_nodes_cons, E, G.
Qed.

(** After a loop that came to its end, every class file is there: on any
    larger file system the loop writes nothing. *)
Lemma generate_nodes_done (frames : nat) (items : list (string * GrammarRule))
    (fs h : file_system) :
  snd (generate_nodes frames items fs) = Return tt ->
  fst (generate_nodes frames items fs) ⊆ h ->
  generate_nodes frames items h = (h, Return tt).
Proof.
  revert fs; induction items as [|[n rule] items IH]; intros fs Hr Hsub;
    [reflexivity|].
  rewrite generate_nodes_cons in Hr, Hsub. rewrite generate_nodes_cons.
  destruct (fs !! node_path rule) as [old|] eqn:E.
  - destruct (lookup_kept fs h (node_path rule)) as [x ->]; [|eauto|eauto].
    transitivity (fst (generate_nodes frames items fs));
      [apply generate_nodes_mono | exact Hsub].
  - destruct (_generate_class SEMANTIC_PACKAGE frames rule
                (_determine_subdir (rule_name rule))) as [content|e] eqn:G;
      [|discriminate].
    destruct (lookup_kept (<[node_path rule := content]> fs) h
                (node_path rule)) as [x ->]; [| |eauto].
    + transitivity (fst (generate_nodes frames items
                           (<[node_path rule := content]> fs)));
        [apply generate_nodes_mono | exact Hsub].
    + rewrite lookup_insert_eq. eauto.
Qed.

(** What the loop stores under a path that was free is the class of the
    first rule with that path. *)
Lemma generate_nodes_written (frames : nat)
    (items : list (string * GrammarRule)) (fs : file_system)
    (p text : string) :
  fs !! p = None ->
  fst (generate_nodes frames items fs) !! p = Some text ->
  exists rule,
    first_with_path p items = Some rule
    /\ _generate_class SEMANTIC_PACKAGE frames rule
         (_determine_subdir (rule_name rule)) = Return text.
Proof.
  revert fs; induction items as [|[n rule] items IH]; intros fs Hp Hw.
  - simpl in Hw. congruence.
  - rewrite generate_nodes_cons in Hw. cbn [first_with_path].
    destruct (String.eqb_spec (node_path rule) p) as [<- | Hne].
    + rewrite Hp in Hw.
      destruct (_generate_class SEMANTIC_PACKAGE frames rule
                  (_determine_subdir (rule_name rule))) as [content|e] eqn:G.
      * exists rule. split; [reflexivity|]. f_equal.
        pose proof (generate_nodes_mono frames items
                      (<[node_path rule := content]> fs)) as Hsub.
        pose proof (lookup_weaken _ _ (node_path rule) content
                      (lookup_insert_eq _ _ _) Hsub) as Hc.
        congruence.
      * simpl in Hw. congruence.
    + destruct (fs !! node_path rule) as [old|] eqn:E; [now apply (IH fs)|].
      destruct (_generate_class SEMANTIC_PACKAGE frames rule
                  (_determine_subdir (rule_name rule))) as [content|e] eqn:G.
      * apply (IH (<[node_path rule := content]> fs)); [|exact Hw].
        now rewrite lookup_insert_ne.
      * simpl in Hw. congruence.
Qed.

(** After a loop that came to its end, the class file of every rule is
    there. *)
Lemma generate_nodes_complete (frames : nat)
    (items : list (string * GrammarRule)) (fs : file_system) (p : string)
    (rule : GrammarRule) :
  snd (generate_nodes frames items fs) = Return tt ->
  first_with_path p items = Some rule ->
  is_Some (fst (generate_nodes frames items fs) !! p).
Proof.
  revert fs; induction items as [|[n r] items IH]; intros fs Hr Hf;
    [discriminate|].
  cbn [first_with_path] in Hf. rewrite generate_nodes_cons in Hr |- *.
  destruct (String.eqb_spec (node_path r) p) as [<- | Hne].
  - destruct (fs !! node_path r) as [old|] eqn:E.
    + destruct (lookup_kept fs (fst (generate_nodes frames items fs))
                  (node_path r) (generate_nodes_mono _ _ _)) as [x ->];
        eauto.
    + destruct (_generate_class SEMANTIC_PACKAGE frames r
                  (_determine_subdir (rule_name r))) as [content|e];
        [|discriminate].
      destruct (lookup_kept (<[node_path r := content]> fs)
                  (fst (generate_nodes frames items
                          (<[node_path r := content]> fs)))
                  (node_path r) (generate_nodes_mono _ _ _)) as [x ->];
        [|eauto].
      rewrite lookup_insert_eq. eauto.
  - destruct (fs !! node_path r) as [old|] eqn:E; [now apply IH|].
    destruct (_generate_class SEMANTIC_PACKAGE frames r
                (_determine_subdir (rule_name r))) as [content|e];
      [now apply IH | discriminate].
Qed.

Lemma generate_nodes_unwritten (frames : nat)
    (items : list (string * GrammarRule)) (fs : file_system) (p : string) :
  first_with_path p items = None ->
  fst (generate_nodes frames items fs) !! p = fs !! p.
Proof.
  revert fs; induction items as [|[n rule] items IH]; intros fs Hnone;
    [reflexivity|].
  cbn [first_with_path] in Hnone. rewrite generate_nodes_cons.
  destruct (String.eqb_spec (node_path rule) p) as [E0 | Hne]; [discriminate|].
  destruct (fs !! node_path rule) as [old|] eqn:E; [now apply IH|].
  destruct (_generate_class SEMANTIC_PACKAGE frames rule
              (_determine_subdir (rule_name rule))) as [content|e];
    [|reflexivity].
  rewrite IH by exact Hnone. now rewrite lookup_insert_ne.
Qed.

Lemma main_cases (frames : nat) (fs : file_system) :
  main frames fs
  = match fs !! GRAMMAR_FILE with
    | None => (fs, Raise FileNotFoundError)
    | Some content =>
        let nodes := generate_nodes frames (sorted_items (parse content)) fs in
        match snd nodes with
        | Raise e => (fst nodes, Raise e)
        | Return _ =>
            match fst nodes !! builder_path with
            | Some _ => (fst nodes, Return tt)
            | None =>
                match _generate_builder_class BASE_PACKAGE (parse content) with
                | Raise e => (fst nodes, Raise e)
                | Return text =>
                    (<[builder_path := text]> (fst nodes), Return tt)
                end
            end
        end
    end.
Proof.
  unfold main. destruct (fs !! GRAMMAR_FILE) as [content|]; [|reflexivity].
  cbv zeta.
  destruct (generate_nodes frames (sorted_items (parse content)) fs)
    as [fs' [[]|e]]; [|reflexivity].
  cbn [fst snd]. apply builder_generate_cases.
Qed.

Lemma main_mono (frames : nat) (fs : file_system) :
  fs ⊆ fst (main frames fs).
Proof.
  rewrite main_cases. destruct (fs !! GRAMMAR_FILE) as [content|];
    [|reflexivity].
  cbv zeta.
  pose proof (generate_nodes_mono frames (sorted_items (parse content)) fs)
    as Hsub.
  destruct (snd (generate_nodes frames (sorted_items (parse content)) fs))
    as [[]|e]; [|exact Hsub].
  destruct (fst (generate_nodes frames (sorted_items (parse content)) fs)
              !! builder_path) as [old|] eqn:E; [exact Hsub|].
  destruct (_generate_builder_class BASE_PACKAGE (parse content))
    as [text|e]; [|exact Hsub].
  etransitivity; [exact Hsub | now apply insert_subseteq].
Qed.

Lemma main_rerun (frames : nat) (fs : file_system) :
  main frames (fst (main frames fs))
  = (fst (main frames fs), snd (main frames fs)).
Proof.
  pose proof (main_mono frames fs) as Hmono.
  rewrite (main_cases frames (fst (main frames fs))).
  rewrite (main_cases frames fs) in *.
  destruct (fs !! GRAMMAR_FILE) as [content|] eqn:Eg.
  2: { cbn [fst snd]. now rewrite Eg. }
  cbv zeta in *.
  pose proof (generate_nodes_rerun frames (sorted_items (parse content)) fs)
    as Hre.
  pose proof (generate_nodes_done frames (sorted_items (parse content)) fs)
    as Hdone.
  destruct (generate_nodes frames (sorted_items (parse content)) fs)
    as [fs1 r1] eqn:En.
  cbn [fst snd] in *.
  destruct r1 as [[]|e].
  - destruct (fs1 !! builder_path) as [old|] eqn:Eb.
    + cbn [fst snd] in *. rewrite (lookup_weaken _ _ _ _ Eg Hmono).
      rewrite Hre. cbn [fst snd]. now rewrite Eb.
    + destruct (_generate_builder_class BASE_PACKAGE (parse content))
        as [text|e] eqn:Egen.
      * cbn [fst snd] in *. rewrite (lookup_weaken _ _ _ _ Eg Hmono).
        rewrite (Hdone (<[builder_path := text]> fs1) eq_refl)
          by now apply insert_subseteq.
        cbn [fst snd]. now rewrite lookup_insert_eq.
      * cbn [fst snd] in *. rewrite (lookup_weaken _ _ _ _ Eg Hmono).
        rewrite Hre. cbn [fst snd]. now rewrite Eb, Egen.
  - cbn [fst snd] in *. rewrite (lookup_weaken _ _ _ _ Eg Hmono).
    now rewrite Hre.
Qed.

(** What a run stores under a path that was free is given by the grammar
    text alone. *)
Lemma main_written (frames : nat) (fs : file_system)
    (content p text : string) :
  fs !! GRAMMAR_FILE = Some content ->
  fs !! p = None ->
  fst (main frames fs) !! p = Some text ->
  written_text frames (parse content) p = Some (Return text).
Proof.
  intros Eg Hp Hw. rewrite main_cases, Eg in Hw. cbv zeta in Hw.
  unfold written_text.
  set (items := sorted_items (parse content)) in *.
  destruct (first_with_path p items) as [rule|] eqn:Ef.
  - assert (Hn : fst (generate_nodes frames items fs) !! p = Some text).
    { destruct (snd (generate_nodes frames items fs)) as [[]|e] eqn:Er;
        [|exact Hw].
      destruct (fst (generate_nodes frames items fs) !! builder_path)
        as [old|] eqn:Eb; [exact Hw|].
      destruct (_generate_builder_class BASE_PACKAGE (parse content))
        as [t|e]; [|exact Hw].
      cbn [fst] in Hw.
      destruct (String.eqb_spec builder_path p) as [<- | Hne].
      - rewrite lookup_insert_eq in Hw. injection Hw as ->.
        exfalso.
        destruct (generate_nodes_complete frames items fs builder_path rule
                    Er Ef) as [x Hx].
        congruence.
      - now rewrite lookup_insert_ne in Hw. }
    apply generate_nodes_written in Hn as (rule' & Hf & Hg); [|exact Hp].
    rewrite Ef in Hf. injection Hf as <-. now rewrite Hg.
  - pose proof (generate_nodes_unwritten frames items fs p Ef) as Hu.
    rewrite Hp in Hu.
    destruct (snd (generate_nodes frames items fs)) as [[]|e];
      [|cbn [fst] in Hw; congruence].
    destruct (fst (generate_nodes frames items fs) !! builder_path)
      as [old|] eqn:Eb; [cbn [fst] in Hw; congruence|].
    destruct (_generate_builder_class BASE_PACKAGE (parse content))
      as [t|e]; [|cbn [fst] in Hw; congruence].
    cbn [fst] in Hw.
    destruct (String.eqb_spec builder_path p) as [<- | Hne].
    + rewrite lookup_insert_eq in Hw. now injection Hw as ->.
    + rewrite lookup_insert_ne in Hw by exact Hne. congruence.
Qed.

(** C9.  A run of [main] is taken from a file system to the file system
    and the way it ends.  Running it again on what the first run left
    changes no file and ends in the same way, exception or not: the second
    run reads the same grammar, hence builds the same model, and finds
    every artifact in place.  A run changes no file that is there.  What a
    run stores under a path that was free is a function of the model alone
    (the class of the first rule, in processing order, with that path, or
    the builder), so two runs on file systems with the same grammar store
    the same text wherever both write.  The rules are processed in
    ascending order of their names, which are distinct: that order is a
    rearrangement of the model's items and is the same, with the same
    files written, for every arrangement of these items. *)
Theorem generation_is_deterministic :
  (forall (frames : nat) (fs : file_system),
      let fs1 := fst (main frames fs) in
      main frames fs1 = (fs1, snd (main frames fs))
      /\ (forall p text, fs !! p = Some text -> fs1 !! p = Some text)
      /\ parse <$> (fs1 !! GRAMMAR_FILE) = parse <$> (fs !! GRAMMAR_FILE))
  /\ (forall (frames : nat) (fs : file_system) (content p text : string),
        fs !! GRAMMAR_FILE = Some content ->
        fs !! p = None ->
        fst (main frames fs) !! p = Some text ->
        written_text frames (parse content) p = Some (Return text))
  /\ (forall (frames : nat) (fs fs' : file_system) (p text text' : string),
        fs !! GRAMMAR_FILE = fs' !! GRAMMAR_FILE ->
        fs !! p = None -> fs' !! p = None ->
        fst (main frames fs) !! p = Some text ->
        fst (main frames fs') !! p = Some text' ->
        text = text')
  /\ (forall content : string,
        List.NoDup (keys (parse content))
        /\ StronglySorted key_le (sorted_items (parse content))
        /\ Permutation (sorted_items (parse content)) (parse content))
  /\ (forall (frames : nat) (fs : file_system)
             (rules rules' : dict GrammarRule),
        List.NoDup (keys rules) -> Permutation rules rules' ->
        sorted_items rules = sorted_items rules'
        /\ generate_nodes frames (sorted_items rules) fs
           = generate_nodes frames (sorted_items rules') fs
        /\ _generate_builder_class BASE_PACKAGE rules
           = _generate_builder_class BASE_PACKAGE rules'
        /\ TreeBuilderGenerator_generate BUILDER_PACKAGE_DIR BASE_PACKAGE
             rules true fs
           = TreeBuilderGenerator_generate BUILDER_PACKAGE_DIR BASE_PACKAGE
               rules' true fs).
Proof.
  split; [|split; [|split; [|split]]].
  - intros frames fs fs1. split; [apply main_rerun|].
    assert (Hkeep : forall p text, fs !! p = Some text -> fs1 !! p = Some text).
    { intros p text Hp. exact (lookup_weaken _ _ _ _ Hp (main_mono frames fs)). }
    split; [exact Hkeep|].
    destruct (fs !! GRAMMAR_FILE) as [content|] eqn:Eg.
    + now rewrite (Hkeep _ _ Eg).
    + unfold fs1, main. rewrite Eg. cbn [fst]. now rewrite Eg.
  - intros frames fs content p text. apply main_written.
  - intros frames fs fs' p text text' Eg Hp Hp' Hw Hw'.
    destruct (fs !! GRAMMAR_FILE) as [content|] eqn:E.
    + symmetry in Eg.
      pose proof (main_written frames fs content p text E Hp Hw) as H1.
      pose proof (main_written frames fs' content p text' Eg Hp' Hw') as H2.
      congruence.
    + unfold main in Hw. rewrite E in Hw. simpl in Hw. congruence.
  - intro content. split; [apply parse_keys_nodup|].
    split; [apply sorted_items_sorted | apply sorted_items_perm].
  - intros frames fs rules rules' Hnd Hp.
    pose proof (sorted_items_order_independent rules rules' Hnd Hp) as E.
    assert (Eb : _generate_builder_class BASE_PACKAGE rules
                 = _generate_builder_class BASE_PACKAGE rules').
    { unfold _generate_builder_class. now rewrite E. }
    split; [exact E|]. split; [now rewrite E|]. split; [exact Eb|].
    unfold TreeBuilderGenerator_generate. now rewrite Eb.
Qed.

Lemma generation_is_deterministic_witness :
  main 8 (fst (main 8 sample_files)) = (fst (main 8 sample_files), Return tt)
  /\ main 8 (fst (main 8 labeled_files))
     = (fst (main 8 labeled_files), Raise RecursionError)
  /\ fst (main 8 sample_files) !! GRAMMAR_FILE = Some sample_grammar
  /\ (exists text,
         fst (main 8 sample_files) !! node_path (_parse_rule "expr" "term+")
         = Some text
         /\ fst (main 8 (<[ "README.md" := "notes" ]> sample_files))
              !! node_path (_parse_rule "expr" "term+")
            = Some text
         /\ written_text 8 (parse sample_grammar)
              (node_path (_parse_rule "expr" "term+"))
            = Some (Return text))
  /\ map fst (sorted_items (parse sample_grammar)) = ["atom"; "expr"; "stmt"]
  /\ generate_nodes 8 (sorted_items (parse sample_grammar)) sample_files
     = generate_nodes 8 (sorted_items (rev (parse sample_grammar)))
         sample_files.
Proof.
  pose proof generation_is_deterministic as (H1 & H2 & H3 & _ & H5).
  split; [|split; [|split; [|split; [|split]]]].
  - destruct (H1 8 sample_files) as (Hre & _ & _).
    assert (Hend : snd (main 8 sample_files) = Return tt)
      by (vm_compute; reflexivity).
    rewrite Hend in Hre. exact Hre.
  - destruct (H1 8 labeled_files) as (Hre & _ & _).
    assert (Hend : snd (main 8 labeled_files) = Raise RecursionError)
      by (vm_compute; reflexivity).
    rewrite Hend in Hre. exact Hre.
  - destruct (H1 8 sample_files) as (_ & Hkeep & _).
    apply Hkeep. vm_compute. reflexivity.
  - set (p := node_path (_parse_rule "expr" "term+")).
    assert (Hw : is_Some (fst (main 8 sample_files) !! p))
      by (vm_compute; eauto).
    assert (Hw' : is_Some (fst (main 8 (<[ "README.md" := "notes" ]>
                                          sample_files)) !! p))
      by (vm_compute; eauto).
    destruct Hw as [text Hw], Hw' as [text' Hw'].
    assert (Hfree : sample_files !! p = None) by (vm_compute; reflexivity).
    assert (Hfree' : (<[ "README.md" := "notes" ]> sample_files) !! p = None)
      by (vm_compute; reflexivity).
    assert (E : text = text').
    { apply (H3 8 sample_files (<[ "README.md" := "notes" ]> sample_files) p);
        try assumption.
      vm_compute. reflexivity. }
    subst text'. exists text. split; [exact Hw|]. split; [exact Hw'|].
    apply (H2 8 sample_files sample_grammar p text);
      [vm_compute; reflexivity | exact Hfree | exact Hw].
  - vm_compute. reflexivity.
  - destruct (H5 8 sample_files (parse sample_grammar)
                (rev (parse sample_grammar))) as (_ & E & _).
    + vm_compute. repeat constructor; simpl; intuition discriminate.
    + apply Permutation_rev.
    + exact E.
Defined.
